(** * Tic-Tac-Toe agent: board model and minimax search

    A shallow embedding of [tic_tac_toe_agent.py]: the [TicTacToeGame]
    board operations and the [MinimaxAI] search with alpha-beta pruning.

    Conventions of the embedding:
    - a Python [int] is a [Z]; a Python [str] is a [string];
    - the board is the list of lists the constructor builds, read and
      written with Python's indexing rules (negative indices count from
      the end, anything else out of range raises [IndexError]);
    - the board is the only state the modelled methods mutate, so a
      method that writes it returns the board it leaves behind together
      with its Python return value;
    - [-math.inf] and [math.inf] are the two extra points of [num];
    - recursion is bounded by a frame budget, as the interpreter's is:
      running out of frames raises [RecursionError];
    - console output ([print]) is not part of the model. *)

From Stdlib Require Import ZArith List String Ascii Bool Lia.
Import ListNotations.

Open Scope string_scope.
Open Scope list_scope.
Open Scope Z_scope.

(** ** Exceptions *)

Inductive exn : Type :=
| IndexError
| RecursionError
| TypeError.

Inductive result (A : Type) : Type :=
| Ok (a : A)
| Raise (e : exn).

Arguments Ok {A} a.
Arguments Raise {A} e.

Definition bind {A B : Type} (m : result A) (k : A -> result B) : result B :=
  match m with
  | Ok a => k a
  | Raise e => Raise e
  end.

Notation "x <- m ;; k" := (bind m (fun x => k))
  (at level 61, m at next level, right associativity).
Notation "' p <- m ;; k" := (bind m (fun x => let 'p := x in k))
  (at level 61, p pattern, m at next level, right associativity).

(** ** Python lists *)

Definition norm_index (len i : Z) : Z := if i <? 0 then i + len else i.

(** [l[i]] *)
Definition py_index {A : Type} (l : list A) (i : Z) : result A :=
  let j := norm_index (Z.of_nat (List.length l)) i in
  if j <? 0 then Raise IndexError
  else match nth_error l (Z.to_nat j) with
       | Some x => Ok x
       | None => Raise IndexError
       end.

Fixpoint replace_nth {A : Type} (l : list A) (n : nat) (v : A) : list A :=
  match l, n with
  | [], _ => []
  | _ :: t, O => v :: t
  | h :: t, S n' => h :: replace_nth t n' v
  end.

(** [l[i] = v] *)
Definition py_setitem {A : Type} (l : list A) (i : Z) (v : A) : result (list A) :=
  let len := Z.of_nat (List.length l) in
  let j := norm_index len i in
  if (j <? 0) || (len <=? j) then Raise IndexError
  else Ok (replace_nth l (Z.to_nat j) v).

(** ** Numbers that may be infinite *)

Inductive num : Type :=
| NegInf
| Fin (z : Z)
| PosInf.

(** [a < b] *)
Definition num_ltb (a b : num) : bool :=
  match a, b with
  | NegInf, NegInf => false
  | NegInf, _ => true
  | Fin _, NegInf => false
  | Fin x, Fin y => x <? y
  | Fin _, PosInf => true
  | PosInf, _ => false
  end.

(** [a <= b] *)
Definition num_leb (a b : num) : bool :=
  match a, b with
  | NegInf, _ => true
  | Fin _, NegInf => false
  | Fin x, Fin y => x <=? y
  | Fin _, PosInf => true
  | PosInf, PosInf => true
  | PosInf, _ => false
  end.

(** [max(a, b)]: the first argument unless the second is strictly greater *)
Definition py_max (a b : num) : num := if num_ltb a b then b else a.

(** [min(a, b)]: the first argument unless the second is strictly smaller *)
Definition py_min (a b : num) : num := if num_ltb b a then b else a.

(** ** TicTacToeGame *)

Definition board : Type := list (list string).

(** [[[' ' for _ in range(3)] for _ in range(3)]] *)
Definition initial_board : board :=
  [[" "; " "; " "]; [" "; " "; " "]; [" "; " "; " "]].

(** [self.board[row][col]] *)
Definition get_cell (b : board) (row col : Z) : result string :=
  r <- py_index b row ;;
  py_index r col.

(** [self.board[row][col] = v] *)
Definition set_cell (b : board) (row col : Z) (v : string) : result board :=
  r <- py_index b row ;;
  r' <- py_setitem r col v ;;
  py_setitem b row r'.

Definition is_valid_move (b : board) (row col : Z) : result bool :=
  if (0 <=? row) && (row <? 3) && (0 <=? col) && (col <? 3)
  then c <- get_cell b row col ;; Ok (String.eqb c " ")
  else Ok false.

Definition make_move (b : board) (row col : Z) (player : string)
  : result (board * bool) :=
  valid <- is_valid_move b row col ;;
  if valid
  then b' <- set_cell b row col player ;; Ok (b', true)
  else Ok (b, false).

(** [x == y == z != ' '], the third operand evaluated only when the first
    comparison holds *)
Definition chain3 (x y : string) (z : result string) : result bool :=
  if String.eqb x y
  then z' <- z ;; Ok (String.eqb y z' && negb (String.eqb z' " "))
  else Ok false.

Fixpoint check_rows (rows : list (list string)) : result (option string) :=
  match rows with
  | [] => Ok None
  | row :: rest =>
      x <- py_index row 0 ;;
      y <- py_index row 1 ;;
      hit <- chain3 x y (py_index row 2) ;;
      if hit then Ok (Some x) else check_rows rest
  end.

Fixpoint check_cols (b : board) (cols : list Z) : result (option string) :=
  match cols with
  | [] => Ok None
  | col :: rest =>
      x <- get_cell b 0 col ;;
      y <- get_cell b 1 col ;;
      hit <- chain3 x y (get_cell b 2 col) ;;
      if hit then Ok (Some x) else check_cols b rest
  end.

Definition check_diag (b : board) (c0 c1 c2 : Z) : result (option string) :=
  x <- get_cell b 0 c0 ;;
  y <- get_cell b 1 c1 ;;
  hit <- chain3 x y (get_cell b 2 c2) ;;
  if hit then Ok (Some x) else Ok None.

Definition check_winner (b : board) : result (option string) :=
  w <- check_rows b ;;
  match w with
  | Some _ => Ok w
  | None =>
      w <- check_cols b [0; 1; 2] ;;
      match w with
      | Some _ => Ok w
      | None =>
          w <- check_diag b 0 1 2 ;;
          match w with
          | Some _ => Ok w
          | None => check_diag b 2 1 0
          end
      end
  end.

Definition is_board_full (b : board) : bool :=
  forallb (forallb (fun cell => negb (String.eqb cell " "))) b.

(** Truth value of an [Optional[str]]: [None] and the empty string are
    false *)
Definition truthy (w : option string) : bool :=
  match w with
  | None => false
  | Some s => negb (String.eqb s "")
  end.

Definition is_game_over (b : board) : result (bool * option string) :=
  winner <- check_winner b ;;
  if truthy winner then Ok (true, winner)
  else if is_board_full b then Ok (true, Some "Draw")
  else Ok (false, None).

Fixpoint scan_row (b : board) (i : Z) (js : list Z) : result (list (Z * Z)) :=
  match js with
  | [] => Ok []
  | j :: rest =>
      c <- get_cell b i j ;;
      ms <- scan_row b i rest ;;
      Ok (if String.eqb c " " then (i, j) :: ms else ms)
  end.

Fixpoint scan_rows (b : board) (rs : list Z) : result (list (Z * Z)) :=
  match rs with
  | [] => Ok []
  | i :: rest =>
      ms <- scan_row b i [0; 1; 2] ;;
      ms' <- scan_rows b rest ;;
      Ok (ms ++ ms')
  end.

Definition get_available_moves (b : board) : result (list (Z * Z)) :=
  scan_rows b [0; 1; 2].

(** ** MinimaxAI *)

Record MinimaxAI : Type := mkMinimaxAI {
  ai_player : string;
  human_player : string
}.

(** [winner == player] for an [Optional[str]] winner *)
Definition winner_is (w : option string) (player : string) : bool :=
  match w with
  | None => false
  | Some s => String.eqb s player
  end.

Definition evaluate_board (self : MinimaxAI) (b : board) : result Z :=
  winner <- check_winner b ;;
  if winner_is winner (ai_player self) then Ok 10
  else if winner_is winner (human_player self) then Ok (-10)
  else Ok 0.

Section SearchLoops.

(** The recursive call [self.minimax(game, depth + 1, ..., alpha, beta)],
    as a function of the board it runs on and of the bounds in force. *)
Variable recurse : board -> num -> num -> result (board * num).

(** The mark the loop writes: [self.ai_player] or [self.human_player]. *)
Variable mark : string.

(** The body of the maximizing branch's [for] loop, from the candidate
    list still to visit. *)
Fixpoint max_loop (moves : list (Z * Z)) (b : board)
         (max_eval alpha beta : num) : result (board * num) :=
  match moves with
  | [] => Ok (b, max_eval)
  | (row, col) :: rest =>
      b1 <- set_cell b row col mark ;;
      '(b2, eval_score) <- recurse b1 alpha beta ;;
      b3 <- set_cell b2 row col " " ;;
      let max_eval := py_max max_eval eval_score in
      let alpha := py_max alpha eval_score in
      if num_leb beta alpha then Ok (b3, max_eval)
      else max_loop rest b3 max_eval alpha beta
  end.

(** The body of the minimizing branch's [for] loop. *)
Fixpoint min_loop (moves : list (Z * Z)) (b : board)
         (min_eval alpha beta : num) : result (board * num) :=
  match moves with
  | [] => Ok (b, min_eval)
  | (row, col) :: rest =>
      b1 <- set_cell b row col mark ;;
      '(b2, eval_score) <- recurse b1 alpha beta ;;
      b3 <- set_cell b2 row col " " ;;
      let min_eval := py_min min_eval eval_score in
      let beta := py_min beta eval_score in
      if num_leb beta alpha then Ok (b3, min_eval)
      else min_loop rest b3 min_eval alpha beta
  end.

End SearchLoops.

(** [frames] is the number of nested calls still allowed. *)
Fixpoint minimax (frames : nat) (self : MinimaxAI) (b : board) (depth : Z)
         (is_maximizing : bool) (alpha beta : num) : result (board * num) :=
  match frames with
  | O => Raise RecursionError
  | S frames' =>
      '(is_over, _) <- is_game_over b ;;
      if is_over then
        score <- evaluate_board self b ;;
        if 0 <? score then Ok (b, Fin (score - depth))
        else if score <? 0 then Ok (b, Fin (score + depth))
        else Ok (b, Fin 0)
      else if is_maximizing then
        moves <- get_available_moves b ;;
        max_loop (fun b' a' b'' => minimax frames' self b' (depth + 1) false a' b'')
                 (ai_player self) moves b NegInf alpha beta
      else
        moves <- get_available_moves b ;;
        min_loop (fun b' a' b'' => minimax frames' self b' (depth + 1) true a' b'')
                 (human_player self) moves b PosInf alpha beta
  end.

(** The [for] loop of [get_best_move]. *)
Fixpoint best_loop (frames : nat) (self : MinimaxAI) (moves : list (Z * Z))
         (b : board) (best_score : num) (best_move : option (Z * Z))
  : result (board * (num * option (Z * Z))) :=
  match moves with
  | [] => Ok (b, (best_score, best_move))
  | (row, col) :: rest =>
      b1 <- set_cell b row col (ai_player self) ;;
      '(b2, score) <- minimax frames self b1 0 false NegInf PosInf ;;
      b3 <- set_cell b2 row col " " ;;
      if num_ltb best_score score
      then best_loop frames self rest b3 score (Some (row, col))
      else best_loop frames self rest b3 best_score best_move
  end.

Definition get_best_move (frames : nat) (self : MinimaxAI) (b : board)
  : result (board * option (Z * Z)) :=
  moves <- get_available_moves b ;;
  '(b', (_, best_move)) <- best_loop frames self moves b NegInf None ;;
  Ok (b', best_move).

(** ** The console game loop, with a second agent in the human's seat

    [GameController.play_game] alternates [get_human_move] and
    [get_best_move], applies each move with [make_move] and stops as soon
    as [is_game_over] reports the end. [self_play] is that loop with the
    human's input replaced by a second agent's [get_best_move]; [rounds]
    bounds the number of moves played. Unpacking a [None] move raises
    [TypeError]. *)

Fixpoint self_play (rounds frames : nat) (mover waiting : MinimaxAI) (b : board)
  : result (board * (bool * option string)) :=
  match rounds with
  | O => Ok (b, (false, None))
  | S rounds' =>
      '(b1, move) <- get_best_move frames mover b ;;
      match move with
      | None => Raise TypeError
      | Some (row, col) =>
          '(b2, _) <- make_move b1 row col (ai_player mover) ;;
          over <- is_game_over b2 ;;
          if fst over then Ok (b2, over)
          else self_play rounds' frames waiting mover b2
      end
  end.

(** ** Reference search: the same search without bounds and cutoffs

    [minimax_plain] and [get_best_move_plain] are [minimax] and
    [get_best_move] with [alpha], [beta] and the two [break]s removed:
    every candidate of every node is explored. They are the yardstick
    against which pruning is compared, not part of the program. *)

Section PlainLoops.

Variable recurse : board -> result (board * num).
Variable mark : string.

Fixpoint plain_max_loop (moves : list (Z * Z)) (b : board) (max_eval : num)
  : result (board * num) :=
  match moves with
  | [] => Ok (b, max_eval)
  | (row, col) :: rest =>
      b1 <- set_cell b row col mark ;;
      '(b2, eval_score) <- recurse b1 ;;
      b3 <- set_cell b2 row col " " ;;
      plain_max_loop rest b3 (py_max max_eval eval_score)
  end.

Fixpoint plain_min_loop (moves : list (Z * Z)) (b : board) (min_eval : num)
  : result (board * num) :=
  match moves with
  | [] => Ok (b, min_eval)
  | (row, col) :: rest =>
      b1 <- set_cell b row col mark ;;
      '(b2, eval_score) <- recurse b1 ;;
      b3 <- set_cell b2 row col " " ;;
      plain_min_loop rest b3 (py_min min_eval eval_score)
  end.

End PlainLoops.

Fixpoint minimax_plain (frames : nat) (self : MinimaxAI) (b : board) (depth : Z)
         (is_maximizing : bool) : result (board * num) :=
  match frames with
  | O => Raise RecursionError
  | S frames' =>
      '(is_over, _) <- is_game_over b ;;
      if is_over then
        score <- evaluate_board self b ;;
        if 0 <? score then Ok (b, Fin (score - depth))
        else if score <? 0 then Ok (b, Fin (score + depth))
        else Ok (b, Fin 0)
      else if is_maximizing then
        moves <- get_available_moves b ;;
        plain_max_loop (fun b' => minimax_plain frames' self b' (depth + 1) false)
                       (ai_player self) moves b NegInf
      else
        moves <- get_available_moves b ;;
        plain_min_loop (fun b' => minimax_plain frames' self b' (depth + 1) true)
                       (human_player self) moves b PosInf
  end.

Fixpoint best_loop_plain (frames : nat) (self : MinimaxAI) (moves : list (Z * Z))
         (b : board) (best_score : num) (best_move : option (Z * Z))
  : result (board * (num * option (Z * Z))) :=
  match moves with
  | [] => Ok (b, (best_score, best_move))
  | (row, col) :: rest =>
      b1 <- set_cell b row col (ai_player self) ;;
      '(b2, score) <- minimax_plain frames self b1 0 false ;;
      b3 <- set_cell b2 row col " " ;;
      if num_ltb best_score score
      then best_loop_plain frames self rest b3 score (Some (row, col))
      else best_loop_plain frames self rest b3 best_score best_move
  end.

Definition get_best_move_plain (frames : nat) (self : MinimaxAI) (b : board)
  : result (board * option (Z * Z)) :=
  moves <- get_available_moves b ;;
  '(b', (_, best_move)) <- best_loop_plain frames self moves b NegInf None ;;
  Ok (b', best_move).

(** ** Vocabulary of the statements *)

(** A board has the shape the constructor gives it: three rows of three
    cells. No modelled operation changes the shape. *)
Definition wf_board (b : board) : bool :=
  (List.length b =? 3)%nat && forallb (fun r => (List.length r =? 3)%nat) b.

(** The nine coordinates in row-major order. *)
Definition coords : list (Z * Z) :=
  [(0, 0); (0, 1); (0, 2); (1, 0); (1, 1); (1, 2); (2, 0); (2, 1); (2, 2)].

Definition is_blank (b : board) (rc : Z * Z) : bool :=
  match get_cell b (fst rc) (snd rc) with
  | Ok c => String.eqb c " "
  | Raise _ => false
  end.

(** The empty cells, in row-major order. *)
Definition empty_cells (b : board) : list (Z * Z) := filter (is_blank b) coords.

(** Number of cells that hold a mark. *)
Definition occupied (b : board) : nat :=
  List.length (filter (fun c => negb (String.eqb c " ")) (List.concat b)).

(** The eight lines, in the order [check_winner] visits them: rows,
    columns, main diagonal, anti-diagonal. *)
Definition lines : list ((Z * Z) * (Z * Z) * (Z * Z)) :=
  [((0, 0), (0, 1), (0, 2)); ((1, 0), (1, 1), (1, 2)); ((2, 0), (2, 1), (2, 2));
   ((0, 0), (1, 0), (2, 0)); ((0, 1), (1, 1), (2, 1)); ((0, 2), (1, 2), (2, 2));
   ((0, 0), (1, 1), (2, 2)); ((0, 2), (1, 1), (2, 0))].

Definition holds (b : board) (m : string) (rc : Z * Z) : bool :=
  match get_cell b (fst rc) (snd rc) with
  | Ok c => String.eqb c m
  | Raise _ => false
  end.

(** [m] occupies all three cells of some line. *)
Definition has_line (b : board) (m : string) : bool :=
  existsb (fun l => match l with
                    | (p, q, r) => holds b m p && holds b m q && holds b m r
                    end) lines.

(** The content of a cell, for coordinates known to be in range. *)
Definition cell_or (b : board) (rc : Z * Z) : string :=
  match get_cell b (fst rc) (snd rc) with
  | Ok c => c
  | Raise _ => ""
  end.

(** The test [check_winner] applies to three cells. *)
Definition same3 (x y z : string) : bool :=
  String.eqb x y && String.eqb y z && negb (String.eqb z " ").

Definition line_wins (b : board) (l : (Z * Z) * (Z * Z) * (Z * Z)) : bool :=
  match l with
  | (p, q, r) => same3 (cell_or b p) (cell_or b q) (cell_or b r)
  end.

(** The mark of the first complete line in [check_winner]'s order. *)
Definition first_line (b : board) : option string :=
  match find (line_wins b) lines with
  | Some (p, _, _) => Some (cell_or b p)
  | None => None
  end.

(** Every cell is empty or carries one of the two players' marks. *)
Definition marks_of (self : MinimaxAI) (b : board) : bool :=
  forallb (forallb (fun c => String.eqb c " " || String.eqb c (ai_player self)
                             || String.eqb c (human_player self))) b.

(** A terminal board: one of the two sides has a line, or no cell is
    empty. *)
Definition terminal (self : MinimaxAI) (b : board) : bool :=
  has_line b (ai_player self) || has_line b (human_player self)
  || is_board_full b.

(** Apply a root candidate for the maximizing side, score the position at
    [depth] for the minimizing side to move with fresh bounds, undo the
    candidate. *)
Definition candidate_score (frames : nat) (self : MinimaxAI) (b : board)
           (depth : Z) (rc : Z * Z) : result (board * num) :=
  b1 <- set_cell b (fst rc) (snd rc) (ai_player self) ;;
  '(b2, score) <- minimax frames self b1 depth false NegInf PosInf ;;
  b3 <- set_cell b2 (fst rc) (snd rc) " " ;;
  Ok (b3, score).

(** The value [minimax] gives a finished game at [depth]. *)
Definition leaf_value (self : MinimaxAI) (b : board) (depth : Z) : Z :=
  let score := if winner_is (first_line b) (ai_player self) then 10
               else if winner_is (first_line b) (human_player self) then -10
               else 0 in
  if 0 <? score then score - depth
  else if score <? 0 then score + depth
  else 0.

(** What a search with bounds [alpha < beta] promises about its result
    [y], given the result [x] of the search without cutoffs: inside the
    window it is exact; at or below [alpha] it is an upper bound of [x];
    at or above [beta] it is a lower bound of [x]. *)
Definition bounded (alpha beta y x : num) : Prop :=
  (num_leb y alpha = true -> num_leb x y = true) /\
  (num_leb beta y = true -> num_leb y x = true) /\
  (num_ltb alpha y = true -> num_ltb y beta = true -> x = y).

(** Loop invariant of the maximizing branch: [alpha0] is the bound the
    node was entered with, [alpha] the current one, [max_eval] the running
    maximum of the pruned search and [m] that of the search without
    cutoffs. *)
Definition inv_max (alpha0 beta max_eval alpha m : num) : Prop :=
  alpha = py_max alpha0 max_eval /\
  num_ltb alpha beta = true /\
  num_leb m max_eval = true /\
  (num_ltb alpha0 max_eval = true -> m = max_eval).

(** Loop invariant of the minimizing branch. *)
Definition inv_min (alpha beta0 min_eval beta m : num) : Prop :=
  beta = py_min beta0 min_eval /\
  num_ltb alpha beta = true /\
  num_leb min_eval m = true /\
  (num_ltb min_eval beta0 = true -> m = min_eval).

(** A recursive call and its counterpart without cutoffs agree on a
    position: both return, both leave the board as it was, and the pruned
    value is [bounded] by the plain one whenever [alpha < beta]. *)
Definition child_ok (recurse : board -> num -> num -> result (board * num))
           (recurse_plain : board -> result (board * num)) (b : board) : Prop :=
  exists x, recurse_plain b = Ok (b, Fin x) /\
    forall alpha beta, exists y,
      recurse b alpha beta = Ok (b, Fin y) /\
      (num_ltb alpha beta = true -> bounded alpha beta (Fin y) (Fin x)).

(** An order embedding of [num] into [Z], faithful on every number that
    lies [within] the bound [B]: it turns comparisons of bounds into
    linear arithmetic. *)
Definition emb (B : Z) (a : num) : Z :=
  match a with
  | NegInf => - B
  | Fin z => z
  | PosInf => B
  end.

Definition within (B : Z) (a : num) : Prop :=
  match a with
  | Fin z => - B < z < B
  | _ => 0 < B
  end.

(** What [get_best_move] holds after visiting the candidates [visited]:
    nothing yet, or the first candidate whose score, taken at depth 0, is
    the greatest so far. *)
Definition kept (frames : nat) (self : MinimaxAI) (b : board)
           (visited : list (Z * Z)) (best_score : num)
           (best_move : option (Z * Z)) : Prop :=
  (visited = [] /\ best_score = NegInf /\ best_move = None) \/
  (exists pre mv post s,
      visited = pre ++ mv :: post /\
      best_score = Fin s /\ best_move = Some mv /\
      candidate_score frames self b 0 mv = Ok (b, Fin s) /\
      (forall m', In m' pre ->
         exists s', candidate_score frames self b 0 m' = Ok (b, Fin s') /\
                    s' < s) /\
      (forall m', In m' post ->
         exists s', candidate_score frames self b 0 m' = Ok (b, Fin s') /\
                    s' <= s)).

(** The players as [TicTacToeGame.__init__] names them. *)
Definition O_vs_X : MinimaxAI := mkMinimaxAI "O" "X".
Definition X_vs_O : MinimaxAI := mkMinimaxAI "X" "O".

(** ** GameController: the console game

    A console line is represented by what [int(input(...))] makes of it:
    [Some z] for a line that reads as the integer [z], [None] for a line
    on which [int] raises [ValueError]. Reading past the last line is
    [EndOfInput] (Python's [EOFError]). *)

Inductive console (A : Type) : Type :=
| Done (a : A)
| EndOfInput
| Unfinished
| Failed (e : exn).

Arguments Done {A} a.
Arguments EndOfInput {A}.
Arguments Unfinished {A}.
Arguments Failed {A} e.

(** [get_human_move]: prompt until a row line and a column line both read
    as integers and name a valid move. A line that is no integer sends
    the loop back to the row prompt. Returns the move and the lines not
    yet read. *)
Fixpoint get_human_move (b : board) (lines_in : list (option Z))
  : console ((Z * Z) * list (option Z)) :=
  match lines_in with
  | [] => EndOfInput
  | None :: rest => get_human_move b rest
  | Some row :: rest =>
      match rest with
      | [] => EndOfInput
      | None :: rest' => get_human_move b rest'
      | Some col :: rest' =>
          match is_valid_move b row col with
          | Raise e => Failed e
          | Ok true => Done ((row, col), rest')
          | Ok false => get_human_move b rest'
          end
      end
  end.

(** Lines that [get_human_move] reads and rejects: attempts whose row
    line is no integer, whose column line is no integer, or that name a
    pair [is_valid_move] refuses. *)
Inductive rejected (b : board) : list (option Z) -> Prop :=
| rejected_nil : rejected b []
| rejected_row (l : list (option Z)) :
    rejected b l -> rejected b (None :: l)
| rejected_col (row : Z) (l : list (option Z)) :
    rejected b l -> rejected b (Some row :: None :: l)
| rejected_move (row col : Z) (l : list (option Z)) :
    is_valid_move b row col = Ok false ->
    rejected b l -> rejected b (Some row :: Some col :: l).

(** The message [play_game] prints when the game is over. *)
Inductive verdict : Type :=
| ItsADraw
| HumanWins
| AIWins.

(** [if result == 'Draw': ... elif result == self.game.human_player: ...
    else: ...] *)
Definition announce (self : MinimaxAI) (res : option string) : verdict :=
  if winner_is res "Draw" then ItsADraw
  else if winner_is res (human_player self) then HumanWins
  else AIWins.

(** The end of an iteration of [play_game]'s loop: [is_game_over], then
    the verdict and [break], or the next iteration [continue_with]. *)
Definition after_move {A : Type} (self : MinimaxAI) (b : board)
           (finish : verdict -> console A) (continue_with : console A)
  : console A :=
  match is_game_over b with
  | Raise e => Failed e
  | Ok (true, res) => finish (announce self res)
  | Ok (false, _) => continue_with
  end.

(** The AI's turn: [row, col = self.ai.get_best_move(self.game)] and
    [self.game.make_move(row, col, self.game.ai_player)]. *)
Definition ai_turn (frames : nat) (self : MinimaxAI) (b : board) : result board :=
  '(b1, move) <- get_best_move frames self b ;;
  match move with
  | None => Raise TypeError
  | Some (row, col) =>
      '(b2, _) <- make_move b1 row col (ai_player self) ;;
      Ok b2
  end.

(** The [while True] loop of [play_game], up to its [break]: [turns]
    bounds the number of iterations, [current] is
    [self.game.current_player]. The outcome is the final board, the
    verdict announced and the lines left unread. *)
Fixpoint game_loop (turns frames : nat) (self : MinimaxAI) (current : string)
         (b : board) (lines_in : list (option Z))
  : console (board * verdict * list (option Z)) :=
  match turns with
  | O => Unfinished
  | S turns' =>
      if String.eqb current (human_player self) then
        match get_human_move b lines_in with
        | Done ((row, col), rest) =>
            match make_move b row col (human_player self) with
            | Raise e => Failed e
            | Ok (b1, _) =>
                after_move self b1 (fun v => Done (b1, v, rest))
                  (game_loop turns' frames self (ai_player self) b1 rest)
            end
        | EndOfInput => EndOfInput
        | Unfinished => Unfinished
        | Failed e => Failed e
        end
      else
        match ai_turn frames self b with
        | Raise e => Failed e
        | Ok b1 =>
            after_move self b1 (fun v => Done (b1, v, lines_in))
              (game_loop turns' frames self (human_player self) b1 lines_in)
        end
  end.

(** A decision procedure: [safe n ...] explores, [n] iterations deep, every
    move the human can make and the AI's answer to it, and accepts when
    every line of play ends, without failure, on a verdict other than
    [HumanWins]. *)
Fixpoint safe (n frames : nat) (self : MinimaxAI) (current : string)
         (b : board) : bool :=
  match n with
  | O => false
  | S n' =>
      if String.eqb current (human_player self) then
        forallb
          (fun rc =>
             match is_valid_move b (fst rc) (snd rc) with
             | Raise _ => false
             | Ok false => true
             | Ok true =>
                 match make_move b (fst rc) (snd rc) (human_player self) with
                 | Raise _ => false
                 | Ok (b1, _) =>
                     match is_game_over b1 with
                     | Raise _ => false
                     | Ok (true, res) =>
                         match announce self res with
                         | HumanWins => false
                         | _ => true
                         end
                     | Ok (false, _) => safe n' frames self (ai_player self) b1
                     end
                 end
             end)
          coords
      else
        match ai_turn frames self b with
        | Raise _ => false
        | Ok b1 =>
            match is_game_over b1 with
            | Raise _ => false
            | Ok (true, res) =>
                match announce self res with
                | HumanWins => false
                | _ => true
                end
            | Ok (false, _) => safe n' frames self (human_player self) b1
            end
        end
  end.

(** What a value becomes when the same position is searched one level
    deeper: every terminal value moves one step towards 0. *)
Definition deeper (v : Z) : Z :=
  if 0 <? v then v - 1 else if v <? 0 then v + 1 else 0.

Definition deeper_num (a : num) : num :=
  match a with
  | NegInf => NegInf
  | Fin v => Fin (deeper v)
  | PosInf => PosInf
  end.

(** The values a search started at depth 0 on at most eight empty cells
    can take: never 1 or -1. *)
Definition sparse (v : Z) : Prop := v = 0 \/ 2 <= v \/ v <= -2.

(** Writing [mark] at [rc] would complete a line of [mark]. *)
Definition wins_at (b : board) (mark : string) (rc : Z * Z) : bool :=
  match set_cell b (fst rc) (snd rc) mark with
  | Ok b1 => has_line b1 mark
  | Raise _ => false
  end.

(** Boards of the test suite, and one with a line for each side. *)
Definition board_win_in_one : board :=
  [["O"; "O"; " "]; ["X"; " "; " "]; ["X"; " "; " "]].

Definition board_block : board :=
  [["X"; "X"; " "]; [" "; " "; " "]; [" "; " "; " "]].

Definition board_two_lines : board :=
  [["X"; "X"; "X"]; ["O"; "O"; "O"]; [" "; " "; " "]].

(** The board of [test_evaluation_function] on which O has won. *)
Definition board_won : board :=
  [["O"; "O"; "O"]; ["X"; "X"; " "]; [" "; " "; " "]].

Definition board_drawn : board :=
  [["X"; "O"; "X"]; ["O"; "X"; "O"]; ["O"; "X"; "O"]].

(** * Properties *)

(** ** Shape of a board *)

Lemma wf_board_shape (b : board) :
  wf_board b = true ->
  exists a0 a1 a2 b0 b1 b2 c0 c1 c2 : string,
    b = [[a0; a1; a2]; [b0; b1; b2]; [c0; c1; c2]].
Proof.
  unfold wf_board. intros H.
  apply andb_true_iff in H. destruct H as [Hlen Hrows].
  destruct b as [|r0 [|r1 [|r2 [|r3 b]]]]; simpl in Hlen; try discriminate.
  simpl in Hrows.
  repeat (apply andb_true_iff in Hrows; destruct Hrows as [? Hrows]).
  destruct r0 as [|a0 [|a1 [|a2 [|? ?]]]]; try discriminate.
  destruct r1 as [|b0 [|b1 [|b2 [|? ?]]]]; try discriminate.
  destruct r2 as [|c0 [|c1 [|c2 [|? ?]]]]; try discriminate.
  now exists a0, a1, a2, b0, b1, b2, c0, c1, c2.
Qed.

Ltac shape b H :=
  let a0 := fresh "a0" in let a1 := fresh "a1" in let a2 := fresh "a2" in
  let b0 := fresh "b0" in let b1 := fresh "b1" in let b2 := fresh "b2" in
  let c0 := fresh "c0" in let c1 := fresh "c1" in let c2 := fresh "c2" in
  let E := fresh "E" in
  destruct (wf_board_shape b H)
    as (a0 & a1 & a2 & b0 & b1 & b2 & c0 & c1 & c2 & E);
  subst b.

Lemma in_coords (r c : Z) :
  In (r, c) coords <-> 0 <= r <= 2 /\ 0 <= c <= 2.
Proof.
  unfold coords. simpl. split.
  - intros H. repeat (destruct H as [H | H]; [inversion H; lia|]). contradiction.
  - intros [Hr Hc].
    assert (r = 0 \/ r = 1 \/ r = 2) as [-> | [-> | ->]] by lia;
    assert (c = 0 \/ c = 1 \/ c = 2) as [-> | [-> | ->]] by lia; tauto.
Qed.

(** Case analysis on an in-range coordinate pair. *)
Ltac coord_cases H :=
  unfold coords in H; simpl in H;
  repeat (destruct H as [H | H]; [inversion H; subst; clear H|]);
  [..|contradiction].

(** ** [is_valid_move] *)

Lemma is_valid_move_out_of_range (b : board) (row col : Z) :
  row < 0 \/ 2 < row \/ col < 0 \/ 2 < col ->
  is_valid_move b row col = Ok false.
Proof.
  intros H. unfold is_valid_move.
  destruct (0 <=? row) eqn:E1; [|reflexivity].
  destruct (row <? 3) eqn:E2; [|reflexivity].
  destruct (0 <=? col) eqn:E3; [|reflexivity].
  destruct (col <? 3) eqn:E4; [|reflexivity].
  apply Z.leb_le in E1, E3. apply Z.ltb_lt in E2, E4. lia.
Qed.

Lemma is_valid_move_in_range (b : board) (row col : Z) :
  In (row, col) coords ->
  is_valid_move b row col = (c <- get_cell b row col ;; Ok (String.eqb c " ")).
Proof.
  intros H. coord_cases H; reflexivity.
Qed.

Lemma get_cell_total (b : board) (row col : Z) :
  wf_board b = true -> In (row, col) coords ->
  exists c, get_cell b row col = Ok c.
Proof.
  intros Hwf H. shape b Hwf. coord_cases H; eexists; reflexivity.
Qed.

Lemma is_valid_move_wf (b : board) (row col : Z) :
  wf_board b = true ->
  exists v, is_valid_move b row col = Ok v /\
    (v = true <->
     0 <= row <= 2 /\ 0 <= col <= 2 /\ get_cell b row col = Ok " ").
Proof.
  intros Hwf.
  destruct (Z_le_gt_dec 0 row) as [Hr0|Hr0];
    [destruct (Z_le_gt_dec row 2) as [Hr2|Hr2];
     [destruct (Z_le_gt_dec 0 col) as [Hc0|Hc0];
      [destruct (Z_le_gt_dec col 2) as [Hc2|Hc2]|]|]|].
  - assert (Hin : In (row, col) coords) by (apply in_coords; lia).
    rewrite (is_valid_move_in_range b row col Hin).
    destruct (get_cell_total b row col Hwf Hin) as [c Hc]. rewrite Hc. simpl.
    exists (String.eqb c " "). split; [reflexivity|].
    split.
    + intros E. apply String.eqb_eq in E. subst c. repeat split; lia.
    + intros (_ & _ & E). inversion E. reflexivity.
  - exists false. split; [apply is_valid_move_out_of_range; lia|].
    split; [discriminate|lia].
  - exists false. split; [apply is_valid_move_out_of_range; lia|].
    split; [discriminate|lia].
  - exists false. split; [apply is_valid_move_out_of_range; lia|].
    split; [discriminate|lia].
  - exists false. split; [apply is_valid_move_out_of_range; lia|].
    split; [discriminate|lia].
Qed.

(** C8: [is_valid_move] answers true exactly for an in-range empty cell,
    and answers false without raising for every out-of-range pair, on
    whatever board, since the bounds tests come before the indexing. *)
Theorem is_valid_move_spec (b : board) (row col : Z) :
  (row < 0 \/ 2 < row \/ col < 0 \/ 2 < col ->
   is_valid_move b row col = Ok false) /\
  (wf_board b = true ->
   exists v, is_valid_move b row col = Ok v /\
     (v = true <->
      0 <= row <= 2 /\ 0 <= col <= 2 /\ get_cell b row col = Ok " ")).
Proof.
  split; [apply is_valid_move_out_of_range | apply is_valid_move_wf].
Qed.

Lemma is_valid_move_spec_witness :
  exists v, is_valid_move initial_board 1 1 = Ok v /\
    (v = true <->
     0 <= 1 <= 2 /\ 0 <= 1 <= 2 /\ get_cell initial_board 1 1 = Ok " ").
Proof.
  apply (proj2 (is_valid_move_spec initial_board 1 1)). reflexivity.
Defined.

(** ** Reading and writing cells *)

Lemma set_cell_coords (b : board) (r c : Z) (v : string) :
  wf_board b = true -> In (r, c) coords ->
  exists b', set_cell b r c v = Ok b' /\ wf_board b' = true /\
    get_cell b' r c = Ok v /\
    forall r' c', In (r', c') coords -> (r', c') <> (r, c) ->
                  get_cell b' r' c' = get_cell b r' c'.
Proof.
  intros Hwf H. shape b Hwf.
  coord_cases H;
    (eexists; split; [reflexivity|]; split; [reflexivity|];
     split; [reflexivity|];
     intros r' c' H' Hne; coord_cases H'; solve [reflexivity | congruence]).
Qed.

Lemma set_cell_undo (b b1 : board) (r c : Z) (v : string) :
  wf_board b = true -> In (r, c) coords ->
  get_cell b r c = Ok " " ->
  set_cell b r c v = Ok b1 ->
  set_cell b1 r c " " = Ok b.
Proof.
  intros Hwf H Hget Hset. shape b Hwf.
  coord_cases H; cbn in Hget; inversion Hget; subst;
    cbn in Hset; inversion Hset; subst; reflexivity.
Qed.

Lemma is_blank_get (b : board) (r c : Z) :
  is_blank b (r, c) = true <-> get_cell b r c = Ok " ".
Proof.
  unfold is_blank. simpl. destruct (get_cell b r c) as [s|e].
  - split.
    + intros E. apply String.eqb_eq in E. now subst.
    + intros E. inversion E. reflexivity.
  - split; discriminate.
Qed.

Lemma in_empty_cells (b : board) (r c : Z) :
  In (r, c) (empty_cells b) <-> In (r, c) coords /\ get_cell b r c = Ok " ".
Proof.
  unfold empty_cells. rewrite filter_In, is_blank_get. reflexivity.
Qed.

Lemma NoDup_coords : NoDup coords.
Proof.
  unfold coords.
  repeat (constructor; [simpl; intros H;
                        repeat (destruct H as [H | H]; [discriminate H|]);
                        exact H|]).
  constructor.
Qed.

Lemma filter_length_flip {A : Type} (f g : A -> bool) (x : A) (l : list A) :
  NoDup l -> In x l -> f x = true -> g x = false ->
  (forall y, In y l -> y <> x -> g y = f y) ->
  List.length (filter f l) = S (List.length (filter g l)).
Proof.
  intros Hnd. induction Hnd as [|a l Hnotin Hnd IH]; intros Hin Hf Hg Hfr.
  - contradiction.
  - simpl. destruct Hin as [-> | Hin].
    + rewrite Hf, Hg. simpl. f_equal.
      f_equal. apply filter_ext_in. intros y Hy. symmetry.
      apply Hfr; [now right|]. intros ->. contradiction.
    + assert (a <> x) by (intros ->; contradiction).
      rewrite (Hfr a (or_introl eq_refl)) by assumption.
      destruct (f a); simpl; rewrite IH; auto;
        intros y Hy; apply Hfr; now right.
Qed.

(** Writing a mark into an empty cell removes one empty cell. *)
Lemma empty_cells_set (b b1 : board) (r c : Z) (v : string) :
  wf_board b = true -> In (r, c) (empty_cells b) -> v <> " " ->
  set_cell b r c v = Ok b1 ->
  List.length (empty_cells b) = S (List.length (empty_cells b1)).
Proof.
  intros Hwf Hin Hv Hset.
  apply in_empty_cells in Hin. destruct Hin as [Hc Hget].
  destruct (set_cell_coords b r c v Hwf Hc) as (b' & Hset' & _ & Hnew & Hfr).
  rewrite Hset in Hset'. inversion Hset'. subst b'.
  unfold empty_cells. apply (filter_length_flip _ _ (r, c)).
  - apply NoDup_coords.
  - assumption.
  - now apply is_blank_get.
  - unfold is_blank. simpl. rewrite Hnew. now apply String.eqb_neq.
  - intros [r' c'] Hy Hne. unfold is_blank. simpl. now rewrite Hfr.
Qed.

(** ** [make_move] *)

(** C7: a valid move writes the mark and answers true; an invalid one
    leaves the board as it is and answers false; nothing is raised. *)
Theorem make_move_spec (b : board) (row col : Z) (player : string) :
  wf_board b = true ->
  (is_valid_move b row col = Ok true ->
   exists b', make_move b row col player = Ok (b', true) /\
     wf_board b' = true /\
     get_cell b' row col = Ok player /\
     forall r c, In (r, c) coords -> (r, c) <> (row, col) ->
                 get_cell b' r c = get_cell b r c) /\
  (is_valid_move b row col = Ok false ->
   make_move b row col player = Ok (b, false)) /\
  (exists b' ok, make_move b row col player = Ok (b', ok)).
Proof.
  intros Hwf.
  destruct (is_valid_move_wf b row col Hwf) as (v & Hv & Hiff).
  assert (Hvalid : v = true ->
            exists b', make_move b row col player = Ok (b', true) /\
              wf_board b' = true /\ get_cell b' row col = Ok player /\
              forall r c, In (r, c) coords -> (r, c) <> (row, col) ->
                          get_cell b' r c = get_cell b r c).
  { intros ->. destruct (proj1 Hiff eq_refl) as (Hr & Hc & _).
    assert (Hin : In (row, col) coords) by (apply in_coords; lia).
    destruct (set_cell_coords b row col player Hwf Hin)
      as (b' & Hset & Hwf' & Hnew & Hfr).
    exists b'. unfold make_move. rewrite Hv. simpl. rewrite Hset. simpl.
    auto. }
  split; [|split].
  - intros E. rewrite E in Hv. inversion Hv. subst v. now apply Hvalid.
  - intros E. unfold make_move. rewrite E. reflexivity.
  - destruct v.
    + destruct (Hvalid eq_refl) as (b' & E & _). now exists b', true.
    + exists b, false. unfold make_move. rewrite Hv. reflexivity.
Qed.

Lemma make_move_spec_witness :
  exists b' ok, make_move initial_board 0 0 "X" = Ok (b', ok).
Proof.
  apply (make_move_spec initial_board 0 0 "X"). reflexivity.
Defined.

(** ** [get_available_moves] *)

(** Replace every read of a cell of an explicit board at explicit
    coordinates by the cell. *)
Ltac eval_cells :=
  repeat match goal with
         | |- context [get_cell ?b ?r ?c] =>
             let v := eval cbv in (get_cell b r c) in
             change (get_cell b r c) with v
         end.

Lemma get_available_moves_empty_cells (b : board) :
  wf_board b = true -> get_available_moves b = Ok (empty_cells b).
Proof.
  intros Hwf. shape b Hwf.
  unfold get_available_moves, scan_rows, scan_row, empty_cells, coords, is_blank.
  cbn [filter fst snd]. eval_cells. cbn [bind app].
  destruct (String.eqb a0 " "), (String.eqb a1 " "), (String.eqb a2 " "),
           (String.eqb b0 " "), (String.eqb b1 " "), (String.eqb b2 " "),
           (String.eqb c0 " "), (String.eqb c1 " "), (String.eqb c2 " ");
    reflexivity.
Qed.

Lemma filter_map_length {A B : Type} (f : B -> bool) (g : A -> B) (l : list A) :
  List.length (filter f (map g l))
  = List.length (filter (fun x => f (g x)) l).
Proof.
  induction l as [|a l IH]; simpl; [reflexivity|].
  destruct (f (g a)); simpl; now rewrite IH.
Qed.

Lemma empty_cells_occupied (b : board) :
  wf_board b = true ->
  (List.length (empty_cells b) + occupied b = 9)%nat.
Proof.
  intros Hwf. unfold occupied, empty_cells.
  set (cellv := fun rc : Z * Z =>
                  match get_cell b (fst rc) (snd rc) with
                  | Ok c => c
                  | Raise _ => ""
                  end).
  assert (Hcells : List.concat b = map cellv coords).
  { subst cellv. shape b Hwf. reflexivity. }
  rewrite Hcells, filter_map_length.
  rewrite (filter_ext (fun x => negb (String.eqb (cellv x) " "))
                      (fun x => negb (is_blank b x))).
  - apply (filter_length (is_blank b) coords).
  - intros rc. subst cellv. unfold is_blank. simpl.
    now destruct (get_cell b (fst rc) (snd rc)).
Qed.

(** C9: [get_available_moves] returns the empty cells, each once, in
    row-major order, and there are nine minus the occupied cells of
    them. *)
Theorem get_available_moves_spec (b : board) :
  wf_board b = true ->
  exists moves,
    get_available_moves b = Ok moves /\
    moves = filter (is_blank b) coords /\
    (forall r c, In (r, c) moves <->
                 (0 <= r <= 2 /\ 0 <= c <= 2) /\ get_cell b r c = Ok " ") /\
    List.length moves = (9 - occupied b)%nat.
Proof.
  intros Hwf. exists (empty_cells b).
  split; [now apply get_available_moves_empty_cells|].
  split; [reflexivity|]. split.
  - intros r c. rewrite in_empty_cells, in_coords. reflexivity.
  - pose proof (empty_cells_occupied b Hwf). lia.
Qed.

Lemma get_available_moves_spec_witness :
  exists moves,
    get_available_moves [["X"; " "; " "]; [" "; "O"; " "]; [" "; " "; " "]]
      = Ok moves /\
    moves = filter (is_blank [["X"; " "; " "]; [" "; "O"; " "]; [" "; " "; " "]])
                   coords /\
    (forall r c, In (r, c) moves <->
       (0 <= r <= 2 /\ 0 <= c <= 2) /\
       get_cell [["X"; " "; " "]; [" "; "O"; " "]; [" "; " "; " "]] r c
         = Ok " ") /\
    List.length moves
      = (9 - occupied [["X"; " "; " "]; [" "; "O"; " "]; [" "; " "; " "]])%nat.
Proof.
  apply (get_available_moves_spec
           [["X"; " "; " "]; [" "; "O"; " "]; [" "; " "; " "]]).
  reflexivity.
Defined.

(** ** [check_winner], [is_game_over], [evaluate_board] *)

Lemma chain3_ok (x y z : string) : chain3 x y (Ok z) = Ok (same3 x y z).
Proof.
  unfold chain3, same3. now destruct (String.eqb x y).
Qed.

Ltac eval_rows :=
  repeat match goal with
         | |- context [@py_index string ?l ?i] =>
             let v := eval cbv in (@py_index string l i) in
             change (@py_index string l i) with v
         end.

Lemma check_winner_first_line (b : board) :
  wf_board b = true -> check_winner b = Ok (first_line b).
Proof.
  intros Hwf. shape b Hwf.
  unfold check_winner, check_diag, first_line, lines, line_wins, cell_or.
  cbn [check_rows check_cols find fst snd]. eval_cells. eval_rows. cbn [bind].
  rewrite !chain3_ok. cbn [bind].
  destruct (same3 a0 a1 a2); [reflexivity|].
  destruct (same3 b0 b1 b2); [reflexivity|].
  destruct (same3 c0 c1 c2); [reflexivity|].
  cbn [bind].
  destruct (same3 a0 b0 c0); [reflexivity|].
  destruct (same3 a1 b1 c1); [reflexivity|].
  destruct (same3 a2 b2 c2); [reflexivity|].
  cbn [bind].
  destruct (same3 a0 b1 c2); [reflexivity|].
  cbn [bind].
  destruct (same3 a2 b1 c0); reflexivity.
Qed.

Lemma is_game_over_wf (b : board) :
  wf_board b = true ->
  is_game_over b
  = Ok (if truthy (first_line b) then (true, first_line b)
        else if is_board_full b then (true, Some "Draw")
        else (false, None)).
Proof.
  intros Hwf. unfold is_game_over.
  rewrite (check_winner_first_line b Hwf). cbn [bind].
  destruct (truthy (first_line b)); [reflexivity|].
  now destruct (is_board_full b).
Qed.

Lemma evaluate_board_wf (self : MinimaxAI) (b : board) :
  wf_board b = true ->
  evaluate_board self b
  = Ok (if winner_is (first_line b) (ai_player self) then 10
        else if winner_is (first_line b) (human_player self) then -10
        else 0).
Proof.
  intros Hwf. unfold evaluate_board.
  rewrite (check_winner_first_line b Hwf). cbn [bind].
  destruct (winner_is (first_line b) (ai_player self)); [reflexivity|].
  now destruct (winner_is (first_line b) (human_player self)).
Qed.

Lemma line_points (p q r : Z * Z) :
  In (p, q, r) lines -> In p coords /\ In q coords /\ In r coords.
Proof.
  unfold lines. simpl.
  intros H.
  repeat (destruct H as [H | H];
          [inversion H; subst; repeat split; simpl; tauto|]).
  contradiction.
Qed.

Lemma holds_cell_or (b : board) (m : string) (rc : Z * Z) :
  wf_board b = true -> In rc coords ->
  holds b m rc = String.eqb (cell_or b rc) m.
Proof.
  intros Hwf Hin. destruct rc as [r c].
  destruct (get_cell_total b r c Hwf Hin) as [x Hx].
  unfold holds, cell_or. simpl. now rewrite Hx.
Qed.

Lemma same3_true (x y z : string) :
  same3 x y z = true <-> x = y /\ y = z /\ z <> " ".
Proof.
  unfold same3. rewrite !andb_true_iff, negb_true_iff, !String.eqb_eq.
  rewrite String.eqb_neq. tauto.
Qed.

Lemma first_line_some (b : board) (w : string) :
  wf_board b = true -> first_line b = Some w ->
  w <> " " /\ has_line b w = true.
Proof.
  intros Hwf. unfold first_line.
  destruct (find (line_wins b) lines) as [[[p q] r]|] eqn:E; [|discriminate].
  intros Hw. inversion Hw. subst w. clear Hw.
  apply find_some in E. destruct E as [Hin Hl].
  destruct (line_points p q r Hin) as (Hp & Hq & Hr).
  unfold line_wins in Hl. apply same3_true in Hl.
  destruct Hl as (E1 & E2 & E3). split; [congruence|].
  unfold has_line. apply existsb_exists. exists (p, q, r).
  split; [assumption|].
  rewrite !holds_cell_or by assumption.
  rewrite <- E2, <- E1, !String.eqb_refl. reflexivity.
Qed.

Lemma first_line_none (b : board) (m : string) :
  wf_board b = true -> first_line b = None -> m <> " " ->
  has_line b m = false.
Proof.
  intros Hwf. unfold first_line.
  destruct (find (line_wins b) lines) as [[[p q] r]|] eqn:E; [discriminate|].
  intros _ Hm.
  destruct (has_line b m) eqn:Hl; [|reflexivity].
  unfold has_line in Hl. apply existsb_exists in Hl.
  destruct Hl as ([[p q] r] & Hin & Hh).
  pose proof (find_none _ _ E _ Hin) as Hno.
  destruct (line_points p q r Hin) as (Hp & Hq & Hr).
  rewrite !holds_cell_or in Hh by assumption.
  rewrite !andb_true_iff, !String.eqb_eq in Hh.
  destruct Hh as ((E1 & E2) & E3).
  assert (line_wins b (p, q, r) = true).
  { unfold line_wins. apply same3_true. repeat split; congruence. }
  congruence.
Qed.

Lemma forallb_concat {A : Type} (f : A -> bool) (l : list (list A)) :
  forallb (forallb f) l = forallb f (List.concat l).
Proof.
  induction l as [|x l IH]; simpl; [reflexivity|].
  now rewrite forallb_app, IH.
Qed.

Lemma cell_or_in_concat (b : board) (rc : Z * Z) :
  wf_board b = true -> In rc coords -> In (cell_or b rc) (List.concat b).
Proof.
  intros Hwf Hin. shape b Hwf. destruct rc as [r c].
  coord_cases Hin; unfold cell_or; cbn; auto 12.
Qed.

Lemma marks_of_cell (self : MinimaxAI) (b : board) (rc : Z * Z) :
  wf_board b = true -> marks_of self b = true -> In rc coords ->
  cell_or b rc = " " \/ cell_or b rc = ai_player self
  \/ cell_or b rc = human_player self.
Proof.
  intros Hwf Hm Hin. unfold marks_of in Hm.
  rewrite forallb_concat in Hm.
  pose proof (proj1 (forallb_forall _ _) Hm _ (cell_or_in_concat b rc Hwf Hin))
    as H.
  cbv beta in H. rewrite !orb_true_iff, !String.eqb_eq in H. tauto.
Qed.

Lemma has_line_mark (self : MinimaxAI) (b : board) (w : string) :
  wf_board b = true -> marks_of self b = true -> has_line b w = true ->
  w = " " \/ w = ai_player self \/ w = human_player self.
Proof.
  intros Hwf Hm Hl.
  unfold has_line in Hl. apply existsb_exists in Hl.
  destruct Hl as ([[p q] r] & Hin & Hh).
  destruct (line_points p q r Hin) as (Hp & _ & _).
  rewrite !holds_cell_or in Hh by (apply (line_points p q r Hin) || assumption).
  rewrite !andb_true_iff, !String.eqb_eq in Hh.
  destruct Hh as ((E1 & _) & _).
  rewrite <- E1. now apply marks_of_cell.
Qed.

Lemma not_full_has_empty (b : board) :
  wf_board b = true -> is_board_full b = false -> empty_cells b <> [].
Proof.
  intros Hwf. shape b Hwf.
  unfold is_board_full, empty_cells, coords, is_blank.
  cbn [forallb filter fst snd]. eval_cells.
  destruct (String.eqb a0 " "); [discriminate|].
  destruct (String.eqb a1 " "); [discriminate|].
  destruct (String.eqb a2 " "); [discriminate|].
  destruct (String.eqb b0 " "); [discriminate|].
  destruct (String.eqb b1 " "); [discriminate|].
  destruct (String.eqb b2 " "); [discriminate|].
  destruct (String.eqb c0 " "); [discriminate|].
  destruct (String.eqb c1 " "); [discriminate|].
  destruct (String.eqb c2 " "); [discriminate|].
  discriminate.
Qed.

Lemma full_no_empty (b : board) :
  wf_board b = true -> is_board_full b = true -> empty_cells b = [].
Proof.
  intros Hwf. shape b Hwf.
  unfold is_board_full, empty_cells, coords, is_blank.
  cbn [forallb filter fst snd]. eval_cells.
  rewrite !andb_true_iff, !negb_true_iff.
  intros ((H0 & H1 & H2 & _) & (H3 & H4 & H5 & _) & (H6 & H7 & H8 & _) & _).
  now rewrite H0, H1, H2, H3, H4, H5, H6, H7, H8.
Qed.

(** ** Arithmetic of the bounds *)

Lemma within_mono (B B' : Z) (a : num) : B <= B' -> within B a -> within B' a.
Proof. destruct a; simpl; lia. Qed.

Lemma exists_bound (l : list num) : exists B, Forall (within B) l.
Proof.
  induction l as [|a l [B HB]].
  - exists 1. constructor.
  - exists (Z.abs B + Z.abs (emb 0 a) + 1). constructor.
    + destruct a; simpl; lia.
    + eapply Forall_impl; [|exact HB]. intros x. apply within_mono. lia.
Qed.

Lemma emb_ltb (B : Z) (a b : num) :
  within B a -> within B b -> (num_ltb a b = true <-> emb B a < emb B b).
Proof. destruct a, b; simpl; rewrite ?Z.ltb_lt; intros; split; intros; try lia; try discriminate; auto. Qed.

Lemma emb_leb (B : Z) (a b : num) :
  within B a -> within B b -> (num_leb a b = true <-> emb B a <= emb B b).
Proof. destruct a, b; simpl; rewrite ?Z.leb_le; intros; split; intros; try lia; try discriminate; auto. Qed.

Lemma emb_eq (B : Z) (a b : num) :
  within B a -> within B b -> (a = b <-> emb B a = emb B b).
Proof. destruct a, b; simpl; intros; split; intros H1; try lia; try discriminate; try congruence; auto. Qed.

Lemma emb_range (B : Z) (a : num) : within B a -> - B <= emb B a <= B.
Proof. destruct a; simpl; lia. Qed.

Lemma within_max (B : Z) (a b : num) :
  within B a -> within B b -> within B (py_max a b).
Proof. unfold py_max. now destruct (num_ltb a b). Qed.

Lemma within_min (B : Z) (a b : num) :
  within B a -> within B b -> within B (py_min a b).
Proof. unfold py_min. now destruct (num_ltb b a). Qed.

Lemma emb_max (B : Z) (a b : num) :
  within B a -> within B b -> emb B (py_max a b) = Z.max (emb B a) (emb B b).
Proof.
  intros Ha Hb. unfold py_max. destruct (num_ltb a b) eqn:E.
  - apply (emb_ltb B a b Ha Hb) in E. lia.
  - apply not_true_iff_false in E. rewrite (emb_ltb B a b Ha Hb) in E. lia.
Qed.

Lemma emb_min (B : Z) (a b : num) :
  within B a -> within B b -> emb B (py_min a b) = Z.min (emb B a) (emb B b).
Proof.
  intros Ha Hb. unfold py_min. destruct (num_ltb b a) eqn:E.
  - apply (emb_ltb B b a Hb Ha) in E. lia.
  - apply not_true_iff_false in E. rewrite (emb_ltb B b a Hb Ha) in E. lia.
Qed.

Ltac within_solve :=
  repeat first [assumption | apply within_max | apply within_min].

Ltac split_forall H :=
  repeat match type of H with
         | Forall _ (_ :: _) =>
             let H1 := fresh "W" in
             let H2 := fresh "F" in
             pose proof (Forall_inv H) as H1;
             pose proof (Forall_inv_tail H) as H2;
             clear H; rename H2 into H
         end;
  clear H.

Ltac emb_hyp B H :=
  repeat match type of H with
         | context [num_ltb ?a ?b = true] =>
             rewrite (emb_ltb B a b) in H by within_solve
         | context [num_leb ?a ?b = true] =>
             rewrite (emb_leb B a b) in H by within_solve
         | context [@eq num ?a ?b] =>
             rewrite (emb_eq B a b) in H by within_solve
         | context [emb B (py_max ?a ?b)] =>
             rewrite (emb_max B a b) in H by within_solve
         | context [emb B (py_min ?a ?b)] =>
             rewrite (emb_min B a b) in H by within_solve
         end.

Ltac emb_goal B :=
  repeat match goal with
         | |- context [num_ltb ?a ?b = true] =>
             rewrite (emb_ltb B a b) by within_solve
         | |- context [num_leb ?a ?b = true] =>
             rewrite (emb_leb B a b) by within_solve
         | |- context [@eq num ?a ?b] =>
             rewrite (emb_eq B a b) by within_solve
         | |- context [emb B (py_max ?a ?b)] =>
             rewrite (emb_max B a b) by within_solve
         | |- context [emb B (py_min ?a ?b)] =>
             rewrite (emb_min B a b) by within_solve
         end.

Ltac num_lia l :=
  unfold bounded, inv_max, inv_min in *;
  rewrite <- ?not_true_iff_false in *;
  let B := fresh "B" in
  let HB := fresh "HB" in
  destruct (exists_bound l) as [B HB];
  split_forall HB;
  repeat match goal with
         | H : ?T |- _ =>
             lazymatch T with
             | within _ _ => fail
             | _ => progress (emb_hyp B H)
             end
         end;
  emb_goal B;
  repeat match goal with
         | W : within B ?a |- _ =>
             pose proof (emb_range B a W); clear W
         end;
  cbn [emb] in *;
  lia.

Lemma inv_max_init (alpha beta : num) :
  num_ltb alpha beta = true -> inv_max alpha beta NegInf alpha NegInf.
Proof. intros. num_lia [alpha; beta; NegInf]. Qed.

Lemma inv_max_final (alpha0 beta max_eval alpha m : num) :
  inv_max alpha0 beta max_eval alpha m -> bounded alpha0 beta max_eval m.
Proof. intros. num_lia [alpha0; beta; max_eval; alpha; m]. Qed.

Lemma inv_max_continue (alpha0 beta max_eval alpha m : num) (y x : Z) :
  inv_max alpha0 beta max_eval alpha m ->
  bounded alpha beta (Fin y) (Fin x) ->
  num_leb beta (py_max alpha (Fin y)) = false ->
  inv_max alpha0 beta (py_max max_eval (Fin y)) (py_max alpha (Fin y))
          (py_max m (Fin x)).
Proof. intros. num_lia [alpha0; beta; max_eval; alpha; m; Fin y; Fin x]. Qed.

Lemma inv_max_break (alpha0 beta max_eval alpha m final : num) (y x : Z) :
  inv_max alpha0 beta max_eval alpha m ->
  bounded alpha beta (Fin y) (Fin x) ->
  num_leb beta (py_max alpha (Fin y)) = true ->
  num_leb (py_max m (Fin x)) final = true ->
  bounded alpha0 beta (py_max max_eval (Fin y)) final.
Proof. intros. num_lia [alpha0; beta; max_eval; alpha; m; final; Fin y; Fin x]. Qed.

Lemma inv_min_init (alpha beta : num) :
  num_ltb alpha beta = true -> inv_min alpha beta PosInf beta PosInf.
Proof. intros. num_lia [alpha; beta; PosInf]. Qed.

Lemma inv_min_final (alpha beta0 min_eval beta m : num) :
  inv_min alpha beta0 min_eval beta m -> bounded alpha beta0 min_eval m.
Proof. intros. num_lia [alpha; beta0; min_eval; beta; m]. Qed.

Lemma inv_min_continue (alpha beta0 min_eval beta m : num) (y x : Z) :
  inv_min alpha beta0 min_eval beta m ->
  bounded alpha beta (Fin y) (Fin x) ->
  num_leb (py_min beta (Fin y)) alpha = false ->
  inv_min alpha beta0 (py_min min_eval (Fin y)) (py_min beta (Fin y))
          (py_min m (Fin x)).
Proof. intros. num_lia [alpha; beta0; min_eval; beta; m; Fin y; Fin x]. Qed.

Lemma inv_min_break (alpha beta0 min_eval beta m final : num) (y x : Z) :
  inv_min alpha beta0 min_eval beta m ->
  bounded alpha beta (Fin y) (Fin x) ->
  num_leb (py_min beta (Fin y)) alpha = true ->
  num_leb final (py_min m (Fin x)) = true ->
  bounded alpha beta0 (py_min min_eval (Fin y)) final.
Proof. intros. num_lia [alpha; beta0; min_eval; beta; m; final; Fin y; Fin x]. Qed.

(** With the whole line as window, the pruned value is the plain one. *)
Lemma bounded_full_window (y x : Z) :
  bounded NegInf PosInf (Fin y) (Fin x) -> x = y.
Proof.
  intros (_ & _ & H). specialize (H eq_refl eq_refl). now inversion H.
Qed.

Lemma py_max_fin (a : num) (y : Z) :
  a <> PosInf -> exists z, py_max a (Fin y) = Fin z.
Proof.
  intros H. destruct a as [|z|]; unfold py_max; simpl.
  - now exists y.
  - destruct (z <? y); eauto.
  - contradiction.
Qed.

Lemma py_min_fin (a : num) (y : Z) :
  a <> NegInf -> exists z, py_min a (Fin y) = Fin z.
Proof.
  intros H. destruct a as [|z|]; unfold py_min; simpl.
  - contradiction.
  - destruct (y <? z); eauto.
  - now exists y.
Qed.

Lemma py_max_ge (a b c : num) :
  num_leb (py_max a b) c = true -> num_leb a c = true.
Proof. intros. num_lia [a; b; c]. Qed.

Lemma py_min_le (a b c : num) :
  num_leb c (py_min a b) = true -> num_leb c a = true.
Proof. intros. num_lia [a; b; c]. Qed.

Lemma num_leb_refl (a : num) : num_leb a a = true.
Proof. destruct a; simpl; auto using Z.leb_refl. Qed.

(** ** One step of the search *)

Lemma minimax_step (frames : nat) (self : MinimaxAI) (b : board) (depth : Z)
      (is_maximizing : bool) (alpha beta : num) :
  wf_board b = true ->
  minimax (S frames) self b depth is_maximizing alpha beta
  = if truthy (first_line b) || is_board_full b
    then Ok (b, Fin (leaf_value self b depth))
    else if is_maximizing
    then max_loop (fun b' a' b'' => minimax frames self b' (depth + 1) false a' b'')
                  (ai_player self) (empty_cells b) b NegInf alpha beta
    else min_loop (fun b' a' b'' => minimax frames self b' (depth + 1) true a' b'')
                  (human_player self) (empty_cells b) b PosInf alpha beta.
Proof.
  intros Hwf. cbn [minimax].
  rewrite (is_game_over_wf b Hwf), (evaluate_board_wf self b Hwf),
          (get_available_moves_empty_cells b Hwf).
  unfold leaf_value.
  destruct (truthy (first_line b)); cbn [bind orb].
  - destruct (winner_is (first_line b) (ai_player self)); [reflexivity|].
    destruct (winner_is (first_line b) (human_player self)); reflexivity.
  - destruct (is_board_full b); cbn [bind].
    + destruct (winner_is (first_line b) (ai_player self)); [reflexivity|].
      destruct (winner_is (first_line b) (human_player self)); reflexivity.
    + reflexivity.
Qed.

Lemma minimax_plain_step (frames : nat) (self : MinimaxAI) (b : board)
      (depth : Z) (is_maximizing : bool) :
  wf_board b = true ->
  minimax_plain (S frames) self b depth is_maximizing
  = if truthy (first_line b) || is_board_full b
    then Ok (b, Fin (leaf_value self b depth))
    else if is_maximizing
    then plain_max_loop (fun b' => minimax_plain frames self b' (depth + 1) false)
                        (ai_player self) (empty_cells b) b NegInf
    else plain_min_loop (fun b' => minimax_plain frames self b' (depth + 1) true)
                        (human_player self) (empty_cells b) b PosInf.
Proof.
  intros Hwf. cbn [minimax_plain].
  rewrite (is_game_over_wf b Hwf), (evaluate_board_wf self b Hwf),
          (get_available_moves_empty_cells b Hwf).
  unfold leaf_value.
  destruct (truthy (first_line b)); cbn [bind orb].
  - destruct (winner_is (first_line b) (ai_player self)); [reflexivity|].
    destruct (winner_is (first_line b) (human_player self)); reflexivity.
  - destruct (is_board_full b); cbn [bind].
    + destruct (winner_is (first_line b) (ai_player self)); [reflexivity|].
      destruct (winner_is (first_line b) (human_player self)); reflexivity.
    + reflexivity.
Qed.

(** Trying a candidate: the write succeeds, the written board has the
    right shape, and writing the blank back restores the board. *)
Lemma try_candidate (b : board) (r c : Z) (mark : string) :
  wf_board b = true -> In (r, c) (empty_cells b) ->
  exists b1, set_cell b r c mark = Ok b1 /\ wf_board b1 = true /\
             set_cell b1 r c " " = Ok b.
Proof.
  intros Hwf Hin. apply in_empty_cells in Hin. destruct Hin as [Hc Hget].
  destruct (set_cell_coords b r c mark Hwf Hc) as (b1 & Hset & Hwf1 & _).
  exists b1. repeat split; try assumption.
  now apply (set_cell_undo b b1 r c mark).
Qed.

(** ** The loops against their counterparts without cutoffs *)

Section LoopSoundness.

Variable recurse : board -> num -> num -> result (board * num).
Variable recurse_plain : board -> result (board * num).
Variable mark : string.
Variable b : board.
Hypothesis Hwf : wf_board b = true.

Lemma max_loop_sound (moves : list (Z * Z)) :
  (forall r c, In (r, c) moves -> In (r, c) (empty_cells b)) ->
  (forall r c b1, In (r, c) moves -> set_cell b r c mark = Ok b1 ->
                  child_ok recurse recurse_plain b1) ->
  forall max_eval alpha beta m,
    max_eval <> PosInf -> m <> PosInf ->
    exists ME M,
      max_loop recurse mark moves b max_eval alpha beta = Ok (b, ME) /\
      plain_max_loop recurse_plain mark moves b m = Ok (b, M) /\
      ME <> PosInf /\ M <> PosInf /\
      (moves <> [] \/ max_eval <> NegInf -> ME <> NegInf) /\
      (moves <> [] \/ m <> NegInf -> M <> NegInf) /\
      num_leb m M = true /\
      forall alpha0, inv_max alpha0 beta max_eval alpha m ->
                     bounded alpha0 beta ME M.
Proof.
  induction moves as [|[r c] rest IH]; intros Hin Hch max_eval alpha beta m Hme Hm.
  - exists max_eval, m. cbn [max_loop plain_max_loop].
    split; [reflexivity|]. split; [reflexivity|].
    split; [assumption|]. split; [assumption|].
    split; [intros [H | H]; [now contradiction H | assumption]|].
    split; [intros [H | H]; [now contradiction H | assumption]|].
    split; [apply num_leb_refl|].
    intros alpha0. apply inv_max_final.
  - destruct (try_candidate b r c mark Hwf (Hin r c (or_introl eq_refl)))
      as (b1 & Hset & Hwf1 & Hundo).
    destruct (Hch r c b1 (or_introl eq_refl) Hset) as (x & Hplain & Hab).
    destruct (Hab alpha beta) as (y & Hy & Hbound).
    destruct (py_max_fin max_eval y Hme) as (z & Hz).
    destruct (py_max_fin m x Hm) as (z' & Hz').
    destruct (IH (fun r' c' H => Hin r' c' (or_intror H))
                 (fun r' c' b' H => Hch r' c' b' (or_intror H))
                 (py_max max_eval (Fin y)) (py_max alpha (Fin y)) beta
                 (py_max m (Fin x)))
      as (ME & M & HME & HM & Hf1 & Hf2 & Hn1 & Hn2 & Hle & Hinv).
    { rewrite Hz. discriminate. }
    { rewrite Hz'. discriminate. }
    cbn [max_loop plain_max_loop].
    rewrite Hset. cbn [bind]. rewrite Hy, Hplain. cbn [bind].
    rewrite Hundo. cbn [bind]. rewrite HM.
    assert (HnM : M <> NegInf).
    { apply Hn2. right. rewrite Hz'. discriminate. }
    destruct (num_leb beta (py_max alpha (Fin y))) eqn:Hbrk.
    + exists (py_max max_eval (Fin y)), M.
      split; [reflexivity|]. split; [reflexivity|].
      split; [rewrite Hz; discriminate|]. split; [assumption|].
      split; [intros _; rewrite Hz; discriminate|].
      split; [intros _; assumption|].
      split; [now apply (py_max_ge m (Fin x))|].
      intros alpha0 Hi.
      apply (inv_max_break alpha0 beta max_eval alpha m M y x); auto.
      apply Hbound. apply Hi.
    + exists ME, M.
      split; [assumption|]. split; [reflexivity|].
      split; [assumption|]. split; [assumption|].
      split; [intros _; apply Hn1; right; rewrite Hz; discriminate|].
      split; [intros _; assumption|].
      split; [now apply (py_max_ge m (Fin x))|].
      intros alpha0 Hi. apply Hinv.
      apply inv_max_continue; auto. apply Hbound. apply Hi.
Qed.

Lemma min_loop_sound (moves : list (Z * Z)) :
  (forall r c, In (r, c) moves -> In (r, c) (empty_cells b)) ->
  (forall r c b1, In (r, c) moves -> set_cell b r c mark = Ok b1 ->
                  child_ok recurse recurse_plain b1) ->
  forall min_eval alpha beta m,
    min_eval <> NegInf -> m <> NegInf ->
    exists ME M,
      min_loop recurse mark moves b min_eval alpha beta = Ok (b, ME) /\
      plain_min_loop recurse_plain mark moves b m = Ok (b, M) /\
      ME <> NegInf /\ M <> NegInf /\
      (moves <> [] \/ min_eval <> PosInf -> ME <> PosInf) /\
      (moves <> [] \/ m <> PosInf -> M <> PosInf) /\
      num_leb M m = true /\
      forall beta0, inv_min alpha beta0 min_eval beta m ->
                    bounded alpha beta0 ME M.
Proof.
  induction moves as [|[r c] rest IH]; intros Hin Hch min_eval alpha beta m Hme Hm.
  - exists min_eval, m. cbn [min_loop plain_min_loop].
    split; [reflexivity|]. split; [reflexivity|].
    split; [assumption|]. split; [assumption|].
    split; [intros [H | H]; [now contradiction H | assumption]|].
    split; [intros [H | H]; [now contradiction H | assumption]|].
    split; [apply num_leb_refl|].
    intros beta0. apply inv_min_final.
  - destruct (try_candidate b r c mark Hwf (Hin r c (or_introl eq_refl)))
      as (b1 & Hset & Hwf1 & Hundo).
    destruct (Hch r c b1 (or_introl eq_refl) Hset) as (x & Hplain & Hab).
    destruct (Hab alpha beta) as (y & Hy & Hbound).
    destruct (py_min_fin min_eval y Hme) as (z & Hz).
    destruct (py_min_fin m x Hm) as (z' & Hz').
    destruct (IH (fun r' c' H => Hin r' c' (or_intror H))
                 (fun r' c' b' H => Hch r' c' b' (or_intror H))
                 (py_min min_eval (Fin y)) alpha (py_min beta (Fin y))
                 (py_min m (Fin x)))
      as (ME & M & HME & HM & Hf1 & Hf2 & Hn1 & Hn2 & Hle & Hinv).
    { rewrite Hz. discriminate. }
    { rewrite Hz'. discriminate. }
    cbn [min_loop plain_min_loop].
    rewrite Hset. cbn [bind]. rewrite Hy, Hplain. cbn [bind].
    rewrite Hundo. cbn [bind]. rewrite HM.
    assert (HnM : M <> PosInf).
    { apply Hn2. right. rewrite Hz'. discriminate. }
    destruct (num_leb (py_min beta (Fin y)) alpha) eqn:Hbrk.
    + exists (py_min min_eval (Fin y)), M.
      split; [reflexivity|]. split; [reflexivity|].
      split; [rewrite Hz; discriminate|]. split; [assumption|].
      split; [intros _; rewrite Hz; discriminate|].
      split; [intros _; assumption|].
      split; [now apply (py_min_le m (Fin x))|].
      intros beta0 Hi.
      apply (inv_min_break alpha beta0 min_eval beta m M y x); auto.
      apply Hbound. apply Hi.
    + exists ME, M.
      split; [assumption|]. split; [reflexivity|].
      split; [assumption|]. split; [assumption|].
      split; [intros _; apply Hn1; right; rewrite Hz; discriminate|].
      split; [intros _; assumption|].
      split; [now apply (py_min_le m (Fin x))|].
      intros beta0 Hi. apply Hinv.
      apply inv_min_continue; auto. apply Hbound. apply Hi.
Qed.

End LoopSoundness.

(** ** The search against the search without cutoffs *)

Lemma bounded_refl (alpha beta v : num) : bounded alpha beta v v.
Proof.
  unfold bounded. split; [|split]; intros; auto using num_leb_refl.
Qed.

Lemma not_inf_fin (a : num) : a <> PosInf -> a <> NegInf -> exists z, a = Fin z.
Proof. destruct a; intros; try contradiction; eauto. Qed.

Lemma minimax_sound (self : MinimaxAI) :
  ai_player self <> " " -> human_player self <> " " ->
  forall frames b,
    wf_board b = true ->
    (List.length (empty_cells b) < frames)%nat ->
    forall depth is_maximizing,
      child_ok
        (fun b' a' b'' => minimax frames self b' depth is_maximizing a' b'')
        (fun b' => minimax_plain frames self b' depth is_maximizing) b.
Proof.
  intros Hai Hhu. induction frames as [|frames IH]; intros b Hwf Hlen d m.
  - inversion Hlen.
  - assert (Hchild : forall mark is_max, mark <> " " ->
              forall r c b1,
                In (r, c) (empty_cells b) -> set_cell b r c mark = Ok b1 ->
                child_ok
                  (fun b' a' b'' => minimax frames self b' (d + 1) is_max a' b'')
                  (fun b' => minimax_plain frames self b' (d + 1) is_max) b1).
    { intros mark is_max Hmark r c b1 Hin Hset.
      destruct (try_candidate b r c mark Hwf Hin) as (b1' & Hset' & Hwf1 & _).
      rewrite Hset in Hset'. inversion Hset'. subst b1'.
      apply IH; [assumption|].
      pose proof (empty_cells_set b b1 r c mark Hwf Hin Hmark Hset). lia. }
    unfold child_ok. rewrite (minimax_plain_step _ _ _ _ _ Hwf).
    destruct (truthy (first_line b) || is_board_full b) eqn:Hterm.
    + exists (leaf_value self b d). split; [reflexivity|].
      intros alpha beta. exists (leaf_value self b d).
      rewrite (minimax_step _ _ _ _ _ _ _ Hwf), Hterm.
      split; [reflexivity|]. intros _. apply bounded_refl.
    + pose proof Hterm as Hterm'.
      apply orb_false_iff in Hterm'. destruct Hterm' as [_ Hfull].
      pose proof (not_full_has_empty b Hwf Hfull) as Hne.
      destruct m.
      * pose proof (max_loop_sound
                      (fun b' a' b'' => minimax frames self b' (d + 1) false a' b'')
                      (fun b' => minimax_plain frames self b' (d + 1) false)
                      (ai_player self) b Hwf (empty_cells b)
                      (fun r c H => H)
                      (Hchild (ai_player self) false Hai)) as L.
        destruct (L NegInf NegInf PosInf NegInf)
          as (ME0 & M & _ & HM & _ & HMp & _ & HMn & _); try discriminate.
        destruct (not_inf_fin M HMp (HMn (or_introl Hne))) as (x & ->).
        exists x. split; [assumption|].
        intros alpha beta.
        destruct (L NegInf alpha beta NegInf)
          as (ME & M' & HME & HM' & HMEp & _ & HMEn & _ & _ & Hinv);
          try discriminate.
        rewrite HM in HM'. inversion HM'. subst M'.
        destruct (not_inf_fin ME HMEp (HMEn (or_introl Hne))) as (y & ->).
        exists y. rewrite (minimax_step _ _ _ _ _ _ _ Hwf), Hterm.
        split; [assumption|]. intros Hlt. apply Hinv.
        now apply inv_max_init.
      * pose proof (min_loop_sound
                      (fun b' a' b'' => minimax frames self b' (d + 1) true a' b'')
                      (fun b' => minimax_plain frames self b' (d + 1) true)
                      (human_player self) b Hwf (empty_cells b)
                      (fun r c H => H)
                      (Hchild (human_player self) true Hhu)) as L.
        destruct (L PosInf NegInf PosInf PosInf)
          as (ME0 & M & _ & HM & _ & HMp & _ & HMn & _); try discriminate.
        destruct (not_inf_fin M (HMn (or_introl Hne)) HMp) as (x & ->).
        exists x. split; [assumption|].
        intros alpha beta.
        destruct (L PosInf alpha beta PosInf)
          as (ME & M' & HME & HM' & HMEp & _ & HMEn & _ & _ & Hinv);
          try discriminate.
        rewrite HM in HM'. inversion HM'. subst M'.
        destruct (not_inf_fin ME (HMEn (or_introl Hne)) HMEp) as (y & ->).
        exists y. rewrite (minimax_step _ _ _ _ _ _ _ Hwf), Hterm.
        split; [assumption|]. intros Hlt. apply Hinv.
        now apply inv_min_init.
Qed.

(** ** The board after a search *)

Section LoopRestores.

Variable recurse : board -> num -> num -> result (board * num).
Variable mark : string.
Variable b : board.
Hypothesis Hwf : wf_board b = true.
Hypothesis Hrec :
  forall b1 alpha beta b2 v,
    wf_board b1 = true -> recurse b1 alpha beta = Ok (b2, v) -> b2 = b1.

Lemma max_loop_restores (moves : list (Z * Z)) :
  (forall r c, In (r, c) moves -> In (r, c) (empty_cells b)) ->
  forall max_eval alpha beta b' v,
    max_loop recurse mark moves b max_eval alpha beta = Ok (b', v) -> b' = b.
Proof.
  induction moves as [|[r c] rest IH]; intros Hin max_eval alpha beta b' v H.
  - cbn [max_loop] in H. now inversion H.
  - destruct (try_candidate b r c mark Hwf (Hin r c (or_introl eq_refl)))
      as (b1 & Hset & Hwf1 & Hundo).
    cbn [max_loop] in H. rewrite Hset in H. cbn [bind] in H.
    destruct (recurse b1 alpha beta) as [[b2 y]|e] eqn:E;
      cbn [bind] in H; [|discriminate].
    rewrite (Hrec b1 alpha beta b2 y Hwf1 E) in H.
    rewrite Hundo in H. cbn [bind] in H.
    destruct (num_leb beta (py_max alpha y)).
    + now inversion H.
    + apply IH in H; [assumption|]. intros r' c' H'. apply Hin. now right.
Qed.

Lemma min_loop_restores (moves : list (Z * Z)) :
  (forall r c, In (r, c) moves -> In (r, c) (empty_cells b)) ->
  forall min_eval alpha beta b' v,
    min_loop recurse mark moves b min_eval alpha beta = Ok (b', v) -> b' = b.
Proof.
  induction moves as [|[r c] rest IH]; intros Hin min_eval alpha beta b' v H.
  - cbn [min_loop] in H. now inversion H.
  - destruct (try_candidate b r c mark Hwf (Hin r c (or_introl eq_refl)))
      as (b1 & Hset & Hwf1 & Hundo).
    cbn [min_loop] in H. rewrite Hset in H. cbn [bind] in H.
    destruct (recurse b1 alpha beta) as [[b2 y]|e] eqn:E;
      cbn [bind] in H; [|discriminate].
    rewrite (Hrec b1 alpha beta b2 y Hwf1 E) in H.
    rewrite Hundo in H. cbn [bind] in H.
    destruct (num_leb (py_min beta y) alpha).
    + now inversion H.
    + apply IH in H; [assumption|]. intros r' c' H'. apply Hin. now right.
Qed.

End LoopRestores.

Lemma minimax_restores (frames : nat) (self : MinimaxAI) :
  forall b depth is_maximizing alpha beta b' v,
    wf_board b = true ->
    minimax frames self b depth is_maximizing alpha beta = Ok (b', v) ->
    b' = b.
Proof.
  induction frames as [|frames IH]; intros b d m alpha beta b' v Hwf H.
  - discriminate H.
  - rewrite (minimax_step _ _ _ _ _ _ _ Hwf) in H.
    destruct (truthy (first_line b) || is_board_full b).
    + now inversion H.
    + destruct m.
      * apply (max_loop_restores _ _ b Hwf
                 (fun b1 a1 be1 b2 v2 Hwf1 => IH b1 _ _ a1 be1 b2 v2 Hwf1)
                 (empty_cells b) (fun r c Hin => Hin) _ _ _ _ _ H).
      * apply (min_loop_restores _ _ b Hwf
                 (fun b1 a1 be1 b2 v2 Hwf1 => IH b1 _ _ a1 be1 b2 v2 Hwf1)
                 (empty_cells b) (fun r c Hin => Hin) _ _ _ _ _ H).
Qed.

Lemma best_loop_restores (frames : nat) (self : MinimaxAI) (b : board) :
  wf_board b = true ->
  forall moves,
    (forall r c, In (r, c) moves -> In (r, c) (empty_cells b)) ->
    forall best_score best_move b' res,
      best_loop frames self moves b best_score best_move = Ok (b', res) ->
      b' = b.
Proof.
  intros Hwf. induction moves as [|[r c] rest IH];
    intros Hin best_score best_move b' res H.
  - cbn [best_loop] in H. now inversion H.
  - destruct (try_candidate b r c (ai_player self) Hwf
                            (Hin r c (or_introl eq_refl)))
      as (b1 & Hset & Hwf1 & Hundo).
    cbn [best_loop] in H. rewrite Hset in H. cbn [bind] in H.
    destruct (minimax frames self b1 0 false NegInf PosInf)
      as [[b2 y]|e] eqn:E; cbn [bind] in H; [|discriminate].
    rewrite (minimax_restores _ _ _ _ _ _ _ _ _ Hwf1 E) in H.
    rewrite Hundo in H. cbn [bind] in H.
    destruct (num_ltb best_score y);
      (apply IH in H; [assumption|]; intros r' c' H'; apply Hin; now right).
Qed.

Lemma get_best_move_restores (frames : nat) (self : MinimaxAI) (b : board) :
  wf_board b = true ->
  forall b' move, get_best_move frames self b = Ok (b', move) -> b' = b.
Proof.
  intros Hwf b' move H. unfold get_best_move in H.
  rewrite (get_available_moves_empty_cells b Hwf) in H. cbn [bind] in H.
  destruct (best_loop frames self (empty_cells b) b NegInf None)
    as [[b2 [s mv]]|e] eqn:E; cbn [bind] in H; [|discriminate].
  inversion H. subst.
  apply (best_loop_restores frames self b Hwf (empty_cells b)
                            (fun r c H => H) _ _ _ _ E).
Qed.

(** ** The root loop *)

(** Scoring one root candidate: with and without cutoffs the value is the
    same, and the board comes back. *)
Lemma root_candidate (frames : nat) (self : MinimaxAI) (b : board) (r c : Z) :
  ai_player self <> " " -> human_player self <> " " ->
  wf_board b = true ->
  (List.length (empty_cells b) <= frames)%nat ->
  In (r, c) (empty_cells b) ->
  exists b1 y,
    set_cell b r c (ai_player self) = Ok b1 /\
    minimax frames self b1 0 false NegInf PosInf = Ok (b1, Fin y) /\
    minimax_plain frames self b1 0 false = Ok (b1, Fin y) /\
    set_cell b1 r c " " = Ok b.
Proof.
  intros Hai Hhu Hwf Hlen Hin.
  destruct (try_candidate b r c (ai_player self) Hwf Hin)
    as (b1 & Hset & Hwf1 & Hundo).
  pose proof (empty_cells_set b b1 r c _ Hwf Hin Hai Hset) as Hcount.
  destruct (minimax_sound self Hai Hhu frames b1 Hwf1 ltac:(lia) 0 false)
    as (x & Hplain & Hab).
  destruct (Hab NegInf PosInf) as (y & Hy & Hb).
  pose proof (bounded_full_window y x (Hb eq_refl)) as ->.
  now exists b1, y.
Qed.

Lemma candidate_score_root (frames : nat) (self : MinimaxAI) (b : board)
      (r c : Z) :
  ai_player self <> " " -> human_player self <> " " ->
  wf_board b = true ->
  (List.length (empty_cells b) <= frames)%nat ->
  In (r, c) (empty_cells b) ->
  exists y, candidate_score frames self b 0 (r, c) = Ok (b, Fin y).
Proof.
  intros Hai Hhu Hwf Hlen Hin.
  destruct (root_candidate frames self b r c Hai Hhu Hwf Hlen Hin)
    as (b1 & y & Hset & Hy & _ & Hundo).
  exists y. unfold candidate_score. cbn [fst snd].
  rewrite Hset. cbn [bind]. rewrite Hy. cbn [bind]. rewrite Hundo.
  reflexivity.
Qed.

Lemma best_loop_agree (frames : nat) (self : MinimaxAI) (b : board) :
  ai_player self <> " " -> human_player self <> " " ->
  wf_board b = true ->
  (List.length (empty_cells b) <= frames)%nat ->
  forall moves,
    (forall r c, In (r, c) moves -> In (r, c) (empty_cells b)) ->
    forall best_score best_move,
    exists s mv,
      best_loop frames self moves b best_score best_move = Ok (b, (s, mv)) /\
      best_loop_plain frames self moves b best_score best_move
      = Ok (b, (s, mv)) /\
      (best_move <> None -> mv <> None) /\
      (moves <> [] -> best_score = NegInf -> mv <> None).
Proof.
  intros Hai Hhu Hwf Hlen.
  induction moves as [|[r c] rest IH]; intros Hin best_score best_move.
  - exists best_score, best_move. cbn [best_loop best_loop_plain].
    split; [reflexivity|]. split; [reflexivity|].
    split; [auto|]. intros H. now contradiction H.
  - destruct (root_candidate frames self b r c Hai Hhu Hwf Hlen
                             (Hin r c (or_introl eq_refl)))
      as (b1 & y & Hset & Hy & Hplain & Hundo).
    cbn [best_loop best_loop_plain].
    rewrite Hset. cbn [bind]. rewrite Hy, Hplain. cbn [bind].
    rewrite Hundo. cbn [bind].
    assert (Hin' : forall r' c', In (r', c') rest -> In (r', c') (empty_cells b))
      by (intros r' c' H'; apply Hin; now right).
    destruct (num_ltb best_score (Fin y)) eqn:Hlt.
    + destruct (IH Hin' (Fin y) (Some (r, c)))
        as (s & mv & H1 & H2 & H3 & _).
      exists s, mv. split; [assumption|]. split; [assumption|].
      assert (mv <> None) by (apply H3; discriminate). auto.
    + destruct (IH Hin' best_score best_move)
        as (s & mv & H1 & H2 & H3 & _).
      exists s, mv. split; [assumption|]. split; [assumption|].
      split; [assumption|].
      intros _ ->. discriminate Hlt.
Qed.

Lemma candidate_score_unfold (frames : nat) (self : MinimaxAI) (b b1 : board)
      (r c : Z) (y : Z) :
  set_cell b r c (ai_player self) = Ok b1 ->
  minimax frames self b1 0 false NegInf PosInf = Ok (b1, Fin y) ->
  set_cell b1 r c " " = Ok b ->
  candidate_score frames self b 0 (r, c) = Ok (b, Fin y).
Proof.
  intros Hset Hy Hundo. unfold candidate_score. cbn [fst snd].
  rewrite Hset. cbn [bind]. rewrite Hy. cbn [bind]. now rewrite Hundo.
Qed.

Lemma best_loop_first_max (frames : nat) (self : MinimaxAI) (b : board) :
  ai_player self <> " " -> human_player self <> " " ->
  wf_board b = true ->
  (List.length (empty_cells b) <= frames)%nat ->
  forall rest visited,
    (forall r c, In (r, c) rest -> In (r, c) (empty_cells b)) ->
    forall best_score best_move,
      kept frames self b visited best_score best_move ->
      exists s mv,
        best_loop frames self rest b best_score best_move = Ok (b, (s, mv)) /\
        kept frames self b (visited ++ rest) s mv.
Proof.
  intros Hai Hhu Hwf Hlen.
  induction rest as [|[r c] rest IH]; intros visited Hin best_score best_move Hk.
  - exists best_score, best_move. rewrite app_nil_r. now split.
  - destruct (root_candidate frames self b r c Hai Hhu Hwf Hlen
                             (Hin r c (or_introl eq_refl)))
      as (b1 & y & Hset & Hy & _ & Hundo).
    pose proof (candidate_score_unfold frames self b b1 r c y Hset Hy Hundo)
      as Hcs.
    cbn [best_loop]. rewrite Hset. cbn [bind]. rewrite Hy. cbn [bind].
    rewrite Hundo. cbn [bind].
    assert (Hin' : forall r' c', In (r', c') rest -> In (r', c') (empty_cells b))
      by (intros r' c' H'; apply Hin; now right).
    replace (visited ++ (r, c) :: rest) with ((visited ++ [(r, c)]) ++ rest)
      by (rewrite <- app_assoc; reflexivity).
    destruct (num_ltb best_score (Fin y)) eqn:Hlt.
    + apply IH; [assumption|].
      right. exists visited, (r, c), [], y.
      split; [reflexivity|]. split; [reflexivity|]. split; [reflexivity|].
      split; [assumption|]. split; [|intros m' []].
      intros m' Hm'.
      destruct Hk as [(-> & _ & _) | (pre & mv & post & s & -> & -> & _ & Hs & Hpre & Hpost)].
      * contradiction.
      * simpl in Hlt. apply Z.ltb_lt in Hlt.
        apply in_app_or in Hm'. destruct Hm' as [Hm' | [<- | Hm']].
        -- destruct (Hpre m' Hm') as (s' & E & Hs'). exists s'. split; [assumption|lia].
        -- exists s. split; [assumption|lia].
        -- destruct (Hpost m' Hm') as (s' & E & Hs'). exists s'. split; [assumption|lia].
    + apply IH; [assumption|].
      destruct Hk as [(_ & -> & _) | (pre & mv & post & s & -> & -> & -> & Hs & Hpre & Hpost)].
      * discriminate Hlt.
      * simpl in Hlt. apply Z.ltb_ge in Hlt.
        right. exists pre, mv, (post ++ [(r, c)]), s.
        split; [rewrite <- app_assoc; reflexivity|].
        split; [reflexivity|]. split; [reflexivity|].
        split; [assumption|]. split; [assumption|].
        intros m' Hm'. apply in_app_or in Hm'. destruct Hm' as [Hm' | [<- | []]].
        -- now apply Hpost.
        -- exists y. split; [assumption|lia].
Qed.

(** * The claims about the search *)

(** C1: once [minimax] or [get_best_move] returns, the board is the board
    it was called on, whatever the bounds and whoever is to move; and on a
    board with fewer empty cells than frames, with two non-blank marks,
    both do return. *)
Theorem search_restores_board (frames : nat) (self : MinimaxAI) (b : board)
        (depth : Z) (is_maximizing : bool) (alpha beta : num) :
  wf_board b = true ->
  (forall b' v,
      minimax frames self b depth is_maximizing alpha beta = Ok (b', v) ->
      b' = b) /\
  (forall b' move, get_best_move frames self b = Ok (b', move) -> b' = b) /\
  (ai_player self <> " " -> human_player self <> " " ->
   (List.length (empty_cells b) < frames)%nat ->
   (exists v, minimax frames self b depth is_maximizing alpha beta
              = Ok (b, Fin v)) /\
   (exists move, get_best_move frames self b = Ok (b, move))).
Proof.
  intros Hwf. split; [|split].
  - intros b' v. now apply minimax_restores.
  - now apply get_best_move_restores.
  - intros Hai Hhu Hlen. split.
    + destruct (minimax_sound self Hai Hhu frames b Hwf Hlen depth is_maximizing)
        as (x & _ & Hab).
      destruct (Hab alpha beta) as (y & Hy & _). now exists y.
    + destruct (best_loop_agree frames self b Hai Hhu Hwf ltac:(lia)
                  (empty_cells b) (fun r c H => H) NegInf None)
        as (s & mv & H & _).
      exists mv. unfold get_best_move.
      rewrite (get_available_moves_empty_cells b Hwf). cbn [bind].
      now rewrite H.
Qed.

Lemma search_restores_board_witness :
  (exists v, minimax 10 O_vs_X board_block 1 false NegInf PosInf
             = Ok (board_block, Fin v)) /\
  (exists move, get_best_move 10 O_vs_X board_block = Ok (board_block, move)).
Proof.
  apply (search_restores_board 10 O_vs_X board_block 1 false NegInf PosInf).
  - reflexivity.
  - discriminate.
  - discriminate.
  - vm_compute. lia.
Defined.

(** C3: on the empty board [get_best_move] for O returns the corner
    (0, 0), not the center: every opening scores 0 and the first candidate
    keeps a tie. *)
Theorem get_best_move_empty_board :
  get_best_move 10 O_vs_X initial_board = Ok (initial_board, Some (0, 0)) /\
  (forall rc, In rc coords ->
              candidate_score 10 O_vs_X initial_board 0 rc
              = Ok (initial_board, Fin 0)).
Proof.
  split.
  - vm_compute. reflexivity.
  - intros rc H. unfold coords in H. simpl in H.
    repeat (destruct H as [<- | H]; [vm_compute; reflexivity|]).
    contradiction.
Qed.

Lemma sole_line_first (self : MinimaxAI) (b : board) (w other : string) :
  wf_board b = true -> marks_of self b = true ->
  (w = ai_player self /\ other = human_player self \/
   w = human_player self /\ other = ai_player self) ->
  w <> " " ->
  has_line b w = true -> has_line b other = false ->
  first_line b = Some w.
Proof.
  intros Hwf Hm Hwo Hw Hl Ho.
  destruct (first_line b) as [x|] eqn:E.
  - destruct (first_line_some b x Hwf E) as [Hx Hlx].
    destruct (has_line_mark self b x Hwf Hm Hlx) as [-> | [-> | ->]];
      [contradiction| |];
      destruct Hwo as [[-> ->] | [-> ->]]; congruence.
  - rewrite (first_line_none b w Hwf E Hw) in Hl. discriminate.
Qed.

Lemma no_line_first (self : MinimaxAI) (b : board) :
  wf_board b = true -> marks_of self b = true ->
  has_line b (ai_player self) = false ->
  has_line b (human_player self) = false ->
  first_line b = None.
Proof.
  intros Hwf Hm Ha Hh.
  destruct (first_line b) as [x|] eqn:E; [|reflexivity].
  destruct (first_line_some b x Hwf E) as [Hx Hlx].
  destruct (has_line_mark self b x Hwf Hm Hlx) as [-> | [-> | ->]];
    [contradiction|congruence|congruence].
Qed.

Lemma terminal_flag (b : board) (r : option string) :
  wf_board b = true -> is_game_over b = Ok (true, r) ->
  truthy (first_line b) || is_board_full b = true.
Proof.
  intros Hwf H. rewrite (is_game_over_wf b Hwf) in H.
  destruct (truthy (first_line b)); [reflexivity|].
  destruct (is_board_full b); [reflexivity|]. inversion H.
Qed.

(** C4: on every terminal board, at every depth [d], [minimax] returns
    the terminal evaluation adjusted by the depth: [10 - d] when the
    winner is the maximizing side, [-10 + d] when it is the minimizing
    side, [0] otherwise (a draw). The winner is the one [check_winner]
    reports: a mark that holds a whole line, and the side that has a
    line when the other has none. The depth enters at whatever depth
    the leaf is reached. *)
Theorem minimax_terminal_value (frames : nat) (self : MinimaxAI) (b : board)
        (d : Z) (is_maximizing : bool) (alpha beta : num)
        (r : option string) :
  wf_board b = true ->
  ai_player self <> human_player self ->
  is_game_over b = Ok (true, r) ->
  exists w,
    check_winner b = Ok w /\
    (w = Some (ai_player self) ->
     minimax (S frames) self b d is_maximizing alpha beta
     = Ok (b, Fin (10 - d))) /\
    (w = Some (human_player self) ->
     minimax (S frames) self b d is_maximizing alpha beta
     = Ok (b, Fin (-10 + d))) /\
    (w <> Some (ai_player self) -> w <> Some (human_player self) ->
     minimax (S frames) self b d is_maximizing alpha beta = Ok (b, Fin 0)) /\
    (forall m, w = Some m -> m <> " " /\ has_line b m = true) /\
    (w = None ->
     is_board_full b = true /\ forall m, m <> " " -> has_line b m = false) /\
    (marks_of self b = true -> ai_player self <> " " ->
     has_line b (ai_player self) = true ->
     has_line b (human_player self) = false -> w = Some (ai_player self)) /\
    (marks_of self b = true -> human_player self <> " " ->
     has_line b (human_player self) = true ->
     has_line b (ai_player self) = false -> w = Some (human_player self)).
Proof.
  intros Hwf Hdiff Hover.
  pose proof (terminal_flag b r Hwf Hover) as Hflag.
  exists (first_line b).
  split; [now apply check_winner_first_line|].
  rewrite (minimax_step _ _ _ _ _ _ _ Hwf), Hflag. unfold leaf_value.
  split; [|split; [|split; [|split; [|split; [|split]]]]].
  - intros E. rewrite E. cbn [winner_is]. rewrite String.eqb_refl.
    reflexivity.
  - intros E. rewrite E. cbn [winner_is].
    assert (Hne : String.eqb (human_player self) (ai_player self) = false)
      by (apply String.eqb_neq; congruence).
    rewrite Hne, String.eqb_refl. reflexivity.
  - intros Hna Hnh.
    assert (Ha : winner_is (first_line b) (ai_player self) = false).
    { destruct (first_line b) as [x|]; [|reflexivity]. cbn [winner_is].
      apply String.eqb_neq. congruence. }
    assert (Hh : winner_is (first_line b) (human_player self) = false).
    { destruct (first_line b) as [x|]; [|reflexivity]. cbn [winner_is].
      apply String.eqb_neq. congruence. }
    rewrite Ha, Hh. reflexivity.
  - intros m E. now apply first_line_some.
  - intros E. rewrite E in Hflag. cbn [truthy orb] in Hflag.
    split; [assumption|]. intros m Hm. now apply first_line_none.
  - intros Hm Hai Ha Hh.
    apply (sole_line_first self b _ (human_player self)); auto.
  - intros Hm Hhu Hh Ha.
    apply (sole_line_first self b _ (ai_player self)); auto.
Qed.

Lemma minimax_terminal_value_witness :
  exists w,
    check_winner board_won = Ok w /\
    (w = Some (ai_player O_vs_X) ->
     minimax 1 O_vs_X board_won 3 false NegInf PosInf
     = Ok (board_won, Fin (10 - 3))) /\
    (w = Some (human_player O_vs_X) ->
     minimax 1 O_vs_X board_won 3 false NegInf PosInf
     = Ok (board_won, Fin (-10 + 3))) /\
    (w <> Some (ai_player O_vs_X) -> w <> Some (human_player O_vs_X) ->
     minimax 1 O_vs_X board_won 3 false NegInf PosInf
     = Ok (board_won, Fin 0)) /\
    (forall m, w = Some m -> m <> " " /\ has_line board_won m = true) /\
    (w = None ->
     is_board_full board_won = true /\
     forall m, m <> " " -> has_line board_won m = false) /\
    (marks_of O_vs_X board_won = true -> ai_player O_vs_X <> " " ->
     has_line board_won (ai_player O_vs_X) = true ->
     has_line board_won (human_player O_vs_X) = false ->
     w = Some (ai_player O_vs_X)) /\
    (marks_of O_vs_X board_won = true -> human_player O_vs_X <> " " ->
     has_line board_won (human_player O_vs_X) = true ->
     has_line board_won (ai_player O_vs_X) = false ->
     w = Some (human_player O_vs_X)).
Proof.
  apply (minimax_terminal_value 0 O_vs_X board_won 3 false NegInf PosInf
                                (Some "O")).
  - reflexivity.
  - discriminate.
  - reflexivity.
Defined.

(** C5: on a board with an empty cell, [get_best_move] returns the move
    the same search returns when no bound is kept and no candidate is
    skipped; both leave the board as it was. *)
Theorem pruning_preserves_best_move (frames : nat) (self : MinimaxAI)
        (b : board) :
  wf_board b = true ->
  ai_player self <> " " -> human_player self <> " " ->
  empty_cells b <> [] ->
  (List.length (empty_cells b) <= frames)%nat ->
  exists mv,
    get_best_move frames self b = Ok (b, Some mv) /\
    get_best_move_plain frames self b = Ok (b, Some mv).
Proof.
  intros Hwf Hai Hhu Hne Hlen.
  destruct (best_loop_agree frames self b Hai Hhu Hwf Hlen
              (empty_cells b) (fun r c H => H) NegInf None)
    as (s & mv & Hab & Hplain & _ & Hsome).
  destruct mv as [mv|]; [|now contradiction (Hsome Hne eq_refl)].
  exists mv. unfold get_best_move, get_best_move_plain.
  rewrite (get_available_moves_empty_cells b Hwf). cbn [bind].
  rewrite Hab, Hplain. now split.
Qed.

Lemma pruning_preserves_best_move_witness :
  exists mv,
    get_best_move 10 O_vs_X board_block = Ok (board_block, Some mv) /\
    get_best_move_plain 10 O_vs_X board_block = Ok (board_block, Some mv).
Proof.
  apply (pruning_preserves_best_move 10 O_vs_X board_block).
  - reflexivity.
  - discriminate.
  - discriminate.
  - discriminate.
  - vm_compute. lia.
Defined.

(** C10: on a board without an empty cell [get_best_move] returns [None],
    raises nothing and leaves the board as it is, whatever the frame
    budget: the loop body is never entered. *)
Theorem get_best_move_full_board (frames : nat) (self : MinimaxAI)
        (b : board) :
  wf_board b = true -> is_board_full b = true ->
  get_available_moves b = Ok [] /\
  get_best_move frames self b = Ok (b, None).
Proof.
  intros Hwf Hfull.
  pose proof (get_available_moves_empty_cells b Hwf) as Hmoves.
  rewrite (full_no_empty b Hwf Hfull) in Hmoves.
  split; [assumption|].
  unfold get_best_move. rewrite Hmoves. reflexivity.
Qed.

Lemma get_best_move_full_board_witness :
  get_available_moves board_drawn = Ok [] /\
  get_best_move 0 O_vs_X board_drawn = Ok (board_drawn, None).
Proof.
  apply (get_best_move_full_board 0 O_vs_X board_drawn); reflexivity.
Defined.

(** * Further properties of the board *)

(** X1: on a 3x3 board [check_winner] never raises; a mark it returns is
    not the blank and occupies a whole line; it returns [None] exactly
    when no mark other than the blank occupies a whole line. *)
Theorem check_winner_sound_complete (b : board) :
  wf_board b = true ->
  exists w, check_winner b = Ok w /\
    (forall m, w = Some m -> m <> " " /\ has_line b m = true) /\
    (w = None <-> forall m, m <> " " -> has_line b m = false).
Proof.
  intros Hwf. exists (first_line b).
  split; [now apply check_winner_first_line|]. split.
  - intros m E. now apply first_line_some.
  - split.
    + intros E m Hm. now apply first_line_none.
    + intros H. destruct (first_line b) as [m|] eqn:E; [|reflexivity].
      destruct (first_line_some b m Hwf E) as [Hm Hl].
      rewrite (H m Hm) in Hl. discriminate.
Qed.

Lemma check_winner_sound_complete_witness :
  exists w, check_winner board_two_lines = Ok w /\
    (forall m, w = Some m -> m <> " " /\ has_line board_two_lines m = true) /\
    (w = None <-> forall m, m <> " " -> has_line board_two_lines m = false).
Proof.
  apply (check_winner_sound_complete board_two_lines). reflexivity.
Defined.

Lemma empty_cells_nil_full (b : board) :
  wf_board b = true -> empty_cells b = [] -> is_board_full b = true.
Proof.
  intros Hwf E. destruct (is_board_full b) eqn:F; [reflexivity|].
  now contradiction (not_full_has_empty b Hwf F).
Qed.

(** X2: the board is full exactly when [get_available_moves] returns the
    empty list, and exactly when all nine cells are occupied. *)
Theorem is_board_full_iff (b : board) :
  wf_board b = true ->
  (is_board_full b = true <-> get_available_moves b = Ok []) /\
  (is_board_full b = true <-> occupied b = 9%nat).
Proof.
  intros Hwf.
  rewrite (get_available_moves_empty_cells b Hwf).
  pose proof (empty_cells_occupied b Hwf) as Hcount.
  split; split.
  - intros F. now rewrite (full_no_empty b Hwf F).
  - intros E. inversion E. now apply empty_cells_nil_full.
  - intros F. rewrite (full_no_empty b Hwf F) in Hcount. simpl in Hcount. lia.
  - intros E. apply empty_cells_nil_full; [assumption|].
    destruct (empty_cells b); [reflexivity|]. simpl in Hcount. lia.
Qed.

Lemma is_board_full_iff_witness :
  (is_board_full board_drawn = true <-> get_available_moves board_drawn = Ok [])
  /\ (is_board_full board_drawn = true <-> occupied board_drawn = 9%nat).
Proof.
  apply (is_board_full_iff board_drawn). reflexivity.
Defined.

(** X3: [is_valid_move] accepts a pair exactly when [get_available_moves]
    lists it. *)
Theorem is_valid_move_iff_available (b : board) (row col : Z) :
  wf_board b = true ->
  exists moves, get_available_moves b = Ok moves /\
    (is_valid_move b row col = Ok true <-> In (row, col) moves).
Proof.
  intros Hwf. exists (empty_cells b).
  split; [now apply get_available_moves_empty_cells|].
  destruct (is_valid_move_wf b row col Hwf) as (v & Hv & Hiff).
  rewrite Hv, in_empty_cells, in_coords. split.
  - intros E. inversion E. subst v. destruct (proj1 Hiff eq_refl) as (? & ? & ?).
    auto.
  - intros [[Hr Hc] Hg]. f_equal. apply Hiff. auto.
Qed.

Lemma is_valid_move_iff_available_witness :
  exists moves, get_available_moves board_block = Ok moves /\
    (is_valid_move board_block 0 2 = Ok true <-> In (0, 2) moves).
Proof.
  apply (is_valid_move_iff_available board_block 0 2). reflexivity.
Defined.

Lemma filter_remove_one {A : Type} (f g : A -> bool) (x : A) (l : list A) :
  NoDup l -> In x l -> f x = true -> g x = false ->
  (forall y, In y l -> y <> x -> g y = f y) ->
  exists pre post, filter f l = pre ++ x :: post /\ filter g l = pre ++ post.
Proof.
  intros Hnd Hin Hf Hg Hfr.
  destruct (in_split x l Hin) as (l1 & l2 & ->).
  pose proof (NoDup_remove_2 l1 l2 x Hnd) as Hnot.
  exists (filter f l1), (filter f l2).
  rewrite !filter_app. cbn [filter]. rewrite Hf, Hg.
  split; [reflexivity|].
  f_equal; apply filter_ext_in; intros y Hy; apply Hfr;
    try (apply in_or_app; simpl; tauto);
    intros ->; apply Hnot; apply in_or_app; tauto.
Qed.

(** X4: a valid move with a non-blank mark takes exactly its cell out of
    the available moves, keeping the order of the others, and adds one
    occupied cell. *)
Theorem make_move_consumes_cell (b : board) (row col : Z) (player : string) :
  wf_board b = true -> player <> " " ->
  is_valid_move b row col = Ok true ->
  exists b' pre post,
    make_move b row col player = Ok (b', true) /\
    get_available_moves b = Ok (pre ++ (row, col) :: post) /\
    get_available_moves b' = Ok (pre ++ post) /\
    occupied b' = S (occupied b).
Proof.
  intros Hwf Hp Hvalid.
  destruct (is_valid_move_wf b row col Hwf) as (v & Hv & Hiff).
  rewrite Hvalid in Hv. inversion Hv. subst v.
  destruct (proj1 Hiff eq_refl) as (Hr & Hc & Hget).
  assert (Hin : In (row, col) coords) by (apply in_coords; lia).
  destruct (set_cell_coords b row col player Hwf Hin)
    as (b' & Hset & Hwf' & Hnew & Hfr).
  destruct (filter_remove_one (is_blank b) (is_blank b') (row, col) coords)
    as (pre & post & E1 & E2).
  - apply NoDup_coords.
  - assumption.
  - now apply is_blank_get.
  - unfold is_blank. cbn [fst snd]. rewrite Hnew. now apply String.eqb_neq.
  - intros [r c] Hy Hne. unfold is_blank. cbn [fst snd]. now rewrite Hfr.
  - exists b', pre, post.
    split; [unfold make_move; rewrite Hvalid; cbn [bind]; now rewrite Hset|].
    rewrite (get_available_moves_empty_cells b Hwf),
            (get_available_moves_empty_cells b' Hwf').
    unfold empty_cells at 1 2. rewrite E1, E2.
    split; [reflexivity|]. split; [reflexivity|].
    pose proof (empty_cells_occupied b Hwf) as H1.
    pose proof (empty_cells_occupied b' Hwf') as H2.
    unfold empty_cells in H1, H2. rewrite E1 in H1. rewrite E2 in H2.
    rewrite length_app in H1, H2. cbn [List.length] in H1. lia.
Qed.

Lemma make_move_consumes_cell_witness :
  exists b' pre post,
    make_move board_block 1 1 "O" = Ok (b', true) /\
    get_available_moves board_block = Ok (pre ++ (1, 1) :: post) /\
    get_available_moves b' = Ok (pre ++ post) /\
    occupied b' = S (occupied board_block).
Proof.
  apply (make_move_consumes_cell board_block 1 1 "O").
  - reflexivity.
  - discriminate.
  - reflexivity.
Defined.

(** X5: [make_move] never overwrites a mark: whatever it is asked, a cell
    that holds a mark holds the same mark afterwards. *)
Theorem make_move_keeps_marks (b b' : board) (row col : Z) (player : string)
        (ok : bool) :
  wf_board b = true ->
  make_move b row col player = Ok (b', ok) ->
  forall r c m, In (r, c) coords -> get_cell b r c = Ok m -> m <> " " ->
                get_cell b' r c = Ok m.
Proof.
  intros Hwf H r c m Hin Hget Hm.
  destruct (is_valid_move_wf b row col Hwf) as (v & Hv & Hiff).
  unfold make_move in H. rewrite Hv in H. cbn [bind] in H.
  destruct v.
  - destruct (proj1 Hiff eq_refl) as (Hr & Hc & Hblank).
    assert (Hin' : In (row, col) coords) by (apply in_coords; lia).
    destruct (set_cell_coords b row col player Hwf Hin')
      as (b1 & Hset & _ & _ & Hfr).
    rewrite Hset in H. cbn [bind] in H. inversion H. subst b1 ok.
    rewrite Hfr; [assumption|assumption|].
    intros E. inversion E. subst r c. rewrite Hblank in Hget.
    inversion Hget. congruence.
  - inversion H. now subst.
Qed.

Lemma make_move_keeps_marks_witness :
  get_cell [["X"; "X"; "O"]; [" "; " "; " "]; [" "; " "; " "]] 0 1 = Ok "X".
Proof.
  apply (make_move_keeps_marks board_block _ 0 2 "O" true).
  - reflexivity.
  - reflexivity.
  - simpl. auto.
  - reflexivity.
  - discriminate.
Defined.

(** X6: on a board that carries only the two players' marks, neither of
    them blank or the empty string, [is_game_over] answers [(False, None)]
    exactly when neither side has a line and a cell is empty,
    [(True, 'Draw')] when neither has a line and the board is full, and
    [(True, w)] for a side [w] that has a line as soon as some side has
    one. *)
Theorem is_game_over_cases (self : MinimaxAI) (b : board) :
  wf_board b = true -> marks_of self b = true ->
  ai_player self <> " " -> human_player self <> " " ->
  ai_player self <> "" -> human_player self <> "" ->
  (is_game_over b = Ok (false, None) <->
   has_line b (ai_player self) = false /\
   has_line b (human_player self) = false /\ is_board_full b = false) /\
  (has_line b (ai_player self) = false ->
   has_line b (human_player self) = false -> is_board_full b = true ->
   is_game_over b = Ok (true, Some "Draw")) /\
  (forall m, m <> " " -> has_line b m = true ->
     exists w, is_game_over b = Ok (true, Some w) /\ has_line b w = true /\
               (w = ai_player self \/ w = human_player self)).
Proof.
  intros Hwf Hm Hai Hhu Hai' Hhu'.
  rewrite (is_game_over_wf b Hwf).
  assert (Hsome : forall w, first_line b = Some w ->
            truthy (Some w) = true /\ has_line b w = true /\
            (w = ai_player self \/ w = human_player self)).
  { intros w E. destruct (first_line_some b w Hwf E) as [Hw Hl].
    destruct (has_line_mark self b w Hwf Hm Hl) as [-> | [-> | ->]];
      [contradiction| |]; cbn [truthy];
      (split; [apply negb_true_iff; now apply String.eqb_neq|]); auto. }
  split; [|split].
  - split.
    + intros H. destruct (first_line b) as [w|] eqn:E.
      * destruct (Hsome w eq_refl) as (Ht & _). rewrite Ht in H. discriminate.
      * cbn [truthy] in H. destruct (is_board_full b); [discriminate|].
        split; [|split]; try reflexivity; now apply first_line_none.
    + intros (Ha & Hh & Hf).
      rewrite (no_line_first self b Hwf Hm Ha Hh). cbn [truthy].
      now rewrite Hf.
  - intros Ha Hh Hf.
    rewrite (no_line_first self b Hwf Hm Ha Hh). cbn [truthy].
    now rewrite Hf.
  - intros m Hmb Hl. destruct (first_line b) as [w|] eqn:E.
    + destruct (Hsome w eq_refl) as (Ht & Hw & Hor).
      exists w. rewrite Ht. auto.
    + rewrite (first_line_none b m Hwf E Hmb) in Hl. discriminate.
Qed.

Lemma is_game_over_cases_witness :
  is_game_over board_drawn = Ok (true, Some "Draw").
Proof.
  apply (is_game_over_cases O_vs_X board_drawn);
    try reflexivity; discriminate.
Defined.

(** * Further properties of the search *)

(** X7: called with its default bounds, [minimax] returns what the search
    without cutoffs returns, at every depth and for either side to move. *)
Theorem minimax_default_bounds_exact (frames : nat) (self : MinimaxAI)
        (b : board) (depth : Z) (is_maximizing : bool) :
  wf_board b = true ->
  ai_player self <> " " -> human_player self <> " " ->
  (List.length (empty_cells b) < frames)%nat ->
  exists v,
    minimax frames self b depth is_maximizing NegInf PosInf = Ok (b, Fin v) /\
    minimax_plain frames self b depth is_maximizing = Ok (b, Fin v).
Proof.
  intros Hwf Hai Hhu Hlen.
  destruct (minimax_sound self Hai Hhu frames b Hwf Hlen depth is_maximizing)
    as (x & Hplain & Hab).
  destruct (Hab NegInf PosInf) as (y & Hy & Hb).
  pose proof (bounded_full_window y x (Hb eq_refl)) as ->.
  now exists y.
Qed.

Lemma minimax_default_bounds_exact_witness :
  exists v,
    minimax 10 O_vs_X board_block 3 true NegInf PosInf
    = Ok (board_block, Fin v) /\
    minimax_plain 10 O_vs_X board_block 3 true = Ok (board_block, Fin v).
Proof.
  apply (minimax_default_bounds_exact 10 O_vs_X board_block 3 true).
  - reflexivity.
  - discriminate.
  - discriminate.
  - vm_compute. lia.
Defined.

(** X8: called with any bounds [alpha < beta], [minimax] returns a value
    [y] that is exact when it falls strictly between the bounds, an upper
    bound of the value without cutoffs when [y <= alpha], and a lower
    bound of it when [beta <= y]. *)
Theorem minimax_window_bounds (frames : nat) (self : MinimaxAI) (b : board)
        (depth : Z) (is_maximizing : bool) (alpha beta : num) :
  wf_board b = true ->
  ai_player self <> " " -> human_player self <> " " ->
  (List.length (empty_cells b) < frames)%nat ->
  num_ltb alpha beta = true ->
  exists y x,
    minimax frames self b depth is_maximizing alpha beta = Ok (b, Fin y) /\
    minimax_plain frames self b depth is_maximizing = Ok (b, Fin x) /\
    (num_ltb alpha (Fin y) = true -> num_ltb (Fin y) beta = true -> x = y) /\
    (num_leb (Fin y) alpha = true -> x <= y) /\
    (num_leb beta (Fin y) = true -> y <= x).
Proof.
  intros Hwf Hai Hhu Hlen Hlt.
  destruct (minimax_sound self Hai Hhu frames b Hwf Hlen depth is_maximizing)
    as (x & Hplain & Hab).
  destruct (Hab alpha beta) as (y & Hy & Hb).
  destruct (Hb Hlt) as (H1 & H2 & H3).
  exists y, x. split; [assumption|]. split; [assumption|].
  split; [|split].
  - intros Ha Hbe. specialize (H3 Ha Hbe). now inversion H3.
  - intros Ha. specialize (H1 Ha). simpl in H1. now apply Z.leb_le.
  - intros Hbe. specialize (H2 Hbe). simpl in H2. now apply Z.leb_le.
Qed.

Lemma minimax_window_bounds_witness :
  exists y x,
    minimax 10 O_vs_X board_block 0 true (Fin (-1)) (Fin 1)
    = Ok (board_block, Fin y) /\
    minimax_plain 10 O_vs_X board_block 0 true = Ok (board_block, Fin x) /\
    (num_ltb (Fin (-1)) (Fin y) = true -> num_ltb (Fin y) (Fin 1) = true ->
     x = y) /\
    (num_leb (Fin y) (Fin (-1)) = true -> x <= y) /\
    (num_leb (Fin 1) (Fin y) = true -> y <= x).
Proof.
  apply (minimax_window_bounds 10 O_vs_X board_block 0 true (Fin (-1)) (Fin 1)).
  - reflexivity.
  - discriminate.
  - discriminate.
  - vm_compute. lia.
  - reflexivity.
Defined.

Lemma py_max_range (lo hi : Z) (a : num) (y : Z) :
  a = NegInf \/ (exists z, a = Fin z /\ lo <= z <= hi) ->
  lo <= y <= hi ->
  exists z, py_max a (Fin y) = Fin z /\ lo <= z <= hi.
Proof.
  intros [-> | (z & -> & Hz)] Hy; unfold py_max; simpl.
  - eauto.
  - destruct (z <? y); eauto.
Qed.

Lemma py_min_range (lo hi : Z) (a : num) (y : Z) :
  a = PosInf \/ (exists z, a = Fin z /\ lo <= z <= hi) ->
  lo <= y <= hi ->
  exists z, py_min a (Fin y) = Fin z /\ lo <= z <= hi.
Proof.
  intros [-> | (z & -> & Hz)] Hy; unfold py_min; simpl.
  - eauto.
  - destruct (y <? z); eauto.
Qed.

Section LoopRange.

Variable recurse : board -> num -> num -> result (board * num).
Variable mark : string.
Variable b : board.
Variables lo hi : Z.
Hypothesis Hwf : wf_board b = true.

Lemma max_loop_range (moves : list (Z * Z)) :
  (forall r c, In (r, c) moves -> In (r, c) (empty_cells b)) ->
  (forall r c b1, In (r, c) moves -> set_cell b r c mark = Ok b1 ->
     forall alpha beta, exists y,
       recurse b1 alpha beta = Ok (b1, Fin y) /\ lo <= y <= hi) ->
  forall max_eval alpha beta,
    max_eval = NegInf \/ (exists z, max_eval = Fin z /\ lo <= z <= hi) ->
    exists ME,
      max_loop recurse mark moves b max_eval alpha beta = Ok (b, ME) /\
      (moves = [] /\ ME = max_eval \/ exists z, ME = Fin z /\ lo <= z <= hi).
Proof.
  induction moves as [|[r c] rest IH]; intros Hin Hch max_eval alpha beta Hme.
  - exists max_eval. cbn [max_loop]. auto.
  - destruct (try_candidate b r c mark Hwf (Hin r c (or_introl eq_refl)))
      as (b1 & Hset & Hwf1 & Hundo).
    destruct (Hch r c b1 (or_introl eq_refl) Hset alpha beta) as (y & Hy & Hr).
    destruct (py_max_range lo hi max_eval y Hme Hr) as (z & Hz & Hzr).
    cbn [max_loop]. rewrite Hset. cbn [bind]. rewrite Hy. cbn [bind].
    rewrite Hundo. cbn [bind].
    destruct (num_leb beta (py_max alpha (Fin y))).
    + exists (py_max max_eval (Fin y)). split; [reflexivity|]. right. eauto.
    + destruct (IH (fun r' c' H => Hin r' c' (or_intror H))
                   (fun r' c' b' H => Hch r' c' b' (or_intror H))
                   (py_max max_eval (Fin y)) (py_max alpha (Fin y)) beta)
        as (ME & HME & Hcases).
      { right. eauto. }
      exists ME. split; [assumption|]. right.
      destruct Hcases as [[_ ->] | H]; eauto.
Qed.

Lemma min_loop_range (moves : list (Z * Z)) :
  (forall r c, In (r, c) moves -> In (r, c) (empty_cells b)) ->
  (forall r c b1, In (r, c) moves -> set_cell b r c mark = Ok b1 ->
     forall alpha beta, exists y,
       recurse b1 alpha beta = Ok (b1, Fin y) /\ lo <= y <= hi) ->
  forall min_eval alpha beta,
    min_eval = PosInf \/ (exists z, min_eval = Fin z /\ lo <= z <= hi) ->
    exists ME,
      min_loop recurse mark moves b min_eval alpha beta = Ok (b, ME) /\
      (moves = [] /\ ME = min_eval \/ exists z, ME = Fin z /\ lo <= z <= hi).
Proof.
  induction moves as [|[r c] rest IH]; intros Hin Hch min_eval alpha beta Hme.
  - exists min_eval. cbn [min_loop]. auto.
  - destruct (try_candidate b r c mark Hwf (Hin r c (or_introl eq_refl)))
      as (b1 & Hset & Hwf1 & Hundo).
    destruct (Hch r c b1 (or_introl eq_refl) Hset alpha beta) as (y & Hy & Hr).
    destruct (py_min_range lo hi min_eval y Hme Hr) as (z & Hz & Hzr).
    cbn [min_loop]. rewrite Hset. cbn [bind]. rewrite Hy. cbn [bind].
    rewrite Hundo. cbn [bind].
    destruct (num_leb (py_min beta (Fin y)) alpha).
    + exists (py_min min_eval (Fin y)). split; [reflexivity|]. right. eauto.
    + destruct (IH (fun r' c' H => Hin r' c' (or_intror H))
                   (fun r' c' b' H => Hch r' c' b' (or_intror H))
                   (py_min min_eval (Fin y)) alpha (py_min beta (Fin y)))
        as (ME & HME & Hcases).
      { right. eauto. }
      exists ME. split; [assumption|]. right.
      destruct Hcases as [[_ ->] | H]; eauto.
Qed.

End LoopRange.

Lemma leaf_value_cases (self : MinimaxAI) (b : board) (d : Z) :
  (leaf_value self b d = 10 - d /\
   winner_is (first_line b) (ai_player self) = true) \/
  leaf_value self b d = -10 + d \/ leaf_value self b d = 0.
Proof.
  unfold leaf_value.
  destruct (winner_is (first_line b) (ai_player self)); [left; split; reflexivity|].
  destruct (winner_is (first_line b) (human_player self)); cbn; auto.
Qed.

(** The value of a position: a finished game is worth its [leaf_value];
    an unfinished one is worth a value that lies one step inside the
    range of its depth. *)
Lemma minimax_range (self : MinimaxAI) :
  ai_player self <> " " -> human_player self <> " " ->
  forall frames b,
    wf_board b = true ->
    (List.length (empty_cells b) < frames)%nat ->
    forall d is_maximizing alpha beta,
      0 <= d -> d + Z.of_nat (List.length (empty_cells b)) <= 10 ->
      exists y,
        minimax frames self b d is_maximizing alpha beta = Ok (b, Fin y) /\
        - 10 + d <= y <= 10 - d /\
        (truthy (first_line b) || is_board_full b = true ->
         y = leaf_value self b d) /\
        (truthy (first_line b) || is_board_full b = false ->
         - 10 + d + 1 <= y <= 10 - d - 1).
Proof.
  intros Hai Hhu. induction frames as [|frames IH];
    intros b Hwf Hlen d m alpha beta Hd Hk.
  - inversion Hlen.
  - rewrite (minimax_step _ _ _ _ _ _ _ Hwf).
    destruct (truthy (first_line b) || is_board_full b) eqn:Hterm.
    + exists (leaf_value self b d). split; [reflexivity|].
      split; [|split; [reflexivity|discriminate]].
      destruct (leaf_value_cases self b d) as [[-> _] | [-> | ->]]; lia.
    + pose proof Hterm as Hterm'.
      apply orb_false_iff in Hterm'. destruct Hterm' as [_ Hfull].
      pose proof (not_full_has_empty b Hwf Hfull) as Hne.
      assert (Hchild : forall mark is_max, mark <> " " ->
                forall r c b1,
                  In (r, c) (empty_cells b) -> set_cell b r c mark = Ok b1 ->
                  forall alpha' beta', exists y,
                    minimax frames self b1 (d + 1) is_max alpha' beta'
                    = Ok (b1, Fin y) /\ - 10 + d + 1 <= y <= 10 - d - 1).
      { intros mark is_max Hmark r c b1 Hin Hset alpha' beta'.
        destruct (try_candidate b r c mark Hwf Hin) as (b1' & Hset' & Hwf1 & _).
        rewrite Hset in Hset'. inversion Hset'. subst b1'.
        pose proof (empty_cells_set b b1 r c mark Hwf Hin Hmark Hset) as Hcount.
        destruct (IH b1 Hwf1 ltac:(lia) (d + 1) is_max alpha' beta'
                     ltac:(lia) ltac:(lia)) as (y & Hy & Hr & _).
        exists y. split; [assumption|lia]. }
      destruct m.
      * destruct (max_loop_range
                    (fun b' a' b'' => minimax frames self b' (d + 1) false a' b'')
                    (ai_player self) b (- 10 + d + 1) (10 - d - 1) Hwf
                    (empty_cells b) (fun r c H => H)
                    (Hchild (ai_player self) false Hai) NegInf alpha beta)
          as (ME & HME & [[E _] | (z & -> & Hz)]); [now left|contradiction|].
        exists z. split; [assumption|]. split; [lia|].
        split; [discriminate|intros _; lia].
      * destruct (min_loop_range
                    (fun b' a' b'' => minimax frames self b' (d + 1) true a' b'')
                    (human_player self) b (- 10 + d + 1) (10 - d - 1) Hwf
                    (empty_cells b) (fun r c H => H)
                    (Hchild (human_player self) true Hhu) PosInf alpha beta)
          as (ME & HME & [[E _] | (z & -> & Hz)]); [now left|contradiction|].
        exists z. split; [assumption|]. split; [lia|].
        split; [discriminate|intros _; lia].
Qed.

Lemma empty_cells_at_most_nine (b : board) :
  wf_board b = true -> (List.length (empty_cells b) <= 9)%nat.
Proof.
  intros Hwf. pose proof (empty_cells_occupied b Hwf). lia.
Qed.

(** X9: at a depth [d >= 0] such that [d] plus the number of empty cells
    is at most 10, and with any bounds, [minimax] returns an integer
    between [-10 + d] and [10 - d]; it is never infinite. *)
Theorem minimax_value_range (frames : nat) (self : MinimaxAI) (b : board)
        (d : Z) (is_maximizing : bool) (alpha beta : num) :
  wf_board b = true ->
  ai_player self <> " " -> human_player self <> " " ->
  (List.length (empty_cells b) < frames)%nat ->
  0 <= d -> d + Z.of_nat (List.length (empty_cells b)) <= 10 ->
  exists y,
    minimax frames self b d is_maximizing alpha beta = Ok (b, Fin y) /\
    - 10 + d <= y <= 10 - d.
Proof.
  intros Hwf Hai Hhu Hlen Hd Hk.
  destruct (minimax_range self Hai Hhu frames b Hwf Hlen d is_maximizing
                          alpha beta Hd Hk) as (y & Hy & Hr & _).
  now exists y.
Qed.

Lemma minimax_value_range_witness :
  exists y,
    minimax 10 O_vs_X board_block 0 true NegInf PosInf
    = Ok (board_block, Fin y) /\ - 10 + 0 <= y <= 10 - 0.
Proof.
  apply (minimax_value_range 10 O_vs_X board_block 0 true NegInf PosInf).
  - reflexivity.
  - discriminate.
  - discriminate.
  - vm_compute. lia.
  - lia.
  - vm_compute. discriminate.
Defined.

Lemma get_best_move_in_empty_cells (frames : nat) (self : MinimaxAI)
      (b : board) :
  wf_board b = true ->
  ai_player self <> " " -> human_player self <> " " ->
  empty_cells b <> [] ->
  (List.length (empty_cells b) <= frames)%nat ->
  exists pre mv post s,
    empty_cells b = pre ++ mv :: post /\
    get_best_move frames self b = Ok (b, Some mv) /\
    candidate_score frames self b 0 mv = Ok (b, Fin s) /\
    (forall m', In m' (empty_cells b) ->
       exists s', candidate_score frames self b 0 m' = Ok (b, Fin s') /\
                  s' <= s).
Proof.
  intros Hwf Hai Hhu Hne Hlen.
  destruct (best_loop_first_max frames self b Hai Hhu Hwf Hlen
              (empty_cells b) [] (fun r c H => H) NegInf None)
    as (s0 & mv0 & Hloop & Hk).
  { left. auto. }
  cbn [app] in Hk.
  destruct Hk as [(E & _) | (pre & mv & post & s & E & -> & -> & Hs & Hpre & Hpost)].
  - contradiction.
  - exists pre, mv, post, s. split; [assumption|]. split.
    + unfold get_best_move.
      rewrite (get_available_moves_empty_cells b Hwf). cbn [bind].
      now rewrite Hloop.
    + split; [assumption|]. intros m' Hm'. rewrite E in Hm'.
      apply in_app_or in Hm'. destruct Hm' as [H | [<- | H]].
      * destruct (Hpre m' H) as (s' & E' & Hlt). exists s'. split; [assumption|lia].
      * exists s. split; [assumption|lia].
      * now apply Hpost.
Qed.

(** X10: while a cell is empty, [get_best_move] returns a pair that
    [is_valid_move] accepts, so the [make_move] that callers apply to it
    succeeds, writes the maximizing side's mark there and leaves one empty
    cell fewer. *)
Theorem get_best_move_is_playable (frames : nat) (self : MinimaxAI)
        (b : board) :
  wf_board b = true ->
  ai_player self <> " " -> human_player self <> " " ->
  is_board_full b = false ->
  (List.length (empty_cells b) <= frames)%nat ->
  exists row col b',
    get_best_move frames self b = Ok (b, Some (row, col)) /\
    is_valid_move b row col = Ok true /\
    make_move b row col (ai_player self) = Ok (b', true) /\
    get_cell b' row col = Ok (ai_player self) /\
    List.length (empty_cells b) = S (List.length (empty_cells b')).
Proof.
  intros Hwf Hai Hhu Hfull Hlen.
  pose proof (not_full_has_empty b Hwf Hfull) as Hne.
  destruct (get_best_move_in_empty_cells frames self b Hwf Hai Hhu Hne Hlen)
    as (pre & [row col] & post & s & E & Hbest & _).
  assert (Hin : In (row, col) (empty_cells b))
    by (rewrite E; apply in_or_app; simpl; auto).
  pose proof Hin as Hin'. apply in_empty_cells in Hin'.
  destruct Hin' as [Hc Hget].
  destruct (set_cell_coords b row col (ai_player self) Hwf Hc)
    as (b' & Hset & Hwf' & Hnew & _).
  assert (Hvalid : is_valid_move b row col = Ok true).
  { rewrite (is_valid_move_in_range b row col Hc), Hget. reflexivity. }
  exists row, col, b'. split; [assumption|]. split; [assumption|].
  split; [unfold make_move; rewrite Hvalid; cbn [bind]; now rewrite Hset|].
  split; [assumption|].
  now apply (empty_cells_set b b' row col (ai_player self)).
Qed.

Lemma get_best_move_is_playable_witness :
  exists row col b',
    get_best_move 10 O_vs_X board_block = Ok (board_block, Some (row, col)) /\
    is_valid_move board_block row col = Ok true /\
    make_move board_block row col (ai_player O_vs_X) = Ok (b', true) /\
    get_cell b' row col = Ok (ai_player O_vs_X) /\
    List.length (empty_cells board_block) = S (List.length (empty_cells b')).
Proof.
  apply (get_best_move_is_playable 10 O_vs_X board_block).
  - reflexivity.
  - discriminate.
  - discriminate.
  - reflexivity.
  - vm_compute. lia.
Defined.

Lemma has_line_after_set (b b1 : board) (r c : Z) (v m : string) :
  wf_board b = true -> In (r, c) coords ->
  set_cell b r c v = Ok b1 -> m <> v ->
  has_line b1 m = true -> has_line b m = true.
Proof.
  intros Hwf Hin Hset Hmv Hl.
  destruct (set_cell_coords b r c v Hwf Hin) as (b' & Hset' & _ & Hnew & Hfr).
  rewrite Hset in Hset'. inversion Hset'. subst b'.
  assert (Hholds : forall p, In p coords ->
                             holds b1 m p = true -> holds b m p = true).
  { intros [r' c'] Hp Hh. unfold holds in *. cbn [fst snd] in *.
    destruct (Z.eq_dec r' r) as [-> | Hr];
      [destruct (Z.eq_dec c' c) as [-> | Hc]|].
    - rewrite Hnew in Hh. apply String.eqb_eq in Hh. congruence.
    - rewrite Hfr in Hh; [assumption|assumption|congruence].
    - rewrite Hfr in Hh; [assumption|assumption|congruence]. }
  unfold has_line in *. apply existsb_exists in Hl.
  destruct Hl as ([[p q] r0] & Hlin & Hh).
  apply existsb_exists. exists (p, q, r0). split; [assumption|].
  destruct (line_points p q r0 Hlin) as (Hp & Hq & Hr0).
  apply andb_true_iff in Hh. destruct Hh as [Hh H3].
  apply andb_true_iff in Hh. destruct Hh as [H1 H2].
  rewrite (Hholds p Hp H1), (Hholds q Hq H2), (Hholds r0 Hr0 H3).
  reflexivity.
Qed.

(** Completing a line for the maximizing side, on a board where the other
    side has none, makes the maximizing side the winner
    [check_winner] reports. *)
Lemma winning_candidate_first_line (self : MinimaxAI) (b b1 : board) (r c : Z) :
  wf_board b = true -> marks_of self b = true ->
  ai_player self <> " " ->
  has_line b (human_player self) = false ->
  In (r, c) (empty_cells b) ->
  set_cell b r c (ai_player self) = Ok b1 ->
  has_line b1 (ai_player self) = true ->
  first_line b1 = Some (ai_player self).
Proof.
  intros Hwf Hm Hai Hh Hin Hset Hl.
  destruct (try_candidate b r c (ai_player self) Hwf Hin)
    as (b1' & Hset' & Hwf1 & _).
  rewrite Hset in Hset'. inversion Hset'. subst b1'.
  apply in_empty_cells in Hin. destruct Hin as [Hc _].
  destruct (first_line b1) as [w|] eqn:E.
  - destruct (first_line_some b1 w Hwf1 E) as [Hw Hlw].
    destruct (string_dec w (ai_player self)) as [-> | Hne]; [reflexivity|].
    pose proof (has_line_after_set b b1 r c _ w Hwf Hc Hset Hne Hlw) as Hb.
    destruct (has_line_mark self b w Hwf Hm Hb) as [-> | [-> | ->]];
      congruence.
  - rewrite (first_line_none b1 _ Hwf1 E Hai) in Hl. discriminate.
Qed.

Lemma candidate_score_inj (frames : nat) (self : MinimaxAI) (b : board)
      (rc : Z * Z) (s s' : Z) :
  candidate_score frames self b 0 rc = Ok (b, Fin s) ->
  candidate_score frames self b 0 rc = Ok (b, Fin s') -> s = s'.
Proof. intros H H'. rewrite H in H'. now inversion H'. Qed.

(** X11: when some empty cell completes a line for the maximizing side,
    on a board where the minimizing side has no line, [get_best_move]
    returns a cell that completes a line for the maximizing side: the
    move it returns wins at once. *)
Theorem get_best_move_takes_win (frames : nat) (self : MinimaxAI)
        (b b1 : board) (r c : Z) :
  wf_board b = true -> marks_of self b = true ->
  ai_player self <> " " -> human_player self <> " " ->
  ai_player self <> "" ->
  has_line b (human_player self) = false ->
  (List.length (empty_cells b) <= frames)%nat ->
  In (r, c) (empty_cells b) ->
  set_cell b r c (ai_player self) = Ok b1 ->
  has_line b1 (ai_player self) = true ->
  exists row col b',
    get_best_move frames self b = Ok (b, Some (row, col)) /\
    make_move b row col (ai_player self) = Ok (b', true) /\
    has_line b' (ai_player self) = true.
Proof.
  intros Hwf Hm Hai Hhu Hai' Hh Hlen Hin Hset Hl.
  assert (Hne : empty_cells b <> []) by (intros E; rewrite E in Hin; contradiction).
  assert (Hscore : forall r' c' b2,
             In (r', c') (empty_cells b) ->
             set_cell b r' c' (ai_player self) = Ok b2 ->
             exists y,
               candidate_score frames self b 0 (r', c') = Ok (b, Fin y) /\
               y <= 10 /\
               (has_line b2 (ai_player self) = true -> y = 10) /\
               (y = 10 -> has_line b2 (ai_player self) = true)).
  { intros r' c' b2 Hin' Hset2.
    destruct (try_candidate b r' c' (ai_player self) Hwf Hin')
      as (b2' & Hset2' & Hwf2 & Hundo).
    rewrite Hset2 in Hset2'. inversion Hset2'. subst b2'.
    pose proof (empty_cells_set b b2 r' c' _ Hwf Hin' Hai Hset2) as Hcount.
    pose proof (empty_cells_at_most_nine b Hwf) as Hnine.
    destruct (minimax_range self Hai Hhu frames b2 Hwf2 ltac:(lia) 0 false
                            NegInf PosInf ltac:(lia) ltac:(lia))
      as (y & Hy & Hr & Hterm & Hnon).
    exists y.
    split; [now apply (candidate_score_unfold frames self b b2 r' c' y)|].
    split; [lia|]. split.
    - intros Hl2.
      pose proof (winning_candidate_first_line self b b2 r' c' Hwf Hm Hai Hh
                                               Hin' Hset2 Hl2) as E.
      rewrite Hterm.
      + unfold leaf_value. rewrite E. cbn [winner_is].
        rewrite String.eqb_refl. reflexivity.
      + rewrite E. cbn [truthy]. apply String.eqb_neq in Hai'.
        rewrite Hai'. reflexivity.
    - intros ->.
      destruct (truthy (first_line b2) || is_board_full b2) eqn:Ht.
      + specialize (Hterm eq_refl).
        destruct (leaf_value_cases self b2 0) as [[_ Hw] | [E | E]];
          [|rewrite E in Hterm; discriminate|rewrite E in Hterm; discriminate].
        destruct (first_line b2) as [w|] eqn:E; [|discriminate].
        cbn [winner_is] in Hw. apply String.eqb_eq in Hw. subst w.
        now apply (first_line_some b2 _ Hwf2 E).
      + specialize (Hnon eq_refl). lia. }
  destruct (get_best_move_in_empty_cells frames self b Hwf Hai Hhu Hne Hlen)
    as (pre & [row col] & post & s & E & Hbest & Hs & Hmax).
  assert (Hin' : In (row, col) (empty_cells b))
    by (rewrite E; apply in_or_app; simpl; auto).
  destruct (try_candidate b row col (ai_player self) Hwf Hin')
    as (b' & Hset' & Hwf' & _).
  destruct (Hscore r c b1 Hin Hset) as (y1 & Hy1 & _ & Hten & _).
  destruct (Hmax (r, c) Hin) as (s1 & Hs1 & Hle).
  pose proof (candidate_score_inj _ _ _ _ _ _ Hy1 Hs1) as <-.
  rewrite (Hten Hl) in Hle.
  destruct (Hscore row col b' Hin' Hset') as (y & Hy & Hy10 & _ & Hwin).
  pose proof (candidate_score_inj _ _ _ _ _ _ Hy Hs) as <-.
  exists row, col, b'. split; [assumption|].
  split; [|apply Hwin; lia].
  pose proof Hin' as Hin''. apply in_empty_cells in Hin''.
  destruct Hin'' as [Hc Hget].
  unfold make_move.
  rewrite (is_valid_move_in_range b row col Hc), Hget. cbn [bind].
  rewrite String.eqb_refl. now rewrite Hset'.
Qed.

Lemma get_best_move_takes_win_witness :
  exists row col b',
    get_best_move 10 O_vs_X board_win_in_one
    = Ok (board_win_in_one, Some (row, col)) /\
    make_move board_win_in_one row col (ai_player O_vs_X) = Ok (b', true) /\
    has_line b' (ai_player O_vs_X) = true.
Proof.
  apply (get_best_move_takes_win 10 O_vs_X board_win_in_one
           [["O"; "O"; "O"]; ["X"; " "; " "]; ["X"; " "; " "]] 0 2).
  - reflexivity.
  - reflexivity.
  - discriminate.
  - discriminate.
  - discriminate.
  - reflexivity.
  - vm_compute. lia.
  - vm_compute. auto.
  - reflexivity.
  - reflexivity.
Defined.

(** * The console game *)

Lemma is_valid_move_reaches_board (b : board) (row col : Z) :
  is_valid_move b row col <> Ok false -> In (row, col) coords.
Proof.
  intros H. apply in_coords.
  destruct (Z_le_gt_dec 0 row); [|exfalso; apply H; apply is_valid_move_out_of_range; lia].
  destruct (Z_le_gt_dec row 2); [|exfalso; apply H; apply is_valid_move_out_of_range; lia].
  destruct (Z_le_gt_dec 0 col); [|exfalso; apply H; apply is_valid_move_out_of_range; lia].
  destruct (Z_le_gt_dec col 2); [|exfalso; apply H; apply is_valid_move_out_of_range; lia].
  lia.
Qed.

Lemma get_human_move_cases (b : board) :
  forall n lines_in,
    (List.length lines_in <= n)%nat ->
    match get_human_move b lines_in with
    | Done (rc, rest) =>
        is_valid_move b (fst rc) (snd rc) = Ok true /\
        exists consumed, consumed <> [] /\ lines_in = consumed ++ rest
    | EndOfInput => True
    | Unfinished => False
    | Failed e => exists row col, is_valid_move b row col = Raise e
    end.
Proof.
  induction n as [|n IH]; intros lines_in Hlen.
  - destruct lines_in; [exact I|inversion Hlen].
  - destruct lines_in as [|[row|] rest]; [exact I| |].
    + destruct rest as [|[col|] rest']; [exact I| |].
      * cbn [get_human_move].
        destruct (is_valid_move b row col) as [[|]|e] eqn:E.
        -- cbn [fst snd]. split; [assumption|].
           exists [Some row; Some col]. split; [discriminate|reflexivity].
        -- specialize (IH rest' ltac:(simpl in Hlen; lia)).
           destruct (get_human_move b rest') as [[rc rest'']| | |e];
             try assumption.
           destruct IH as (Hv & consumed & _ & ->).
           split; [assumption|].
           exists (Some row :: Some col :: consumed).
           split; [discriminate|reflexivity].
        -- eauto.
      * cbn [get_human_move].
        specialize (IH rest' ltac:(simpl in Hlen; lia)).
        destruct (get_human_move b rest') as [[rc rest'']| | |e];
          try assumption.
        destruct IH as (Hv & consumed & _ & ->).
        split; [assumption|].
        exists (Some row :: None :: consumed).
        split; [discriminate|reflexivity].
    + cbn [get_human_move].
      specialize (IH rest ltac:(simpl in Hlen; lia)).
      destruct (get_human_move b rest) as [[rc rest'']| | |e];
        try assumption.
      destruct IH as (Hv & consumed & _ & ->).
      split; [assumption|].
      exists (None :: consumed). split; [discriminate|reflexivity].
Qed.

(** An outcome the checker vouches for. *)
Lemma safe_sound (frames : nat) (self : MinimaxAI) :
  forall n current b,
    safe n frames self current b = true ->
    forall turns lines_in,
      match game_loop turns frames self current b lines_in with
      | Done (_, v, _) => v <> HumanWins
      | EndOfInput => True
      | Unfinished => (turns < n)%nat
      | Failed _ => False
      end.
Proof.
  induction n as [|n IH]; intros current b Hsafe turns lines_in.
  - discriminate Hsafe.
  - destruct turns as [|turns]; [cbn [game_loop]; lia|].
    cbn [game_loop]. cbn [safe] in Hsafe.
    destruct (String.eqb current (human_player self)).
    + pose proof (get_human_move_cases b _ lines_in (le_n _)) as Hh.
      destruct (get_human_move b lines_in) as [[[row col] rest]| | |e];
        [|exact I|contradiction|].
      * destruct Hh as [Hv _]. cbn [fst snd] in Hv.
        assert (Hin : In (row, col) coords).
        { apply (is_valid_move_reaches_board b). rewrite Hv. discriminate. }
        pose proof (proj1 (forallb_forall _ _) Hsafe _ Hin) as Hrc.
        cbn [fst snd] in Hrc. rewrite Hv in Hrc.
        destruct (make_move b row col (human_player self)) as [[b1 ok]|e];
          [|discriminate].
        unfold after_move.
        destruct (is_game_over b1) as [[[|] res]|e]; [| |discriminate].
        -- destruct (announce self res); [discriminate|discriminate Hrc|discriminate].
        -- specialize (IH _ _ Hrc turns rest).
           destruct (game_loop turns frames self (ai_player self) b1 rest)
             as [[[bf v] rest']| | |e]; try assumption. lia.
      * destruct Hh as (row & col & Hraise).
        assert (Hin : In (row, col) coords).
        { apply (is_valid_move_reaches_board b). rewrite Hraise. discriminate. }
        pose proof (proj1 (forallb_forall _ _) Hsafe _ Hin) as Hrc.
        cbn [fst snd] in Hrc. rewrite Hraise in Hrc. discriminate.
    + destruct (ai_turn frames self b) as [b1|e]; [|discriminate].
      unfold after_move.
      destruct (is_game_over b1) as [[[|] res]|e]; [| |discriminate].
      * destruct (announce self res); [discriminate|discriminate Hsafe|discriminate].
      * specialize (IH _ _ Hsafe turns lines_in).
        destruct (game_loop turns frames self (human_player self) b1 lines_in)
          as [[[bf v] rest']| | |e]; try assumption. lia.
Qed.

(** ** A larger frame budget changes nothing *)

Lemma minimax_unfold (frames : nat) (self : MinimaxAI) (b : board) (depth : Z)
      (is_maximizing : bool) (alpha beta : num) :
  minimax (S frames) self b depth is_maximizing alpha beta
  = ('(is_over, _) <- is_game_over b ;;
     if is_over then
       score <- evaluate_board self b ;;
       if 0 <? score then Ok (b, Fin (score - depth))
       else if score <? 0 then Ok (b, Fin (score + depth))
       else Ok (b, Fin 0)
     else if is_maximizing then
       moves <- get_available_moves b ;;
       max_loop (fun b' a' b'' => minimax frames self b' (depth + 1) false a' b'')
                (ai_player self) moves b NegInf alpha beta
     else
       moves <- get_available_moves b ;;
       min_loop (fun b' a' b'' => minimax frames self b' (depth + 1) true a' b'')
                (human_player self) moves b PosInf alpha beta).
Proof. reflexivity. Qed.

Section LoopMonotone.

Variables recurse1 recurse2 : board -> num -> num -> result (board * num).
Variable mark : string.
Hypothesis Hrec :
  forall b alpha beta r, recurse1 b alpha beta = Ok r -> recurse2 b alpha beta = Ok r.

Lemma max_loop_mono (moves : list (Z * Z)) :
  forall b max_eval alpha beta r,
    max_loop recurse1 mark moves b max_eval alpha beta = Ok r ->
    max_loop recurse2 mark moves b max_eval alpha beta = Ok r.
Proof.
  induction moves as [|[row col] rest IH]; intros b max_eval alpha beta r H.
  - exact H.
  - cbn [max_loop] in *.
    destruct (set_cell b row col mark) as [b1|e]; [|discriminate H].
    cbn [bind] in *.
    destruct (recurse1 b1 alpha beta) as [[b2 y]|e] eqn:E; [|discriminate H].
    rewrite (Hrec _ _ _ _ E). cbn [bind] in *.
    destruct (set_cell b2 row col " ") as [b3|e]; [|discriminate H].
    cbn [bind] in *.
    destruct (num_leb beta (py_max alpha y)); [exact H|now apply IH].
Qed.

Lemma min_loop_mono (moves : list (Z * Z)) :
  forall b min_eval alpha beta r,
    min_loop recurse1 mark moves b min_eval alpha beta = Ok r ->
    min_loop recurse2 mark moves b min_eval alpha beta = Ok r.
Proof.
  induction moves as [|[row col] rest IH]; intros b min_eval alpha beta r H.
  - exact H.
  - cbn [min_loop] in *.
    destruct (set_cell b row col mark) as [b1|e]; [|discriminate H].
    cbn [bind] in *.
    destruct (recurse1 b1 alpha beta) as [[b2 y]|e] eqn:E; [|discriminate H].
    rewrite (Hrec _ _ _ _ E). cbn [bind] in *.
    destruct (set_cell b2 row col " ") as [b3|e]; [|discriminate H].
    cbn [bind] in *.
    destruct (num_leb (py_min beta y) alpha); [exact H|now apply IH].
Qed.

End LoopMonotone.

Lemma minimax_more_frames (self : MinimaxAI) :
  forall frames b depth is_maximizing alpha beta r,
    minimax frames self b depth is_maximizing alpha beta = Ok r ->
    minimax (S frames) self b depth is_maximizing alpha beta = Ok r.
Proof.
  induction frames as [|frames IH]; intros b d m alpha beta r H.
  - discriminate H.
  - rewrite minimax_unfold. rewrite minimax_unfold in H.
    destruct (is_game_over b) as [[over res]|e]; [|discriminate H].
    cbn [bind] in *. destruct over; [exact H|].
    destruct m.
    + destruct (get_available_moves b) as [moves|e]; [|discriminate H].
      cbn [bind] in *.
      apply (max_loop_mono
               (fun b' a' b'' => minimax frames self b' (d + 1) false a' b'')
               (fun b' a' b'' => minimax (S frames) self b' (d + 1) false a' b''));
        [|exact H].
      intros b' a' be' r'. apply IH.
    + destruct (get_available_moves b) as [moves|e]; [|discriminate H].
      cbn [bind] in *.
      apply (min_loop_mono
               (fun b' a' b'' => minimax frames self b' (d + 1) true a' b'')
               (fun b' a' b'' => minimax (S frames) self b' (d + 1) true a' b''));
        [|exact H].
      intros b' a' be' r'. apply IH.
Qed.

Lemma best_loop_more_frames (frames : nat) (self : MinimaxAI) :
  forall moves b best_score best_move r,
    best_loop frames self moves b best_score best_move = Ok r ->
    best_loop (S frames) self moves b best_score best_move = Ok r.
Proof.
  induction moves as [|[row col] rest IH]; intros b bs bm r H.
  - exact H.
  - cbn [best_loop] in *.
    destruct (set_cell b row col (ai_player self)) as [b1|e]; [|discriminate H].
    cbn [bind] in *.
    destruct (minimax frames self b1 0 false NegInf PosInf)
      as [[b2 y]|e] eqn:E; [|discriminate H].
    rewrite (minimax_more_frames self _ _ _ _ _ _ _ E). cbn [bind] in *.
    destruct (set_cell b2 row col " ") as [b3|e]; [|discriminate H].
    cbn [bind] in *.
    destruct (num_ltb bs y); now apply IH.
Qed.

Lemma get_best_move_more_frames (frames : nat) (self : MinimaxAI) (b : board)
      (r : board * option (Z * Z)) :
  get_best_move frames self b = Ok r ->
  get_best_move (S frames) self b = Ok r.
Proof.
  unfold get_best_move. intros H.
  destruct (get_available_moves b) as [moves|e]; [|discriminate H].
  cbn [bind] in *.
  destruct (best_loop frames self moves b NegInf None) as [res|e] eqn:E;
    [|discriminate H].
  now rewrite (best_loop_more_frames frames self _ _ _ _ _ E).
Qed.

Lemma ai_turn_more_frames (frames : nat) (self : MinimaxAI) (b b1 : board) :
  ai_turn frames self b = Ok b1 -> ai_turn (S frames) self b = Ok b1.
Proof.
  unfold ai_turn. intros H.
  destruct (get_best_move frames self b) as [res|e] eqn:E; [|discriminate H].
  now rewrite (get_best_move_more_frames frames self b res E).
Qed.

Lemma safe_more_frames (frames : nat) (self : MinimaxAI) :
  forall n current b,
    safe n frames self current b = true ->
    safe n (S frames) self current b = true.
Proof.
  induction n as [|n IH]; intros current b H; [discriminate H|].
  cbn [safe] in *.
  destruct (String.eqb current (human_player self)).
  - apply forallb_forall. intros rc Hin.
    pose proof (proj1 (forallb_forall _ _) H rc Hin) as Hrc.
    cbv beta in Hrc.
    destruct (is_valid_move b (fst rc) (snd rc)) as [[|]|e]; try assumption.
    destruct (make_move b (fst rc) (snd rc) (human_player self))
      as [[b1 ok]|e]; [|assumption].
    destruct (is_game_over b1) as [[[|] res]|e]; try assumption.
    now apply IH.
  - destruct (ai_turn frames self b) as [b1|e] eqn:E; [|discriminate H].
    rewrite (ai_turn_more_frames frames self b b1 E).
    destruct (is_game_over b1) as [[[|] res]|e]; try assumption.
    now apply IH.
Qed.

Lemma safe_frames_le (self : MinimaxAI) (n : nat) (current : string)
      (b : board) (frames frames' : nat) :
  (frames <= frames')%nat ->
  safe n frames self current b = true ->
  safe n frames' self current b = true.
Proof.
  induction 1 as [|f Hle IH]; intros H; [assumption|].
  apply safe_more_frames. now apply IH.
Qed.

(** X12: whatever the human types, the console game started on the
    empty board with the human (X) to move never announces a human win
    and never fails: within nine iterations it announces a draw or an AI
    win, unless the input runs out first. This holds for every frame
    budget of at least 10. *)
Theorem play_game_never_lost (frames turns : nat)
        (lines_in : list (option Z)) :
  (10 <= frames)%nat -> (9 <= turns)%nat ->
  match game_loop turns frames O_vs_X "X" initial_board lines_in with
  | Done (_, v, _) => v = ItsADraw \/ v = AIWins
  | EndOfInput => True
  | Unfinished => False
  | Failed _ => False
  end.
Proof.
  intros Hf Ht.
  assert (Hsafe : safe 9 frames O_vs_X "X" initial_board = true).
  { apply (safe_frames_le O_vs_X 9 "X" initial_board 10 frames Hf).
    vm_compute. reflexivity. }
  pose proof (safe_sound frames O_vs_X 9 "X" initial_board Hsafe
                         turns lines_in) as H.
  destruct (game_loop turns frames O_vs_X "X" initial_board lines_in)
    as [[[bf v] rest]| | |e]; try assumption.
  - destruct v; auto. contradiction.
  - lia.
Qed.

Lemma play_game_never_lost_witness :
  match game_loop 9 10 O_vs_X "X" initial_board
                  [Some 1; Some 1; None; Some 0; Some 1; Some 2; Some 1;
                   Some 1; Some 0; Some 0; Some 2; Some 2; Some 2]
  with
  | Done (_, v, _) => v = ItsADraw \/ v = AIWins
  | EndOfInput => True
  | Unfinished => False
  | Failed _ => False
  end.
Proof.
  apply (play_game_never_lost 10 9); lia.
Defined.

Lemma get_human_move_exact (b : board) :
  forall n lines_in,
    (List.length lines_in <= n)%nat ->
    match get_human_move b lines_in with
    | Done (rc, rest) =>
        exists skipped,
          rejected b skipped /\
          lines_in = skipped ++ Some (fst rc) :: Some (snd rc) :: rest /\
          is_valid_move b (fst rc) (snd rc) = Ok true
    | EndOfInput =>
        exists skipped,
          rejected b skipped /\
          (lines_in = skipped \/ exists row, lines_in = skipped ++ [Some row])
    | Unfinished => False
    | Failed e => exists row col, is_valid_move b row col = Raise e
    end.
Proof.
  induction n as [|n IH]; intros lines_in Hlen.
  - destruct lines_in; [|inversion Hlen].
    exists []. split; [constructor|]. now left.
  - destruct lines_in as [|[row|] rest].
    + exists []. split; [constructor|]. now left.
    + destruct rest as [|[col|] rest'].
      * exists []. split; [constructor|]. right. now exists row.
      * cbn [get_human_move].
        destruct (is_valid_move b row col) as [[|]|e] eqn:E.
        -- exists []. split; [constructor|]. cbn [fst snd app]. now split.
        -- specialize (IH rest' ltac:(simpl in Hlen; lia)).
           destruct (get_human_move b rest') as [[rc rest'']| | |e];
             try assumption.
           ++ destruct IH as (sk & Hsk & -> & Hv).
              exists (Some row :: Some col :: sk).
              split; [now constructor|]. now split.
           ++ destruct IH as (sk & Hsk & Hl).
              exists (Some row :: Some col :: sk).
              split; [now constructor|].
              destruct Hl as [-> | (r' & ->)]; [now left|right; now exists r'].
        -- eauto.
      * cbn [get_human_move].
        specialize (IH rest' ltac:(simpl in Hlen; lia)).
        destruct (get_human_move b rest') as [[rc rest'']| | |e];
          try assumption.
        -- destruct IH as (sk & Hsk & -> & Hv).
           exists (Some row :: None :: sk).
           split; [now constructor|]. now split.
        -- destruct IH as (sk & Hsk & Hl).
           exists (Some row :: None :: sk).
           split; [now constructor|].
           destruct Hl as [-> | (r' & ->)]; [now left|right; now exists r'].
    + cbn [get_human_move].
      specialize (IH rest ltac:(simpl in Hlen; lia)).
      destruct (get_human_move b rest) as [[rc rest'']| | |e];
        try assumption.
      * destruct IH as (sk & Hsk & -> & Hv).
        exists (None :: sk). split; [now constructor|]. now split.
      * destruct IH as (sk & Hsk & Hl).
        exists (None :: sk). split; [now constructor|].
        destruct Hl as [-> | (r' & ->)]; [now left|right; now exists r'].
Qed.

(** X13: on a 3x3 board [get_human_move] never fails. It returns a pair
    exactly by skipping a run of rejected attempts (a row line that is no
    integer, a column line that is no integer, a pair that is no valid
    move) and then reading a row and a column that [is_valid_move]
    accepts, so that the [make_move] that follows succeeds; it runs out
    of input only when all the lines are rejected attempts, possibly with
    one row line left over. *)
Theorem get_human_move_returns_valid (b : board) (lines_in : list (option Z))
        (player : string) :
  wf_board b = true ->
  match get_human_move b lines_in with
  | Done (rc, rest) =>
      (exists skipped,
          rejected b skipped /\
          lines_in = skipped ++ Some (fst rc) :: Some (snd rc) :: rest) /\
      is_valid_move b (fst rc) (snd rc) = Ok true /\
      (exists b', make_move b (fst rc) (snd rc) player = Ok (b', true))
  | EndOfInput =>
      exists skipped,
        rejected b skipped /\
        (lines_in = skipped \/ exists row, lines_in = skipped ++ [Some row])
  | Unfinished => False
  | Failed _ => False
  end.
Proof.
  intros Hwf.
  pose proof (get_human_move_exact b _ lines_in (le_n _)) as H.
  destruct (get_human_move b lines_in) as [[[row col] rest]| | |e];
    try assumption.
  - destruct H as (sk & Hsk & Hl & Hv). cbn [fst snd] in *.
    split; [now exists sk|]. split; [assumption|].
    assert (Hin : In (row, col) coords).
    { apply (is_valid_move_reaches_board b). rewrite Hv. discriminate. }
    destruct (set_cell_coords b row col player Hwf Hin) as (b' & Hset & _).
    exists b'. unfold make_move. rewrite Hv. cbn [bind]. now rewrite Hset.
  - destruct H as (row & col & Hraise).
    destruct (is_valid_move_wf b row col Hwf) as (v & Hv & _).
    rewrite Hv in Hraise. discriminate.
Qed.

Lemma get_human_move_returns_valid_witness :
  match get_human_move board_block [None; Some 0; Some 0; Some 7; None;
                                    Some 1; Some 1; Some 2]
  with
  | Done (rc, rest) =>
      (exists skipped,
          rejected board_block skipped /\
          [None; Some 0; Some 0; Some 7; None; Some 1; Some 1; Some 2]
          = skipped ++ Some (fst rc) :: Some (snd rc) :: rest) /\
      is_valid_move board_block (fst rc) (snd rc) = Ok true /\
      (exists b', make_move board_block (fst rc) (snd rc) "O" = Ok (b', true))
  | EndOfInput =>
      exists skipped,
        rejected board_block skipped /\
        ([None; Some 0; Some 0; Some 7; None; Some 1; Some 1; Some 2] = skipped
         \/ exists row,
             [None; Some 0; Some 0; Some 7; None; Some 1; Some 1; Some 2]
             = skipped ++ [Some row])
  | Unfinished => False
  | Failed _ => False
  end.
Proof.
  apply (get_human_move_returns_valid board_block _ "O"). reflexivity.
Defined.

(** * Blocking a threat *)

Lemma cell_or_get (b : board) (r c : Z) (x : string) :
  wf_board b = true -> In (r, c) coords ->
  (cell_or b (r, c) = x <-> get_cell b r c = Ok x).
Proof.
  intros Hwf Hin. destruct (get_cell_total b r c Hwf Hin) as [y Hy].
  unfold cell_or. cbn [fst snd]. rewrite Hy. split; congruence.
Qed.

Lemma in_empty_cells_cell_or (b : board) (p : Z * Z) :
  wf_board b = true ->
  (In p (empty_cells b) <-> In p coords /\ cell_or b p = " ").
Proof.
  intros Hwf. destruct p as [r c]. rewrite in_empty_cells. split.
  - intros [Hc Hg]. split; [assumption|]. now apply cell_or_get.
  - intros [Hc Hg]. split; [assumption|]. now apply cell_or_get.
Qed.

Lemma cell_or_set (b b1 : board) (p : Z * Z) (v : string) :
  wf_board b = true -> In p coords ->
  set_cell b (fst p) (snd p) v = Ok b1 ->
  wf_board b1 = true /\ cell_or b1 p = v /\
  forall q, In q coords -> q <> p -> cell_or b1 q = cell_or b q.
Proof.
  intros Hwf Hin Hset. destruct p as [r c]. cbn [fst snd] in Hset.
  destruct (set_cell_coords b r c v Hwf Hin) as (b' & Hset' & Hwf' & Hnew & Hfr).
  rewrite Hset in Hset'. inversion Hset'. subst b'.
  split; [assumption|]. split.
  - now apply cell_or_get.
  - intros [r' c'] Hq Hne. unfold cell_or. cbn [fst snd].
    now rewrite Hfr.
Qed.

Lemma has_line_ext (b b' : board) (m : string) :
  wf_board b = true -> wf_board b' = true ->
  (forall p, In p coords -> cell_or b p = m -> cell_or b' p = m) ->
  has_line b m = true -> has_line b' m = true.
Proof.
  intros Hwf Hwf' Hext Hl.
  unfold has_line in *. apply existsb_exists in Hl.
  destruct Hl as ([[p q] r] & Hin & Hh).
  apply existsb_exists. exists (p, q, r). split; [assumption|].
  destruct (line_points p q r Hin) as (Hp & Hq & Hr).
  rewrite !holds_cell_or in * by assumption.
  rewrite !andb_true_iff, !String.eqb_eq in *.
  destruct Hh as ((H1 & H2) & H3). auto.
Qed.

(** A board on which no mark other than the blank has a line has no
    winner. *)
Lemma first_line_none_iff (self : MinimaxAI) (b b0 : board) :
  wf_board b = true -> wf_board b0 = true -> marks_of self b0 = true ->
  (forall w, w <> ai_player self -> w <> human_player self ->
             has_line b w = true -> has_line b0 w = true) ->
  has_line b (ai_player self) = false ->
  has_line b (human_player self) = false ->
  first_line b = None.
Proof.
  intros Hwf Hwf0 Hm Hback Ha Hh.
  destruct (first_line b) as [w|] eqn:E; [|reflexivity].
  destruct (first_line_some b w Hwf E) as [Hw Hl].
  destruct (string_dec w (ai_player self)) as [-> | Hna]; [congruence|].
  destruct (string_dec w (human_player self)) as [-> | Hnh]; [congruence|].
  destruct (has_line_mark self b0 w Hwf0 Hm (Hback w Hna Hnh Hl))
    as [-> | [-> | ->]]; congruence.
Qed.

Lemma py_min_le_r (a c : num) (y : Z) :
  num_leb c (py_min a (Fin y)) = true -> num_leb c (Fin y) = true.
Proof. intros. num_lia [a; c; Fin y]. Qed.

Section PlainMinLoop.

Variable recurse_plain : board -> result (board * num).
Variable mark : string.
Variable b : board.
Hypothesis Hwf : wf_board b = true.

Lemma plain_min_loop_le (moves : list (Z * Z)) :
  (forall r c, In (r, c) moves -> In (r, c) (empty_cells b)) ->
  (forall r c b1, In (r, c) moves -> set_cell b r c mark = Ok b1 ->
                  exists x, recurse_plain b1 = Ok (b1, Fin x)) ->
  forall m, m <> NegInf ->
    exists M,
      plain_min_loop recurse_plain mark moves b m = Ok (b, M) /\
      num_leb M m = true /\
      forall r c b1 x,
        In (r, c) moves -> set_cell b r c mark = Ok b1 ->
        recurse_plain b1 = Ok (b1, Fin x) -> num_leb M (Fin x) = true.
Proof.
  induction moves as [|[r c] rest IH]; intros Hin Hch m Hm.
  - exists m. cbn [plain_min_loop]. split; [reflexivity|].
    split; [apply num_leb_refl|]. intros r c b1 x [].
  - destruct (try_candidate b r c mark Hwf (Hin r c (or_introl eq_refl)))
      as (b1 & Hset & Hwf1 & Hundo).
    destruct (Hch r c b1 (or_introl eq_refl) Hset) as (x0 & Hx0).
    destruct (py_min_fin m x0 Hm) as (z & Hz).
    destruct (IH (fun r' c' H => Hin r' c' (or_intror H))
                 (fun r' c' b' H => Hch r' c' b' (or_intror H))
                 (py_min m (Fin x0)))
      as (M & HM & Hle & Hall).
    { rewrite Hz. discriminate. }
    exists M. cbn [plain_min_loop]. rewrite Hset. cbn [bind].
    rewrite Hx0. cbn [bind]. rewrite Hundo. cbn [bind].
    split; [assumption|]. split; [now apply (py_min_le m (Fin x0))|].
    intros r' c' b1' x [E | Hr] Hset' Hx.
    + inversion E. subst r' c'. rewrite Hset in Hset'. inversion Hset'.
      subst b1'. rewrite Hx0 in Hx. inversion Hx. subst x.
      now apply (py_min_le_r m).
    + now apply (Hall r' c' b1' x).
Qed.

End PlainMinLoop.

Lemma leaf_value_not_lost (self : MinimaxAI) (b : board) (d : Z) :
  winner_is (first_line b) (human_player self) = false ->
  leaf_value self b d = 10 - d \/ leaf_value self b d = 0.
Proof.
  intros H. unfold leaf_value. rewrite H.
  destruct (winner_is (first_line b) (ai_player self)); cbn; auto.
Qed.

Lemma no_line_not_winner (b : board) (m : string) :
  wf_board b = true -> has_line b m = false ->
  winner_is (first_line b) m = false.
Proof.
  intros Hwf Hl. destruct (first_line b) as [w|] eqn:E; [|reflexivity].
  cbn [winner_is]. apply String.eqb_neq. intros ->.
  destruct (first_line_some b m Hwf E) as [_ H]. congruence.
Qed.

Section Blocking.

Variable self : MinimaxAI.
Variable b : board.
Variable t : Z * Z.
Hypothesis Hwf : wf_board b = true.
Hypothesis Hmarks : marks_of self b = true.
Hypothesis Hdiff : ai_player self <> human_player self.
Hypothesis Hai : ai_player self <> " ".
Hypothesis Hhu : human_player self <> " ".
Hypothesis Hhu' : human_player self <> "".
Hypothesis Hno_hu : has_line b (human_player self) = false.
Hypothesis Ht : In t (empty_cells b).
Hypothesis Hthreat : wins_at b (human_player self) t = true.
Hypothesis Honly :
  forall rc, In rc (empty_cells b) -> rc <> t ->
             wins_at b (human_player self) rc = false.
Hypothesis Hnowin :
  forall rc, In rc (empty_cells b) -> wins_at b (ai_player self) rc = false.

(** The board after the AI's candidate [m]. *)
Lemma after_candidate (m : Z * Z) (b1 : board) :
  In m (empty_cells b) ->
  set_cell b (fst m) (snd m) (ai_player self) = Ok b1 ->
  wf_board b1 = true /\
  cell_or b1 m = ai_player self /\
  (forall q, In q coords -> q <> m -> cell_or b1 q = cell_or b q) /\
  has_line b1 (ai_player self) = false /\
  has_line b1 (human_player self) = false /\
  first_line b1 = None.
Proof.
  intros Hm Hset.
  pose proof Hm as Hm'. apply (in_empty_cells_cell_or b m Hwf) in Hm'.
  destruct Hm' as [Hc Hblank].
  destruct (cell_or_set b b1 m _ Hwf Hc Hset) as (Hwf1 & Hnew & Hfr).
  assert (Ha : has_line b1 (ai_player self) = false).
  { pose proof (Hnowin m Hm) as H. unfold wins_at in H. now rewrite Hset in H. }
  assert (Hh : has_line b1 (human_player self) = false).
  { destruct (has_line b1 (human_player self)) eqn:E; [|reflexivity].
    destruct m as [r c].
    rewrite (has_line_after_set b b1 r c _ _ Hwf Hc Hset
               (fun H => Hdiff (eq_sym H)) E) in Hno_hu.
    discriminate. }
  repeat (split; [assumption|]).
  apply (first_line_none_iff self b1 b Hwf1 Hwf Hmarks); try assumption.
  intros w Hna _ Hl. destruct m as [r c].
  now apply (has_line_after_set b b1 r c (ai_player self) w).
Qed.

(** The board after the AI's candidate [m] and the human's reply [c]. *)
Lemma after_reply (m c : Z * Z) (b1 b2 bh : board) :
  In m (empty_cells b) ->
  set_cell b (fst m) (snd m) (ai_player self) = Ok b1 ->
  In c (empty_cells b1) ->
  set_cell b1 (fst c) (snd c) (human_player self) = Ok b2 ->
  set_cell b (fst c) (snd c) (human_player self) = Ok bh ->
  In c (empty_cells b) /\ c <> m /\
  wf_board b2 = true /\
  has_line b2 (human_player self) = has_line bh (human_player self).
Proof.
  intros Hm Hset Hcin Hset2 Hseth.
  destruct (after_candidate m b1 Hm Hset) as (Hwf1 & Hnew & Hfr & _).
  pose proof Hm as Hm'. apply (in_empty_cells_cell_or b m Hwf) in Hm'.
  destruct Hm' as [Hmc Hmblank].
  pose proof Hcin as Hc'. apply (in_empty_cells_cell_or b1 c Hwf1) in Hc'.
  destruct Hc' as [Hcc Hcblank].
  assert (Hcm : c <> m) by (intros ->; congruence).
  assert (Hcb : In c (empty_cells b)).
  { apply (in_empty_cells_cell_or b c Hwf). split; [assumption|].
    now rewrite <- (Hfr c Hcc Hcm). }
  destruct (cell_or_set b1 b2 c _ Hwf1 Hcc Hset2) as (Hwf2 & Hnew2 & Hfr2).
  destruct (cell_or_set b bh c _ Hwf Hcc Hseth) as (Hwfh & Hnewh & Hfrh).
  repeat (split; [assumption|]).
  destruct (has_line bh (human_player self)) eqn:E.
  - apply (has_line_ext bh b2 _ Hwfh Hwf2); [|assumption].
    intros p Hp Hcell.
    destruct (Z.eq_dec (fst p) (fst c)) as [E1|N1];
      [destruct (Z.eq_dec (snd p) (snd c)) as [E2|N2]|].
    + assert (p = c) by (destruct p, c; cbn in *; congruence). now subst p.
    + assert (Hpc : p <> c) by (intros ->; now apply N2).
      rewrite (Hfrh p Hp Hpc) in Hcell.
      assert (Hpm : p <> m) by (intros ->; congruence).
      now rewrite (Hfr2 p Hp Hpc), (Hfr p Hp Hpm).
    + assert (Hpc : p <> c) by (intros ->; now apply N1).
      rewrite (Hfrh p Hp Hpc) in Hcell.
      assert (Hpm : p <> m) by (intros ->; congruence).
      now rewrite (Hfr2 p Hp Hpc), (Hfr p Hp Hpm).
  - destruct (has_line b2 (human_player self)) eqn:E2; [|reflexivity].
    rewrite <- E. symmetry.
    apply (has_line_ext b2 bh _ Hwf2 Hwfh); [|assumption].
    intros p Hp Hcell.
    destruct (Z.eq_dec (fst p) (fst c)) as [E1|N1];
      [destruct (Z.eq_dec (snd p) (snd c)) as [E3|N2]|].
    + assert (p = c) by (destruct p, c; cbn in *; congruence). now subst p.
    + assert (Hpc : p <> c) by (intros ->; now apply N2).
      rewrite (Hfr2 p Hp Hpc) in Hcell.
      assert (Hpm : p <> m) by (intros ->; congruence).
      rewrite (Hfr p Hp Hpm) in Hcell. now rewrite (Hfrh p Hp Hpc).
    + assert (Hpc : p <> c) by (intros ->; now apply N1).
      rewrite (Hfr2 p Hp Hpc) in Hcell.
      assert (Hpm : p <> m) by (intros ->; congruence).
      rewrite (Hfr p Hp Hpm) in Hcell. now rewrite (Hfrh p Hp Hpc).
Qed.

Variable frames : nat.
Hypothesis Hlen : (List.length (empty_cells b) <= frames)%nat.

(** A candidate that leaves the threat open is worth at most -9: the
    human completes the line at depth 1. *)
Lemma nonblock_score (m : Z * Z) :
  In m (empty_cells b) -> m <> t ->
  exists y, candidate_score frames self b 0 m = Ok (b, Fin y) /\ y <= -9.
Proof.
  intros Hm Hmt. destruct m as [r c].
  destruct (root_candidate frames self b r c Hai Hhu Hwf Hlen Hm)
    as (b1 & y & Hset & Hy & Hplain & Hundo).
  exists y.
  split; [now apply (candidate_score_unfold frames self b b1 r c y)|].
  destruct (after_candidate (r, c) b1 Hm Hset)
    as (Hwf1 & Hnew & Hfr & Ha1 & Hh1 & Hfl1).
  pose proof Ht as Htb. apply (in_empty_cells_cell_or b t Hwf) in Htb.
  destruct Htb as [Htc Htblank].
  assert (Ht1 : In (fst t, snd t) (empty_cells b1)).
  { rewrite <- surjective_pairing.
    apply (in_empty_cells_cell_or b1 t Hwf1). split; [assumption|].
    rewrite (Hfr t Htc); [assumption|congruence]. }
  destruct (try_candidate b1 (fst t) (snd t) (human_player self) Hwf1 Ht1)
    as (b2 & Hset2 & Hwf2 & _).
  pose proof Hthreat as Hbh. unfold wins_at in Hbh.
  destruct (set_cell b (fst t) (snd t) (human_player self)) as [bh|e] eqn:Hseth;
    [|discriminate].
  rewrite <- surjective_pairing in Ht1.
  destruct (after_reply (r, c) t b1 b2 bh Hm Hset Ht1 Hset2 Hseth)
    as (_ & _ & _ & Hline).
  rewrite Hbh in Hline.
  assert (Hfl2 : first_line b2 = Some (human_player self)).
  { destruct (first_line b2) as [w|] eqn:E.
    - destruct (first_line_some b2 w Hwf2 E) as [Hw Hlw].
      destruct (string_dec w (human_player self)) as [-> | Hnh]; [reflexivity|].
      assert (Hl1 : has_line b1 w = true).
      { apply (has_line_after_set b1 b2 (fst t) (snd t)
                                  (human_player self) w Hwf1);
          try assumption. now rewrite <- surjective_pairing. }
      destruct (string_dec w (ai_player self)) as [-> | Hna]; [congruence|].
      assert (Hl0 : has_line b w = true).
      { apply in_empty_cells in Hm. destruct Hm as [Hmc _].
        now apply (has_line_after_set b b1 r c (ai_player self) w). }
      destruct (has_line_mark self b w Hwf Hmarks Hl0) as [-> | [-> | ->]];
        congruence.
    - rewrite (first_line_none b2 _ Hwf2 E Hhu) in Hline. discriminate. }
  pose proof (empty_cells_set b b1 r c _ Hwf Hm Hai Hset) as Hcount1.
  destruct frames as [|f]; [discriminate Hplain|].
  rewrite (minimax_plain_step _ _ _ _ _ Hwf1) in Hplain.
  rewrite Hfl1 in Hplain. cbn [truthy orb] in Hplain.
  destruct (is_board_full b1) eqn:Hfull.
  { rewrite (full_no_empty b1 Hwf1 Hfull) in Ht1. contradiction. }
  destruct (plain_min_loop_le
              (fun b' => minimax_plain f self b' (0 + 1) true)
              (human_player self) b1 Hwf1 (empty_cells b1)
              (fun r' c' H => H)) with (m := PosInf)
    as (M & HM & _ & Hall).
  { intros r' c' b' Hin' Hset'.
    destruct (try_candidate b1 r' c' (human_player self) Hwf1 Hin')
      as (b'' & Hs'' & Hwf'' & _).
    rewrite Hset' in Hs''. inversion Hs''. subst b''.
    pose proof (empty_cells_set b1 b' r' c' _ Hwf1 Hin' Hhu Hset') as Hcount2.
    destruct (minimax_sound self Hai Hhu f b' Hwf'' ltac:(lia) (0 + 1) true)
      as (x & Hx & _).
    now exists x. }
  { discriminate. }
  rewrite Hplain in HM. inversion HM. subst M.
  rewrite (surjective_pairing t) in Ht1.
  pose proof (empty_cells_set b1 b2 (fst t) (snd t) _ Hwf1 Ht1 Hhu Hset2)
    as Hcount2.
  assert (Hleaf : minimax_plain f self b2 (0 + 1) true = Ok (b2, Fin (-9))).
  { destruct f as [|f']; [lia|].
    rewrite (minimax_plain_step _ _ _ _ _ Hwf2). rewrite Hfl2.
    cbn [truthy]. apply String.eqb_neq in Hhu'. rewrite Hhu'. cbn [negb orb].
    unfold leaf_value. rewrite Hfl2. cbn [winner_is].
    assert (E : String.eqb (human_player self) (ai_player self) = false)
      by (apply String.eqb_neq; congruence).
    rewrite E, String.eqb_refl. reflexivity. }
  specialize (Hall (fst t) (snd t) b2 (-9) Ht1 Hset2 Hleaf).
  simpl in Hall. now apply Z.leb_le.
Qed.

(** The blocking candidate is worth at least -8: the human cannot win at
    depth 1. *)
Lemma block_score :
  exists y, candidate_score frames self b 0 t = Ok (b, Fin y) /\ -8 <= y.
Proof.
  pose proof Ht as Ht'. rewrite (surjective_pairing t) in Ht'.
  destruct (root_candidate frames self b (fst t) (snd t) Hai Hhu Hwf Hlen Ht')
    as (b1 & y & Hset & Hy & _ & Hundo).
  exists y. split.
  { rewrite (surjective_pairing t).
    now apply (candidate_score_unfold frames self b b1 (fst t) (snd t) y). }
  destruct (after_candidate t b1 Ht Hset)
    as (Hwf1 & Hnew & Hfr & Ha1 & Hh1 & Hfl1).
  pose proof (empty_cells_set b b1 (fst t) (snd t) _ Hwf Ht' Hai Hset)
    as Hcount1.
  pose proof (empty_cells_at_most_nine b Hwf) as Hnine.
  destruct frames as [|f]; [discriminate Hy|].
  rewrite (minimax_step _ _ _ _ _ _ _ Hwf1) in Hy.
  rewrite Hfl1 in Hy. cbn [truthy orb] in Hy.
  destruct (is_board_full b1) eqn:Hfull.
  - inversion Hy. unfold leaf_value. rewrite Hfl1. cbn. lia.
  - destruct (min_loop_range
                (fun b' a' b'' => minimax f self b' (0 + 1) true a' b'')
                (human_player self) b1 (-8) 9 Hwf1 (empty_cells b1)
                (fun r c H => H)) with (min_eval := PosInf)
                                       (alpha := NegInf) (beta := PosInf)
      as (ME & HME & Hcases).
    + intros r c b2 Hin Hset2 alpha beta.
      destruct (try_candidate b1 r c (human_player self) Hwf1 Hin)
        as (b2' & Hs2 & Hwf2 & _).
      rewrite Hset2 in Hs2. inversion Hs2. subst b2'.
      pose proof (empty_cells_set b1 b2 r c _ Hwf1 Hin Hhu Hset2) as Hcount2.
      destruct (minimax_range self Hai Hhu f b2 Hwf2 ltac:(lia) (0 + 1) true
                              alpha beta ltac:(lia) ltac:(lia))
        as (z & Hz & _ & Hterm & Hnon).
      exists z. split; [assumption|].
      destruct (truthy (first_line b2) || is_board_full b2) eqn:Hflag.
      * rewrite (Hterm eq_refl).
        assert (Hcb1 : In (r, c) (empty_cells b1)) by assumption.
        pose proof Hin as Hcc. apply in_empty_cells in Hcc.
        destruct Hcc as [Hcc Hcblank].
        destruct (set_cell_coords b r c (human_player self) Hwf Hcc)
          as (bh & Hseth & _).
        destruct (after_reply t (r, c) b1 b2 bh Ht Hset Hcb1 Hset2 Hseth)
          as (Hcb & Hct & _ & Hline).
        pose proof (Honly (r, c) Hcb Hct) as Hno. unfold wins_at in Hno.
        cbn [fst snd] in Hno. rewrite Hseth in Hno. rewrite Hno in Hline.
        destruct (leaf_value_not_lost self b2 (0 + 1)
                    (no_line_not_winner b2 _ Hwf2 Hline)) as [-> | ->]; lia.
      * specialize (Hnon eq_refl). lia.
    + now left.
    + rewrite Hy in HME. inversion HME. subst ME.
      destruct Hcases as [[Hnil _] | (z & E & Hz)].
      * now contradiction (not_full_has_empty b1 Hwf1 Hfull).
      * inversion E. lia.
Qed.

(** X14: when the opponent, who has no line yet, has exactly one empty
    cell [t] that would complete a line of theirs, and the AI has no cell
    that wins at once, [get_best_move] returns [t]: it blocks. *)
Theorem get_best_move_blocks :
  get_best_move frames self b = Ok (b, Some t).
Proof.
  assert (Hne : empty_cells b <> [])
    by (intros E; rewrite E in Ht; contradiction).
  destruct (get_best_move_in_empty_cells frames self b Hwf Hai Hhu Hne Hlen)
    as (pre & mv & post & s & E & Hbest & Hs & Hmax).
  assert (Hin : In mv (empty_cells b))
    by (rewrite E; apply in_or_app; simpl; auto).
  destruct block_score as (yt & Hyt & Hge).
  destruct (Hmax t Ht) as (st & Hst & Hle).
  pose proof (candidate_score_inj _ _ _ _ _ _ Hyt Hst) as <-.
  destruct (Z.eq_dec (fst mv) (fst t)) as [E1|N1];
    [destruct (Z.eq_dec (snd mv) (snd t)) as [E2|N2]|].
  - assert (mv = t) by (destruct mv, t; cbn in *; congruence). now subst mv.
  - assert (Hne' : mv <> t) by (intros ->; now apply N2).
    destruct (nonblock_score mv Hin Hne') as (y & Hy & Hyle).
    pose proof (candidate_score_inj _ _ _ _ _ _ Hy Hs) as <-. lia.
  - assert (Hne' : mv <> t) by (intros ->; now apply N1).
    destruct (nonblock_score mv Hin Hne') as (y & Hy & Hyle).
    pose proof (candidate_score_inj _ _ _ _ _ _ Hy Hs) as <-. lia.
Qed.

End Blocking.

Lemma get_best_move_blocks_witness :
  get_best_move 10 O_vs_X board_block = Ok (board_block, Some (0, 2)).
Proof.
  apply (get_best_move_blocks O_vs_X board_block (0, 2)).
  - reflexivity.
  - reflexivity.
  - discriminate.
  - discriminate.
  - discriminate.
  - discriminate.
  - reflexivity.
  - vm_compute. auto.
  - reflexivity.
  - intros rc H Hne. vm_compute in H.
    repeat (destruct H as [<- | H]; [first [reflexivity | now contradiction Hne]|]).
    contradiction.
  - intros rc H. vm_compute in H.
    repeat (destruct H as [<- | H]; [reflexivity|]).
    contradiction.
  - vm_compute. lia.
Defined.

(** * Two agents against each other *)

Lemma get_best_move_frames_le (self : MinimaxAI) (b : board)
      (r : board * option (Z * Z)) (frames frames' : nat) :
  (frames <= frames')%nat ->
  get_best_move frames self b = Ok r -> get_best_move frames' self b = Ok r.
Proof.
  induction 1 as [|f Hle IH]; intros H; [assumption|].
  apply get_best_move_more_frames. now apply IH.
Qed.

Ltac best_move_at_10 :=
  match goal with
  | Hf : (10 <= ?frames)%nat |- get_best_move ?frames ?self ?b = _ =>
      apply (get_best_move_frames_le self b _ 10 frames Hf);
      vm_compute; reflexivity
  end.

(** C6: two agents that choose with [get_best_move], one maximizing for X
    and one for O, taking turns from the empty board: each move below is
    the one [get_best_move] returns on the board before it, [make_move]
    applies it, [is_game_over] reports the game unfinished after each of
    the first eight moves and a draw after the ninth, whichever side
    opens and whatever the frame budget from 10 on. *)
Theorem self_play_draw (frames : nat) :
  (10 <= frames)%nat ->
  (get_best_move frames X_vs_O
     [[" "; " "; " "]; [" "; " "; " "]; [" "; " "; " "]]
   = Ok ([[" "; " "; " "]; [" "; " "; " "]; [" "; " "; " "]],
         Some (0, 0)) /\
   make_move [[" "; " "; " "]; [" "; " "; " "]; [" "; " "; " "]]
     0 0 "X"
   = Ok ([["X"; " "; " "]; [" "; " "; " "]; [" "; " "; " "]], true) /\
   is_game_over [["X"; " "; " "]; [" "; " "; " "]; [" "; " "; " "]]
   = Ok (false, None) /\
   get_best_move frames O_vs_X
     [["X"; " "; " "]; [" "; " "; " "]; [" "; " "; " "]]
   = Ok ([["X"; " "; " "]; [" "; " "; " "]; [" "; " "; " "]],
         Some (1, 1)) /\
   make_move [["X"; " "; " "]; [" "; " "; " "]; [" "; " "; " "]]
     1 1 "O"
   = Ok ([["X"; " "; " "]; [" "; "O"; " "]; [" "; " "; " "]], true) /\
   is_game_over [["X"; " "; " "]; [" "; "O"; " "]; [" "; " "; " "]]
   = Ok (false, None) /\
   get_best_move frames X_vs_O
     [["X"; " "; " "]; [" "; "O"; " "]; [" "; " "; " "]]
   = Ok ([["X"; " "; " "]; [" "; "O"; " "]; [" "; " "; " "]],
         Some (0, 1)) /\
   make_move [["X"; " "; " "]; [" "; "O"; " "]; [" "; " "; " "]]
     0 1 "X"
   = Ok ([["X"; "X"; " "]; [" "; "O"; " "]; [" "; " "; " "]], true) /\
   is_game_over [["X"; "X"; " "]; [" "; "O"; " "]; [" "; " "; " "]]
   = Ok (false, None) /\
   get_best_move frames O_vs_X
     [["X"; "X"; " "]; [" "; "O"; " "]; [" "; " "; " "]]
   = Ok ([["X"; "X"; " "]; [" "; "O"; " "]; [" "; " "; " "]],
         Some (0, 2)) /\
   make_move [["X"; "X"; " "]; [" "; "O"; " "]; [" "; " "; " "]]
     0 2 "O"
   = Ok ([["X"; "X"; "O"]; [" "; "O"; " "]; [" "; " "; " "]], true) /\
   is_game_over [["X"; "X"; "O"]; [" "; "O"; " "]; [" "; " "; " "]]
   = Ok (false, None) /\
   get_best_move frames X_vs_O
     [["X"; "X"; "O"]; [" "; "O"; " "]; [" "; " "; " "]]
   = Ok ([["X"; "X"; "O"]; [" "; "O"; " "]; [" "; " "; " "]],
         Some (2, 0)) /\
   make_move [["X"; "X"; "O"]; [" "; "O"; " "]; [" "; " "; " "]]
     2 0 "X"
   = Ok ([["X"; "X"; "O"]; [" "; "O"; " "]; ["X"; " "; " "]], true) /\
   is_game_over [["X"; "X"; "O"]; [" "; "O"; " "]; ["X"; " "; " "]]
   = Ok (false, None) /\
   get_best_move frames O_vs_X
     [["X"; "X"; "O"]; [" "; "O"; " "]; ["X"; " "; " "]]
   = Ok ([["X"; "X"; "O"]; [" "; "O"; " "]; ["X"; " "; " "]],
         Some (1, 0)) /\
   make_move [["X"; "X"; "O"]; [" "; "O"; " "]; ["X"; " "; " "]]
     1 0 "O"
   = Ok ([["X"; "X"; "O"]; ["O"; "O"; " "]; ["X"; " "; " "]], true) /\
   is_game_over [["X"; "X"; "O"]; ["O"; "O"; " "]; ["X"; " "; " "]]
   = Ok (false, None) /\
   get_best_move frames X_vs_O
     [["X"; "X"; "O"]; ["O"; "O"; " "]; ["X"; " "; " "]]
   = Ok ([["X"; "X"; "O"]; ["O"; "O"; " "]; ["X"; " "; " "]],
         Some (1, 2)) /\
   make_move [["X"; "X"; "O"]; ["O"; "O"; " "]; ["X"; " "; " "]]
     1 2 "X"
   = Ok ([["X"; "X"; "O"]; ["O"; "O"; "X"]; ["X"; " "; " "]], true) /\
   is_game_over [["X"; "X"; "O"]; ["O"; "O"; "X"]; ["X"; " "; " "]]
   = Ok (false, None) /\
   get_best_move frames O_vs_X
     [["X"; "X"; "O"]; ["O"; "O"; "X"]; ["X"; " "; " "]]
   = Ok ([["X"; "X"; "O"]; ["O"; "O"; "X"]; ["X"; " "; " "]],
         Some (2, 1)) /\
   make_move [["X"; "X"; "O"]; ["O"; "O"; "X"]; ["X"; " "; " "]]
     2 1 "O"
   = Ok ([["X"; "X"; "O"]; ["O"; "O"; "X"]; ["X"; "O"; " "]], true) /\
   is_game_over [["X"; "X"; "O"]; ["O"; "O"; "X"]; ["X"; "O"; " "]]
   = Ok (false, None) /\
   get_best_move frames X_vs_O
     [["X"; "X"; "O"]; ["O"; "O"; "X"]; ["X"; "O"; " "]]
   = Ok ([["X"; "X"; "O"]; ["O"; "O"; "X"]; ["X"; "O"; " "]],
         Some (2, 2)) /\
   make_move [["X"; "X"; "O"]; ["O"; "O"; "X"]; ["X"; "O"; " "]]
     2 2 "X"
   = Ok ([["X"; "X"; "O"]; ["O"; "O"; "X"]; ["X"; "O"; "X"]], true) /\
   is_game_over [["X"; "X"; "O"]; ["O"; "O"; "X"]; ["X"; "O"; "X"]]
   = Ok (true, Some "Draw") /\
   self_play 9 10 X_vs_O O_vs_X initial_board
   = Ok ([["X"; "X"; "O"]; ["O"; "O"; "X"]; ["X"; "O"; "X"]], (true, Some "Draw"))) /\
  (get_best_move frames O_vs_X
     [[" "; " "; " "]; [" "; " "; " "]; [" "; " "; " "]]
   = Ok ([[" "; " "; " "]; [" "; " "; " "]; [" "; " "; " "]],
         Some (0, 0)) /\
   make_move [[" "; " "; " "]; [" "; " "; " "]; [" "; " "; " "]]
     0 0 "O"
   = Ok ([["O"; " "; " "]; [" "; " "; " "]; [" "; " "; " "]], true) /\
   is_game_over [["O"; " "; " "]; [" "; " "; " "]; [" "; " "; " "]]
   = Ok (false, None) /\
   get_best_move frames X_vs_O
     [["O"; " "; " "]; [" "; " "; " "]; [" "; " "; " "]]
   = Ok ([["O"; " "; " "]; [" "; " "; " "]; [" "; " "; " "]],
         Some (1, 1)) /\
   make_move [["O"; " "; " "]; [" "; " "; " "]; [" "; " "; " "]]
     1 1 "X"
   = Ok ([["O"; " "; " "]; [" "; "X"; " "]; [" "; " "; " "]], true) /\
   is_game_over [["O"; " "; " "]; [" "; "X"; " "]; [" "; " "; " "]]
   = Ok (false, None) /\
   get_best_move frames O_vs_X
     [["O"; " "; " "]; [" "; "X"; " "]; [" "; " "; " "]]
   = Ok ([["O"; " "; " "]; [" "; "X"; " "]; [" "; " "; " "]],
         Some (0, 1)) /\
   make_move [["O"; " "; " "]; [" "; "X"; " "]; [" "; " "; " "]]
     0 1 "O"
   = Ok ([["O"; "O"; " "]; [" "; "X"; " "]; [" "; " "; " "]], true) /\
   is_game_over [["O"; "O"; " "]; [" "; "X"; " "]; [" "; " "; " "]]
   = Ok (false, None) /\
   get_best_move frames X_vs_O
     [["O"; "O"; " "]; [" "; "X"; " "]; [" "; " "; " "]]
   = Ok ([["O"; "O"; " "]; [" "; "X"; " "]; [" "; " "; " "]],
         Some (0, 2)) /\
   make_move [["O"; "O"; " "]; [" "; "X"; " "]; [" "; " "; " "]]
     0 2 "X"
   = Ok ([["O"; "O"; "X"]; [" "; "X"; " "]; [" "; " "; " "]], true) /\
   is_game_over [["O"; "O"; "X"]; [" "; "X"; " "]; [" "; " "; " "]]
   = Ok (false, None) /\
   get_best_move frames O_vs_X
     [["O"; "O"; "X"]; [" "; "X"; " "]; [" "; " "; " "]]
   = Ok ([["O"; "O"; "X"]; [" "; "X"; " "]; [" "; " "; " "]],
         Some (2, 0)) /\
   make_move [["O"; "O"; "X"]; [" "; "X"; " "]; [" "; " "; " "]]
     2 0 "O"
   = Ok ([["O"; "O"; "X"]; [" "; "X"; " "]; ["O"; " "; " "]], true) /\
   is_game_over [["O"; "O"; "X"]; [" "; "X"; " "]; ["O"; " "; " "]]
   = Ok (false, None) /\
   get_best_move frames X_vs_O
     [["O"; "O"; "X"]; [" "; "X"; " "]; ["O"; " "; " "]]
   = Ok ([["O"; "O"; "X"]; [" "; "X"; " "]; ["O"; " "; " "]],
         Some (1, 0)) /\
   make_move [["O"; "O"; "X"]; [" "; "X"; " "]; ["O"; " "; " "]]
     1 0 "X"
   = Ok ([["O"; "O"; "X"]; ["X"; "X"; " "]; ["O"; " "; " "]], true) /\
   is_game_over [["O"; "O"; "X"]; ["X"; "X"; " "]; ["O"; " "; " "]]
   = Ok (false, None) /\
   get_best_move frames O_vs_X
     [["O"; "O"; "X"]; ["X"; "X"; " "]; ["O"; " "; " "]]
   = Ok ([["O"; "O"; "X"]; ["X"; "X"; " "]; ["O"; " "; " "]],
         Some (1, 2)) /\
   make_move [["O"; "O"; "X"]; ["X"; "X"; " "]; ["O"; " "; " "]]
     1 2 "O"
   = Ok ([["O"; "O"; "X"]; ["X"; "X"; "O"]; ["O"; " "; " "]], true) /\
   is_game_over [["O"; "O"; "X"]; ["X"; "X"; "O"]; ["O"; " "; " "]]
   = Ok (false, None) /\
   get_best_move frames X_vs_O
     [["O"; "O"; "X"]; ["X"; "X"; "O"]; ["O"; " "; " "]]
   = Ok ([["O"; "O"; "X"]; ["X"; "X"; "O"]; ["O"; " "; " "]],
         Some (2, 1)) /\
   make_move [["O"; "O"; "X"]; ["X"; "X"; "O"]; ["O"; " "; " "]]
     2 1 "X"
   = Ok ([["O"; "O"; "X"]; ["X"; "X"; "O"]; ["O"; "X"; " "]], true) /\
   is_game_over [["O"; "O"; "X"]; ["X"; "X"; "O"]; ["O"; "X"; " "]]
   = Ok (false, None) /\
   get_best_move frames O_vs_X
     [["O"; "O"; "X"]; ["X"; "X"; "O"]; ["O"; "X"; " "]]
   = Ok ([["O"; "O"; "X"]; ["X"; "X"; "O"]; ["O"; "X"; " "]],
         Some (2, 2)) /\
   make_move [["O"; "O"; "X"]; ["X"; "X"; "O"]; ["O"; "X"; " "]]
     2 2 "O"
   = Ok ([["O"; "O"; "X"]; ["X"; "X"; "O"]; ["O"; "X"; "O"]], true) /\
   is_game_over [["O"; "O"; "X"]; ["X"; "X"; "O"]; ["O"; "X"; "O"]]
   = Ok (true, Some "Draw") /\
   self_play 9 10 O_vs_X X_vs_O initial_board
   = Ok ([["O"; "O"; "X"]; ["X"; "X"; "O"]; ["O"; "X"; "O"]], (true, Some "Draw"))).
Proof.
  intros Hf. split.
  - repeat (split; [first [best_move_at_10 | reflexivity | vm_compute; reflexivity]|]).
    vm_compute. reflexivity.
  - repeat (split; [first [best_move_at_10 | reflexivity | vm_compute; reflexivity]|]).
    vm_compute. reflexivity.
Qed.

Lemma self_play_draw_witness :
  (get_best_move 10 X_vs_O
     [[" "; " "; " "]; [" "; " "; " "]; [" "; " "; " "]]
   = Ok ([[" "; " "; " "]; [" "; " "; " "]; [" "; " "; " "]],
         Some (0, 0)) /\
   make_move [[" "; " "; " "]; [" "; " "; " "]; [" "; " "; " "]]
     0 0 "X"
   = Ok ([["X"; " "; " "]; [" "; " "; " "]; [" "; " "; " "]], true) /\
   is_game_over [["X"; " "; " "]; [" "; " "; " "]; [" "; " "; " "]]
   = Ok (false, None) /\
   get_best_move 10 O_vs_X
     [["X"; " "; " "]; [" "; " "; " "]; [" "; " "; " "]]
   = Ok ([["X"; " "; " "]; [" "; " "; " "]; [" "; " "; " "]],
         Some (1, 1)) /\
   make_move [["X"; " "; " "]; [" "; " "; " "]; [" "; " "; " "]]
     1 1 "O"
   = Ok ([["X"; " "; " "]; [" "; "O"; " "]; [" "; " "; " "]], true) /\
   is_game_over [["X"; " "; " "]; [" "; "O"; " "]; [" "; " "; " "]]
   = Ok (false, None) /\
   get_best_move 10 X_vs_O
     [["X"; " "; " "]; [" "; "O"; " "]; [" "; " "; " "]]
   = Ok ([["X"; " "; " "]; [" "; "O"; " "]; [" "; " "; " "]],
         Some (0, 1)) /\
   make_move [["X"; " "; " "]; [" "; "O"; " "]; [" "; " "; " "]]
     0 1 "X"
   = Ok ([["X"; "X"; " "]; [" "; "O"; " "]; [" "; " "; " "]], true) /\
   is_game_over [["X"; "X"; " "]; [" "; "O"; " "]; [" "; " "; " "]]
   = Ok (false, None) /\
   get_best_move 10 O_vs_X
     [["X"; "X"; " "]; [" "; "O"; " "]; [" "; " "; " "]]
   = Ok ([["X"; "X"; " "]; [" "; "O"; " "]; [" "; " "; " "]],
         Some (0, 2)) /\
   make_move [["X"; "X"; " "]; [" "; "O"; " "]; [" "; " "; " "]]
     0 2 "O"
   = Ok ([["X"; "X"; "O"]; [" "; "O"; " "]; [" "; " "; " "]], true) /\
   is_game_over [["X"; "X"; "O"]; [" "; "O"; " "]; [" "; " "; " "]]
   = Ok (false, None) /\
   get_best_move 10 X_vs_O
     [["X"; "X"; "O"]; [" "; "O"; " "]; [" "; " "; " "]]
   = Ok ([["X"; "X"; "O"]; [" "; "O"; " "]; [" "; " "; " "]],
         Some (2, 0)) /\
   make_move [["X"; "X"; "O"]; [" "; "O"; " "]; [" "; " "; " "]]
     2 0 "X"
   = Ok ([["X"; "X"; "O"]; [" "; "O"; " "]; ["X"; " "; " "]], true) /\
   is_game_over [["X"; "X"; "O"]; [" "; "O"; " "]; ["X"; " "; " "]]
   = Ok (false, None) /\
   get_best_move 10 O_vs_X
     [["X"; "X"; "O"]; [" "; "O"; " "]; ["X"; " "; " "]]
   = Ok ([["X"; "X"; "O"]; [" "; "O"; " "]; ["X"; " "; " "]],
         Some (1, 0)) /\
   make_move [["X"; "X"; "O"]; [" "; "O"; " "]; ["X"; " "; " "]]
     1 0 "O"
   = Ok ([["X"; "X"; "O"]; ["O"; "O"; " "]; ["X"; " "; " "]], true) /\
   is_game_over [["X"; "X"; "O"]; ["O"; "O"; " "]; ["X"; " "; " "]]
   = Ok (false, None) /\
   get_best_move 10 X_vs_O
     [["X"; "X"; "O"]; ["O"; "O"; " "]; ["X"; " "; " "]]
   = Ok ([["X"; "X"; "O"]; ["O"; "O"; " "]; ["X"; " "; " "]],
         Some (1, 2)) /\
   make_move [["X"; "X"; "O"]; ["O"; "O"; " "]; ["X"; " "; " "]]
     1 2 "X"
   = Ok ([["X"; "X"; "O"]; ["O"; "O"; "X"]; ["X"; " "; " "]], true) /\
   is_game_over [["X"; "X"; "O"]; ["O"; "O"; "X"]; ["X"; " "; " "]]
   = Ok (false, None) /\
   get_best_move 10 O_vs_X
     [["X"; "X"; "O"]; ["O"; "O"; "X"]; ["X"; " "; " "]]
   = Ok ([["X"; "X"; "O"]; ["O"; "O"; "X"]; ["X"; " "; " "]],
         Some (2, 1)) /\
   make_move [["X"; "X"; "O"]; ["O"; "O"; "X"]; ["X"; " "; " "]]
     2 1 "O"
   = Ok ([["X"; "X"; "O"]; ["O"; "O"; "X"]; ["X"; "O"; " "]], true) /\
   is_game_over [["X"; "X"; "O"]; ["O"; "O"; "X"]; ["X"; "O"; " "]]
   = Ok (false, None) /\
   get_best_move 10 X_vs_O
     [["X"; "X"; "O"]; ["O"; "O"; "X"]; ["X"; "O"; " "]]
   = Ok ([["X"; "X"; "O"]; ["O"; "O"; "X"]; ["X"; "O"; " "]],
         Some (2, 2)) /\
   make_move [["X"; "X"; "O"]; ["O"; "O"; "X"]; ["X"; "O"; " "]]
     2 2 "X"
   = Ok ([["X"; "X"; "O"]; ["O"; "O"; "X"]; ["X"; "O"; "X"]], true) /\
   is_game_over [["X"; "X"; "O"]; ["O"; "O"; "X"]; ["X"; "O"; "X"]]
   = Ok (true, Some "Draw") /\
   self_play 9 10 X_vs_O O_vs_X initial_board
   = Ok ([["X"; "X"; "O"]; ["O"; "O"; "X"]; ["X"; "O"; "X"]], (true, Some "Draw"))) /\
  (get_best_move 10 O_vs_X
     [[" "; " "; " "]; [" "; " "; " "]; [" "; " "; " "]]
   = Ok ([[" "; " "; " "]; [" "; " "; " "]; [" "; " "; " "]],
         Some (0, 0)) /\
   make_move [[" "; " "; " "]; [" "; " "; " "]; [" "; " "; " "]]
     0 0 "O"
   = Ok ([["O"; " "; " "]; [" "; " "; " "]; [" "; " "; " "]], true) /\
   is_game_over [["O"; " "; " "]; [" "; " "; " "]; [" "; " "; " "]]
   = Ok (false, None) /\
   get_best_move 10 X_vs_O
     [["O"; " "; " "]; [" "; " "; " "]; [" "; " "; " "]]
   = Ok ([["O"; " "; " "]; [" "; " "; " "]; [" "; " "; " "]],
         Some (1, 1)) /\
   make_move [["O"; " "; " "]; [" "; " "; " "]; [" "; " "; " "]]
     1 1 "X"
   = Ok ([["O"; " "; " "]; [" "; "X"; " "]; [" "; " "; " "]], true) /\
   is_game_over [["O"; " "; " "]; [" "; "X"; " "]; [" "; " "; " "]]
   = Ok (false, None) /\
   get_best_move 10 O_vs_X
     [["O"; " "; " "]; [" "; "X"; " "]; [" "; " "; " "]]
   = Ok ([["O"; " "; " "]; [" "; "X"; " "]; [" "; " "; " "]],
         Some (0, 1)) /\
   make_move [["O"; " "; " "]; [" "; "X"; " "]; [" "; " "; " "]]
     0 1 "O"
   = Ok ([["O"; "O"; " "]; [" "; "X"; " "]; [" "; " "; " "]], true) /\
   is_game_over [["O"; "O"; " "]; [" "; "X"; " "]; [" "; " "; " "]]
   = Ok (false, None) /\
   get_best_move 10 X_vs_O
     [["O"; "O"; " "]; [" "; "X"; " "]; [" "; " "; " "]]
   = Ok ([["O"; "O"; " "]; [" "; "X"; " "]; [" "; " "; " "]],
         Some (0, 2)) /\
   make_move [["O"; "O"; " "]; [" "; "X"; " "]; [" "; " "; " "]]
     0 2 "X"
   = Ok ([["O"; "O"; "X"]; [" "; "X"; " "]; [" "; " "; " "]], true) /\
   is_game_over [["O"; "O"; "X"]; [" "; "X"; " "]; [" "; " "; " "]]
   = Ok (false, None) /\
   get_best_move 10 O_vs_X
     [["O"; "O"; "X"]; [" "; "X"; " "]; [" "; " "; " "]]
   = Ok ([["O"; "O"; "X"]; [" "; "X"; " "]; [" "; " "; " "]],
         Some (2, 0)) /\
   make_move [["O"; "O"; "X"]; [" "; "X"; " "]; [" "; " "; " "]]
     2 0 "O"
   = Ok ([["O"; "O"; "X"]; [" "; "X"; " "]; ["O"; " "; " "]], true) /\
   is_game_over [["O"; "O"; "X"]; [" "; "X"; " "]; ["O"; " "; " "]]
   = Ok (false, None) /\
   get_best_move 10 X_vs_O
     [["O"; "O"; "X"]; [" "; "X"; " "]; ["O"; " "; " "]]
   = Ok ([["O"; "O"; "X"]; [" "; "X"; " "]; ["O"; " "; " "]],
         Some (1, 0)) /\
   make_move [["O"; "O"; "X"]; [" "; "X"; " "]; ["O"; " "; " "]]
     1 0 "X"
   = Ok ([["O"; "O"; "X"]; ["X"; "X"; " "]; ["O"; " "; " "]], true) /\
   is_game_over [["O"; "O"; "X"]; ["X"; "X"; " "]; ["O"; " "; " "]]
   = Ok (false, None) /\
   get_best_move 10 O_vs_X
     [["O"; "O"; "X"]; ["X"; "X"; " "]; ["O"; " "; " "]]
   = Ok ([["O"; "O"; "X"]; ["X"; "X"; " "]; ["O"; " "; " "]],
         Some (1, 2)) /\
   make_move [["O"; "O"; "X"]; ["X"; "X"; " "]; ["O"; " "; " "]]
     1 2 "O"
   = Ok ([["O"; "O"; "X"]; ["X"; "X"; "O"]; ["O"; " "; " "]], true) /\
   is_game_over [["O"; "O"; "X"]; ["X"; "X"; "O"]; ["O"; " "; " "]]
   = Ok (false, None) /\
   get_best_move 10 X_vs_O
     [["O"; "O"; "X"]; ["X"; "X"; "O"]; ["O"; " "; " "]]
   = Ok ([["O"; "O"; "X"]; ["X"; "X"; "O"]; ["O"; " "; " "]],
         Some (2, 1)) /\
   make_move [["O"; "O"; "X"]; ["X"; "X"; "O"]; ["O"; " "; " "]]
     2 1 "X"
   = Ok ([["O"; "O"; "X"]; ["X"; "X"; "O"]; ["O"; "X"; " "]], true) /\
   is_game_over [["O"; "O"; "X"]; ["X"; "X"; "O"]; ["O"; "X"; " "]]
   = Ok (false, None) /\
   get_best_move 10 O_vs_X
     [["O"; "O"; "X"]; ["X"; "X"; "O"]; ["O"; "X"; " "]]
   = Ok ([["O"; "O"; "X"]; ["X"; "X"; "O"]; ["O"; "X"; " "]],
         Some (2, 2)) /\
   make_move [["O"; "O"; "X"]; ["X"; "X"; "O"]; ["O"; "X"; " "]]
     2 2 "O"
   = Ok ([["O"; "O"; "X"]; ["X"; "X"; "O"]; ["O"; "X"; "O"]], true) /\
   is_game_over [["O"; "O"; "X"]; ["X"; "X"; "O"]; ["O"; "X"; "O"]]
   = Ok (true, Some "Draw") /\
   self_play 9 10 O_vs_X X_vs_O initial_board
   = Ok ([["O"; "O"; "X"]; ["X"; "X"; "O"]; ["O"; "X"; "O"]], (true, Some "Draw"))).
Proof.
  apply (self_play_draw 10). lia.
Defined.

(** * Root scores one level deeper *)

Lemma deeper_mono (a b : Z) : a <= b -> deeper a <= deeper b.
Proof.
  unfold deeper. intros H.
  destruct (Z.ltb_spec 0 a), (Z.ltb_spec a 0), (Z.ltb_spec 0 b),
           (Z.ltb_spec b 0); lia.
Qed.

Lemma deeper_strict (a b : Z) :
  sparse a -> sparse b -> a < b -> deeper a < deeper b.
Proof.
  unfold deeper, sparse. intros Ha Hb H.
  destruct (Z.ltb_spec 0 a), (Z.ltb_spec a 0), (Z.ltb_spec 0 b),
           (Z.ltb_spec b 0); lia.
Qed.

Lemma py_max_deeper (a : num) (y : Z) :
  a <> PosInf ->
  py_max (deeper_num a) (Fin (deeper y)) = deeper_num (py_max a (Fin y)).
Proof.
  intros Ha. destruct a as [|z|]; [reflexivity| |contradiction].
  unfold py_max. cbn [deeper_num num_ltb].
  destruct (Z.ltb_spec z y) as [H|H].
  - pose proof (deeper_mono z y ltac:(lia)).
    destruct (Z.ltb_spec (deeper z) (deeper y)); cbn [deeper_num];
      f_equal; lia.
  - pose proof (deeper_mono y z H).
    destruct (Z.ltb_spec (deeper z) (deeper y)); cbn [deeper_num];
      f_equal; lia.
Qed.

Lemma py_min_deeper (a : num) (y : Z) :
  a <> NegInf ->
  py_min (deeper_num a) (Fin (deeper y)) = deeper_num (py_min a (Fin y)).
Proof.
  intros Ha. destruct a as [|z|]; [contradiction| |reflexivity].
  unfold py_min. cbn [deeper_num num_ltb].
  destruct (Z.ltb_spec y z) as [H|H].
  - pose proof (deeper_mono y z ltac:(lia)).
    destruct (Z.ltb_spec (deeper y) (deeper z)); cbn [deeper_num];
      f_equal; lia.
  - pose proof (deeper_mono z y H).
    destruct (Z.ltb_spec (deeper y) (deeper z)); cbn [deeper_num];
      f_equal; lia.
Qed.

Lemma py_max_sparse (a : num) (y : Z) :
  a = NegInf \/ (exists z, a = Fin z /\ sparse z) -> sparse y ->
  exists z, py_max a (Fin y) = Fin z /\ sparse z.
Proof.
  intros [-> | (z & -> & Hz)] Hy; unfold py_max; simpl.
  - eauto.
  - destruct (z <? y); eauto.
Qed.

Lemma py_min_sparse (a : num) (y : Z) :
  a = PosInf \/ (exists z, a = Fin z /\ sparse z) -> sparse y ->
  exists z, py_min a (Fin y) = Fin z /\ sparse z.
Proof.
  intros [-> | (z & -> & Hz)] Hy; unfold py_min; simpl.
  - eauto.
  - destruct (y <? z); eauto.
Qed.

Lemma leaf_value_deeper (self : MinimaxAI) (b : board) (d : Z) :
  0 <= d <= 8 ->
  leaf_value self b (d + 1) = deeper (leaf_value self b d) /\
  sparse (leaf_value self b d).
Proof.
  intros Hd.
  assert (H : forall s, (s = 10 \/ s = -10 \/ s = 0) ->
            (if 0 <? s then s - (d + 1) else if s <? 0 then s + (d + 1) else 0)
            = deeper (if 0 <? s then s - d else if s <? 0 then s + d else 0) /\
            sparse (if 0 <? s then s - d else if s <? 0 then s + d else 0)).
  { intros s [-> | [-> | ->]]; unfold deeper, sparse.
    - change (0 <? 10) with true. cbv iota.
      destruct (Z.ltb_spec 0 (10 - d)); [|lia]. split; lia.
    - change (0 <? -10) with false. change (-10 <? 0) with true. cbv iota.
      destruct (Z.ltb_spec 0 (-10 + d)); [lia|].
      destruct (Z.ltb_spec (-10 + d) 0); [|lia]. split; lia.
    - change (0 <? 0) with false. cbv iota. split; [reflexivity|lia]. }
  unfold leaf_value. cbv zeta. apply H.
  destruct (winner_is (first_line b) (ai_player self)); [auto|].
  destruct (winner_is (first_line b) (human_player self)); auto.
Qed.

Section PlainDeeper.

Variables rec1 rec2 : board -> result (board * num).
Variable mark : string.
Variable b : board.
Hypothesis Hwf : wf_board b = true.

Lemma plain_max_loop_deeper (moves : list (Z * Z)) :
  (forall r c, In (r, c) moves -> In (r, c) (empty_cells b)) ->
  (forall r c b1, In (r, c) moves -> set_cell b r c mark = Ok b1 ->
     exists x, rec1 b1 = Ok (b1, Fin x) /\
               rec2 b1 = Ok (b1, Fin (deeper x)) /\ sparse x) ->
  forall m,
    m = NegInf \/ (exists z, m = Fin z /\ sparse z) ->
    exists M,
      plain_max_loop rec1 mark moves b m = Ok (b, M) /\
      plain_max_loop rec2 mark moves b (deeper_num m)
      = Ok (b, deeper_num M) /\
      (moves = [] /\ M = m \/ exists z, M = Fin z /\ sparse z).
Proof.
  induction moves as [|[r c] rest IH]; intros Hin Hch m Hm.
  - exists m. cbn [plain_max_loop]. auto.
  - destruct (try_candidate b r c mark Hwf (Hin r c (or_introl eq_refl)))
      as (b1 & Hset & Hwf1 & Hundo).
    destruct (Hch r c b1 (or_introl eq_refl) Hset) as (x & H1 & H2 & Hx).
    destruct (py_max_sparse m x Hm Hx) as (z & Hz & Hzs).
    destruct (IH (fun r' c' H => Hin r' c' (or_intror H))
                 (fun r' c' b' H => Hch r' c' b' (or_intror H))
                 (py_max m (Fin x)))
      as (M & HM1 & HM2 & Hcases).
    { right. eauto. }
    exists M. cbn [plain_max_loop]. rewrite Hset. cbn [bind].
    rewrite H1, H2. cbn [bind]. rewrite Hundo. cbn [bind].
    rewrite py_max_deeper
      by (destruct Hm as [-> | (z0 & -> & _)]; discriminate).
    split; [assumption|]. split; [assumption|]. right.
    destruct Hcases as [[_ ->] | H]; eauto.
Qed.

Lemma plain_min_loop_deeper (moves : list (Z * Z)) :
  (forall r c, In (r, c) moves -> In (r, c) (empty_cells b)) ->
  (forall r c b1, In (r, c) moves -> set_cell b r c mark = Ok b1 ->
     exists x, rec1 b1 = Ok (b1, Fin x) /\
               rec2 b1 = Ok (b1, Fin (deeper x)) /\ sparse x) ->
  forall m,
    m = PosInf \/ (exists z, m = Fin z /\ sparse z) ->
    exists M,
      plain_min_loop rec1 mark moves b m = Ok (b, M) /\
      plain_min_loop rec2 mark moves b (deeper_num m)
      = Ok (b, deeper_num M) /\
      (moves = [] /\ M = m \/ exists z, M = Fin z /\ sparse z).
Proof.
  induction moves as [|[r c] rest IH]; intros Hin Hch m Hm.
  - exists m. cbn [plain_min_loop]. auto.
  - destruct (try_candidate b r c mark Hwf (Hin r c (or_introl eq_refl)))
      as (b1 & Hset & Hwf1 & Hundo).
    destruct (Hch r c b1 (or_introl eq_refl) Hset) as (x & H1 & H2 & Hx).
    destruct (py_min_sparse m x Hm Hx) as (z & Hz & Hzs).
    destruct (IH (fun r' c' H => Hin r' c' (or_intror H))
                 (fun r' c' b' H => Hch r' c' b' (or_intror H))
                 (py_min m (Fin x)))
      as (M & HM1 & HM2 & Hcases).
    { right. eauto. }
    exists M. cbn [plain_min_loop]. rewrite Hset. cbn [bind].
    rewrite H1, H2. cbn [bind]. rewrite Hundo. cbn [bind].
    rewrite py_min_deeper
      by (destruct Hm as [-> | (z0 & -> & _)]; discriminate).
    split; [assumption|]. split; [assumption|]. right.
    destruct Hcases as [[_ ->] | H]; eauto.
Qed.

End PlainDeeper.

Lemma minimax_plain_deeper (self : MinimaxAI) :
  ai_player self <> " " -> human_player self <> " " ->
  forall frames b,
    wf_board b = true ->
    (List.length (empty_cells b) < frames)%nat ->
    forall d is_maximizing,
      0 <= d -> d + Z.of_nat (List.length (empty_cells b)) <= 8 ->
      exists x,
        minimax_plain frames self b d is_maximizing = Ok (b, Fin x) /\
        minimax_plain frames self b (d + 1) is_maximizing
        = Ok (b, Fin (deeper x)) /\
        sparse x.
Proof.
  intros Hai Hhu. induction frames as [|frames IH]; intros b Hwf Hlen d m Hd Hk.
  - inversion Hlen.
  - assert (Hchild : forall mark is_max, mark <> " " ->
              forall r c b1,
                In (r, c) (empty_cells b) -> set_cell b r c mark = Ok b1 ->
                exists x,
                  minimax_plain frames self b1 (d + 1) is_max = Ok (b1, Fin x) /\
                  minimax_plain frames self b1 (d + 1 + 1) is_max
                  = Ok (b1, Fin (deeper x)) /\
                  sparse x).
    { intros mark is_max Hmark r c b1 Hin Hset.
      destruct (try_candidate b r c mark Hwf Hin) as (b1' & Hset' & Hwf1 & _).
      rewrite Hset in Hset'. inversion Hset'. subst b1'.
      pose proof (empty_cells_set b b1 r c mark Hwf Hin Hmark Hset).
      apply IH; [assumption|lia|lia|lia]. }
    rewrite !(minimax_plain_step _ _ _ _ _ Hwf).
    destruct (truthy (first_line b) || is_board_full b) eqn:Hterm.
    + destruct (leaf_value_deeper self b d ltac:(lia)) as [E Hs].
      exists (leaf_value self b d). rewrite E. auto.
    + apply orb_false_iff in Hterm. destruct Hterm as [_ Hfull].
      pose proof (not_full_has_empty b Hwf Hfull) as Hne.
      destruct m.
      * destruct (plain_max_loop_deeper
                    (fun b' => minimax_plain frames self b' (d + 1) false)
                    (fun b' => minimax_plain frames self b' (d + 1 + 1) false)
                    (ai_player self) b Hwf (empty_cells b)
                    (fun r c H => H)
                    (Hchild (ai_player self) false Hai)
                    NegInf (or_introl eq_refl))
          as (M & H1 & H2 & [[E _] | (z & -> & Hz)]); [contradiction|].
        exists z. cbn [deeper_num] in H2. auto.
      * destruct (plain_min_loop_deeper
                    (fun b' => minimax_plain frames self b' (d + 1) true)
                    (fun b' => minimax_plain frames self b' (d + 1 + 1) true)
                    (human_player self) b Hwf (empty_cells b)
                    (fun r c H => H)
                    (Hchild (human_player self) true Hhu)
                    PosInf (or_introl eq_refl))
          as (M & H1 & H2 & [[E _] | (z & -> & Hz)]); [contradiction|].
        exists z. cbn [deeper_num] in H2. auto.
Qed.

(** A root candidate scored at depth 1 gets the score it gets at depth 0,
    moved one step towards 0; and the score at depth 0 is never 1 or -1. *)
Lemma candidate_score_deeper (frames : nat) (self : MinimaxAI) (b : board)
      (r c : Z) :
  ai_player self <> " " -> human_player self <> " " ->
  wf_board b = true ->
  (List.length (empty_cells b) <= frames)%nat ->
  In (r, c) (empty_cells b) ->
  exists x,
    candidate_score frames self b 0 (r, c) = Ok (b, Fin x) /\
    candidate_score frames self b 1 (r, c) = Ok (b, Fin (deeper x)) /\
    sparse x.
Proof.
  intros Hai Hhu Hwf Hlen Hin.
  destruct (try_candidate b r c (ai_player self) Hwf Hin)
    as (b1 & Hset & Hwf1 & Hundo).
  pose proof (empty_cells_set b b1 r c _ Hwf Hin Hai Hset) as Hcount.
  pose proof (empty_cells_at_most_nine b Hwf) as Hnine.
  destruct (minimax_plain_deeper self Hai Hhu frames b1 Hwf1 ltac:(lia)
              0 false ltac:(lia) ltac:(lia))
    as (x & Hp0 & Hp1 & Hx).
  change (0 + 1) with 1 in Hp1.
  destruct (minimax_sound self Hai Hhu frames b1 Hwf1 ltac:(lia) 0 false)
    as (x0 & Hq0 & Hab0).
  rewrite Hp0 in Hq0. inversion Hq0. subst x0.
  destruct (Hab0 NegInf PosInf) as (y0 & Hy0 & Hb0).
  pose proof (bounded_full_window y0 x (Hb0 eq_refl)) as E0. subst y0.
  destruct (minimax_sound self Hai Hhu frames b1 Hwf1 ltac:(lia) 1 false)
    as (x1 & Hq1 & Hab1).
  rewrite Hp1 in Hq1. inversion Hq1. subst x1.
  destruct (Hab1 NegInf PosInf) as (y1 & Hy1 & Hb1).
  pose proof (bounded_full_window y1 (deeper x) (Hb1 eq_refl)) as E1.
  subst y1.
  exists x. unfold candidate_score. cbn [fst snd].
  rewrite Hset. cbn [bind]. rewrite Hy0, Hy1. cbn [bind]. rewrite Hundo.
  auto.
Qed.

(** C2: on every board with an empty cell, [get_best_move] takes the empty
    cells in row-major order, as [get_available_moves] lists them, and
    returns the first of them whose score is the greatest, where the score
    of a candidate is what [minimax] returns at depth 1, for the minimizing
    side and with fresh bounds, on the board with the candidate written for
    the maximizing side, the cell being blanked again afterwards: every
    earlier candidate scores strictly less, every later one at most as
    much.  The call in the loop passes depth 0; the score the loop keeps
    for the move it returns is the score at depth 0, of which the score at
    depth 1 is the image by [deeper], and the order of the candidates is
    the same for both. *)
Theorem get_best_move_first_maximum (frames : nat) (self : MinimaxAI)
        (b : board) :
  wf_board b = true ->
  ai_player self <> " " -> human_player self <> " " ->
  empty_cells b <> [] ->
  (List.length (empty_cells b) <= frames)%nat ->
  exists pre mv post s,
    get_available_moves b = Ok (pre ++ mv :: post) /\
    pre ++ mv :: post = filter (is_blank b) coords /\
    get_best_move frames self b = Ok (b, Some mv) /\
    candidate_score frames self b 1 mv = Ok (b, Fin s) /\
    (forall m', In m' pre ->
       exists s', candidate_score frames self b 1 m' = Ok (b, Fin s') /\
                  s' < s) /\
    (forall m', In m' post ->
       exists s', candidate_score frames self b 1 m' = Ok (b, Fin s') /\
                  s' <= s) /\
    (exists s0,
        best_loop frames self (pre ++ mv :: post) b NegInf None
        = Ok (b, (Fin s0, Some mv)) /\
        candidate_score frames self b 0 mv = Ok (b, Fin s0) /\
        s = deeper s0).
Proof.
  intros Hwf Hai Hhu Hne Hlen.
  destruct (best_loop_first_max frames self b Hai Hhu Hwf Hlen
              (empty_cells b) [] (fun r c H => H) NegInf None)
    as (s0 & mv0 & Hloop & Hk).
  { left. auto. }
  cbn [app] in Hk.
  destruct Hk as [(E & _) | (pre & mv & post & s & E & -> & -> & Hs & Hpre & Hpost)].
  - contradiction.
  - assert (Hd : forall m', In m' (empty_cells b) ->
              exists x,
                candidate_score frames self b 0 m' = Ok (b, Fin x) /\
                candidate_score frames self b 1 m' = Ok (b, Fin (deeper x)) /\
                sparse x).
    { intros [r c] Hin. now apply candidate_score_deeper. }
    destruct (Hd mv) as (x & Hx0 & Hx1 & Hxs).
    { rewrite E. apply in_or_app. right. now left. }
    rewrite Hs in Hx0. inversion Hx0. subst x.
    exists pre, mv, post, (deeper s).
    split; [rewrite <- E; now apply get_available_moves_empty_cells|].
    split; [now rewrite <- E|].
    split.
    { unfold get_best_move.
      rewrite (get_available_moves_empty_cells b Hwf). cbn [bind].
      now rewrite Hloop. }
    split; [assumption|].
    split; [|split].
    + intros m' Hm'.
      destruct (Hpre m' Hm') as (s' & Hs' & Hlt).
      destruct (Hd m') as (x' & Hx'0 & Hx'1 & Hx's).
      { rewrite E. apply in_or_app. now left. }
      rewrite Hs' in Hx'0. inversion Hx'0. subst x'.
      exists (deeper s'). split; [assumption|].
      now apply deeper_strict.
    + intros m' Hm'.
      destruct (Hpost m' Hm') as (s' & Hs' & Hle).
      destruct (Hd m') as (x' & Hx'0 & Hx'1 & Hx's).
      { rewrite E. apply in_or_app. right. now right. }
      rewrite Hs' in Hx'0. inversion Hx'0. subst x'.
      exists (deeper s'). split; [assumption|].
      now apply deeper_mono.
    + exists s. rewrite <- E. auto.
Qed.

Lemma get_best_move_first_maximum_witness :
  exists pre mv post s,
    get_available_moves board_win_in_one = Ok (pre ++ mv :: post) /\
    pre ++ mv :: post = filter (is_blank board_win_in_one) coords /\
    get_best_move 10 O_vs_X board_win_in_one
    = Ok (board_win_in_one, Some mv) /\
    candidate_score 10 O_vs_X board_win_in_one 1 mv
    = Ok (board_win_in_one, Fin s) /\
    (forall m', In m' pre ->
       exists s', candidate_score 10 O_vs_X board_win_in_one 1 m'
                  = Ok (board_win_in_one, Fin s') /\ s' < s) /\
    (forall m', In m' post ->
       exists s', candidate_score 10 O_vs_X board_win_in_one 1 m'
                  = Ok (board_win_in_one, Fin s') /\ s' <= s) /\
    (exists s0,
        best_loop 10 O_vs_X (pre ++ mv :: post) board_win_in_one NegInf None
        = Ok (board_win_in_one, (Fin s0, Some mv)) /\
        candidate_score 10 O_vs_X board_win_in_one 0 mv
        = Ok (board_win_in_one, Fin s0) /\
        s = deeper s0).
Proof.
  apply (get_best_move_first_maximum 10 O_vs_X board_win_in_one).
  - reflexivity.
  - discriminate.
  - discriminate.
  - discriminate.
  - vm_compute. lia.
Defined.
